(** * Swipp core: startup (AppInit2) and shutdown (Shutdown)

    A shallow embedding of the node's bootstrap driver and of the
    seen-stake collections it configures.  Process-wide variables and the
    locals of [AppInit2] live in one state record; every call into a
    collaborator whose code is outside these sources (storage, wallet,
    network, key handling) is answered by an environment record and, where
    it acts on storage, the wallet, the network, threads or the screen,
    recorded in a trace, in the order of the calls.  Calls that only
    answer, or only set a key, are not recorded:
    SelectParamsFromCommandLine, ECC_InitSanityCheck, ParseMoney, the
    try_lock of the directory lock, the SetPrivKey and SetKey of the
    signers, ReadBestBlock, CheckDiskSpace, ReadFromDisk, the look-up,
    validity and network class of addresses, and the construction of
    database handles (CTxDB, CWalletDB, CAddrDB).

    Left out: LogPrintf and the daemon banner; the platform set-up at the
    head of [AppInit2] (signal handlers, umask, the Windows blocks); and
    the variables [AppInit2] assigns from an option without reading them
    again (nNodeLifespan, fUseFastIndex, nMinerSleep,
    nDerivationMethodIndex, fDebugSmsg, fDebugBacktrace, fPrintToConsole,
    fLogTimestamps, fConfChange, fMinimizeCoinAge).  The code is taken with
    ENABLE_WALLET defined.  The trace statements below therefore speak of
    the recorded calls only. *)

From stdpp Require Import gmap strings list.
From Stdlib Require Import ZArith Lia.

Local Open Scope string_scope.
Local Open Scope Z_scope.

(** ** Integer types *)

(** Conversion of a 64-bit value to [int]: two's-complement wrap. *)
Definition to_int (z : Z) : Z := (z + 2 ^ 31) mod 2 ^ 32 - 2 ^ 31.

(** [std::numeric_limits<unsigned int>::max()] *)
Definition UINT_MAX : Z := 2 ^ 32 - 1.

(** [EEXIST] of errno.h *)
Definition EEXIST : Z := 17.

(** ** Network classes and service addresses *)

Inductive Network := NET_UNROUTABLE | NET_IPV4 | NET_IPV6 | NET_TOR.

#[global] Instance Network_eq_dec : EqDecision Network.
Proof. solve_decision. Defined.

Definition Network_to_nat (n : Network) : nat :=
  match n with NET_UNROUTABLE => 0 | NET_IPV4 => 1 | NET_IPV6 => 2 | NET_TOR => 3 end%nat.

Definition Network_of_nat (k : nat) : option Network :=
  match k with
  | 0 => Some NET_UNROUTABLE | 1 => Some NET_IPV4
  | 2 => Some NET_IPV6 | 3 => Some NET_TOR | _ => None
  end%nat.

#[global] Instance Network_countable : Countable Network.
Proof.
  apply (inj_countable Network_to_nat Network_of_nat).
  intros []; reflexivity.
Defined.

(** The values of the enumeration below [NET_MAX], in increasing order. *)
Definition all_networks : list Network :=
  [NET_UNROUTABLE; NET_IPV4; NET_IPV6; NET_TOR].

(** A [CService] value, kept as the constructor call that built it; whether
    it is valid and which network class it belongs to is answered by the
    environment. *)
Inductive CService :=
| ServiceDefault
| ServiceOfString (str : string) (portDefault : Z) (fAllowLookup : bool)
| ServiceAny6 (port : Z)
| ServiceAny4 (port : Z)
| ServiceResolved (str : string) (port : Z).

#[global] Instance CService_eq_dec : EqDecision CService.
Proof. solve_decision. Defined.

(** ** Block index *)

(** A non-null [CBlockIndex*] is the entry it points to together with the
    chain of [pprev] links behind it; the null pointer is [None]. *)
#[warnings="-register-all"]
Inductive CBlockIndex :=
| BlockIndex (phashBlock : N) (nHeight : Z) (pprev : option CBlockIndex).

Definition phashBlock (b : CBlockIndex) : N :=
  match b with BlockIndex h _ _ => h end.
Definition nHeight (b : CBlockIndex) : Z :=
  match b with BlockIndex _ h _ => h end.
Definition pprev (b : CBlockIndex) : option CBlockIndex :=
  match b with BlockIndex _ _ p => p end.

(** Pointer comparison: the block index holds one entry per block hash. *)
Definition same_pointer (p q : option CBlockIndex) : bool :=
  match p, q with
  | None, None => true
  | Some a, Some b => N.eqb (phashBlock a) (phashBlock b)
  | _, _ => false
  end.

(** ** Seen-stake keys and their collections *)

Record COutPoint := MkOutPoint { op_hash : Z; op_n : Z }.

(** [std::pair<COutPoint, unsigned int>] *)
Definition StakeKey : Type := COutPoint * Z.

(** A dense hash set as far as [InitializeCollections] and its users see it:
    the two optional reserved keys and the stored keys.  The container
    itself is a third-party one; [dhs_insert] follows its contract, under
    which the empty key must be set before use and neither reserved key
    may be inserted. *)
Record dense_hash_set := MkDenseSet {
  empty_key : option StakeKey;
  deleted_key : option StakeKey;
  elements_of : list StakeKey
}.

Definition dhs_new : dense_hash_set := MkDenseSet None None [].

Definition set_empty_key (k : StakeKey) (s : dense_hash_set) : dense_hash_set :=
  MkDenseSet (Some k) (deleted_key s) (elements_of s).

Definition set_deleted_key (k : StakeKey) (s : dense_hash_set) : dense_hash_set :=
  MkDenseSet (empty_key s) (Some k) (elements_of s).

#[global] Instance COutPoint_eq_dec : EqDecision COutPoint.
Proof. solve_decision. Defined.

Definition is_reserved (s : dense_hash_set) (k : StakeKey) : bool :=
  bool_decide (empty_key s = Some k) || bool_decide (deleted_key s = Some k).

Definition dhs_count (k : StakeKey) (s : dense_hash_set) : bool :=
  bool_decide (k ∈ elements_of s).

Definition dhs_insert (k : StakeKey) (s : dense_hash_set) : option dense_hash_set :=
  match empty_key s with
  | None => None
  | Some _ =>
      if is_reserved s k then None
      else if dhs_count k s then Some s
      else Some (MkDenseSet (empty_key s) (deleted_key s) (k :: elements_of s))
  end.

(** ** Results of collaborator calls *)

Inductive VerifyResult := VERIFY_OK | RECOVER_OK | RECOVER_FAIL.

Inductive DBErrors :=
| DB_LOAD_OK | DB_CORRUPT | DB_NONCRITICAL_ERROR | DB_TOO_NEW
| DB_LOAD_FAIL | DB_NEED_REWRITE.

#[global] Instance DBErrors_eq_dec : EqDecision DBErrors.
Proof. solve_decision. Defined.

#[global] Instance VerifyResult_eq_dec : EqDecision VerifyResult.
Proof. solve_decision. Defined.

(** What the world outside these sources answers during one run. *)
Record Env := MkEnv {
  (* string to number, as util's atoi64 and atoi read option values *)
  atoi64 : string → Z;
  atoi : string → Z;
  (* chain parameters *)
  SelectParamsFromCommandLine : bool;
  TestNet : bool;
  GetListenPort : Z;
  CLIENT_VERSION : Z;
  FEATURE_LATEST : Z;
  (* crypto, money and file names *)
  ECC_InitSanityCheck : bool;
  ParseMoney : string → option Z;
  fee_is_very_high : Z → bool;
  is_plain_filename : string → bool;
  strDataDir : string;
  (* data directory lock and wallet environment *)
  lock_try_lock : bool;
  bitdb_Open_first : bool;
  bitdb_Open_retry : bool;
  CWalletDB_Recover : bool;
  wallet_file_exists : bool;
  bitdb_Verify : VerifyResult;
  masternodePayments_SetPrivKey : string → bool;
  sporkManager_SetPrivKey : string → bool;
  (* network *)
  ParseNetwork : string → Network;
  IsValid : CService → bool;
  GetNetwork : CService → Network;
  NetLookup : string → Z → option CService;
  BindListenPort : CService → option string;
  (* chain index and wallet *)
  LoadBlockIndex : bool;
  sigterm_before_index_check : bool;
  sigterm_before_return : bool;
  pindexBest : option CBlockIndex;
  pindexGenesisBlock : option CBlockIndex;
  (* whether CBlock::ReadFromDisk finds the block of an index entry *)
  ReadFromDisk : CBlockIndex → bool;
  LoadWallet : DBErrors * bool;
  wallet_GetVersion : Z;
  GetKeyFromPool : bool;
  SetAddressBookName : bool;
  ReadBestBlock : option (option CBlockIndex);
  addrman_Read : bool;
  CheckDiskSpace : bool;
  darkSendSigner_SetKey : string → bool;
  (* the value built by COutPoint() *)
  COutPoint_null : COutPoint
}.

(** ** Option maps

    The option accessors of util (GetArg, GetBoolArg, SoftSetArg,
    SoftSetBoolArg) are not among the sources.  [mapArgs] holds the raw
    options "already parsed into name→string(s) form". *)
Section Args.
Context (env : Env).

(** Modelled from the spec: util's GetArg for strings, which is missing;
    the supplied value when the option is present, the caller's default
    otherwise. *)
Definition GetArg (m : gmap string string) (strArg strDefault : string) : string :=
  match m !! strArg with
  | Some v => v
  | None => strDefault
  end.

(** Modelled from the spec: util's GetArg for integers, which is missing;
    the supplied value read as a number when the option is present, the
    caller's default otherwise. *)
Definition GetArgInt (m : gmap string string) (strArg : string) (nDefault : Z) : Z :=
  match m !! strArg with
  | Some v => atoi64 env v
  | None => nDefault
  end.

(** Modelled from the spec: util's GetBoolArg, which is missing; booleans
    are written 0/1, an option present without a value counts as set, an
    absent one takes the caller's default. *)
Definition GetBoolArg (m : gmap string string) (strArg : string) (fDefault : bool) : bool :=
  match m !! strArg with
  | Some v => if String.eqb v "" then true else negb (Z.eqb (atoi env v) 0)
  | None => fDefault
  end.

(** Modelled from the spec: util's SoftSetArg, which is missing; a soft-set
    is "assigning a default value to an option only if the operator did not
    explicitly provide one", and the result tells whether it assigned. *)
Definition SoftSetArg (m : gmap string string) (strArg strValue : string)
  : bool * gmap string string :=
  match m !! strArg with
  | Some _ => (false, m)
  | None => (true, <[strArg := strValue]> m)
  end.

(** Modelled from the spec: util's SoftSetBoolArg, which is missing; the
    soft-set of a boolean, written 1 or 0. *)
Definition SoftSetBoolArg (m : gmap string string) (strArg : string) (fValue : bool)
  : bool * gmap string string :=
  if fValue then SoftSetArg m strArg "1" else SoftSetArg m strArg "0".

End Args.

(** ** Effects recorded in the trace *)

Inductive ThreadName :=
| ThreadImport (arguments : list string)
| ThreadCheckDarkSendPool
| ThreadStakeMiner
| ThreadFlushWalletDB.

Inductive Event :=
| EvInitError (msg : string)
| EvInitWarning (msg : string)
| EvTouchLockFile
| EvShrinkDebugFile
| EvOpenDatabaseEnv (ok : bool)
| EvRenameDatabaseDir
| EvRecoverWallet (ok : bool)
| EvVerifyWallet (r : VerifyResult)
| EvRegisterNodeSignals
| EvSetReachable (net : Network)
| EvBindListenPort (addr : CService) (bound : bool)
| EvAddLocal (addr : CService)
| EvAddOneShot (strDest : string)
| EvTxdbLoadBlockIndex
| EvLoadBlockIndex (ok : bool)
| EvPrintBlockTree
| EvPrintBlock (strMatch : string)
| EvLoadWallet (nLoadWalletRet : DBErrors)
| EvSetMinVersion (nVersion : Z)
| EvSetMaxVersion (nVersion : Z)
| EvRandAddSeedPerfmon
| EvGetKeyFromPool (ok : bool)
| EvSetDefaultKey
| EvSetAddressBookName (ok : bool)
| EvSetBestChain (pindex : option CBlockIndex)
| EvRegisterWallet
| EvScanForWalletTransactions (pindexStart : option CBlockIndex)
| EvCreateThread (t : ThreadName)
| EvReadAddresses (ok : bool)
| EvSecureMsgStart (fDontStart fScanChain : bool)
| EvSetMinBlockSpacing (n : Z)
| EvSetPubKeyMasternode
| EvPushDenominations
| EvInitCollateralAddress
| EvRebuildAddressIndex (height : Z)
| EvStartNode
| EvInitRPCMining
| EvStartRPCThreads
| EvReacceptWalletTransactions
| EvAddTransactionsUpdated
| EvStopRPCThreads
| EvSecureMsgShutdown
| EvShutdownRPCMining
| EvFlush (fShutdown : bool)
| EvStopNode
| EvRemovePidFile
| EvUnregisterAllWallets
| EvDeleteWallet.

(** ** Program state *)

Record Flags := MkFlags {
  fDebug : bool;
  fNoSmsg : bool;
  fRequestShutdown : bool
}.

Record NetGlobals := MkNet {
  nConnectTimeout : Z;
  fOnlyTor : bool;
  vfLimited : gset Network;
  proxyInfo : gmap Network CService;
  nameProxy : option CService;
  fNoListen : bool;
  fDiscover : bool;
  fNameLookup : bool
}.

Record WalletGlobals := MkWallet {
  pwalletMain : bool;            (* false: NULL *)
  nTransactionFee : Z;
  nMinimumInputValue : Z;
  nReserveBalance : Z;
  nWalletDBUpdated : Z
}.

Record DarksendGlobals := MkDarksend {
  fMasterNode : bool;
  strMasterNodeAddr : string;
  strMasterNodePrivKey : string;
  fEnableDarksend : bool;
  nDarksendRounds : Z;
  nLiquidityProvider : Z;
  nAnonymizeSwippAmount : Z;
  nInstantXDepth : Z;
  fLiteMode : bool
}.

(** Locals of [AppInit2] that outlive the statement declaring them. *)
Record Frame := MkFrame {
  fDisableWallet : bool;
  strWalletFileName : string;
  strErrors : string;
  addrProxy : CService;
  fProxy : bool;
  fBound : bool
}.

Record Node := MkNode {
  mapArgs : gmap string string;
  mapMultiArgs : gmap string (list string);
  setStakeSeen : dense_hash_set;
  setStakeSeenOrphan : dense_hash_set;
  flags : Flags;
  net : NetGlobals;
  wallet : WalletGlobals;
  darksend : DarksendGlobals;
  frame : Frame;
  cs_Shutdown : option nat;      (* thread holding the shutdown lock *)
  trace : list Event
}.

(** Field updates. *)
Definition set_mapArgs (v : gmap string string) (s : Node) : Node :=
  MkNode v (mapMultiArgs s) (setStakeSeen s) (setStakeSeenOrphan s) (flags s)
    (net s) (wallet s) (darksend s) (frame s) (cs_Shutdown s) (trace s).
Definition set_mapMultiArgs (v : gmap string (list string)) (s : Node) : Node :=
  MkNode (mapArgs s) v (setStakeSeen s) (setStakeSeenOrphan s) (flags s)
    (net s) (wallet s) (darksend s) (frame s) (cs_Shutdown s) (trace s).
Definition set_setStakeSeen (v : dense_hash_set) (s : Node) : Node :=
  MkNode (mapArgs s) (mapMultiArgs s) v (setStakeSeenOrphan s) (flags s)
    (net s) (wallet s) (darksend s) (frame s) (cs_Shutdown s) (trace s).
Definition set_setStakeSeenOrphan (v : dense_hash_set) (s : Node) : Node :=
  MkNode (mapArgs s) (mapMultiArgs s) (setStakeSeen s) v (flags s)
    (net s) (wallet s) (darksend s) (frame s) (cs_Shutdown s) (trace s).
Definition in_flags (f : Flags → Flags) (s : Node) : Node :=
  MkNode (mapArgs s) (mapMultiArgs s) (setStakeSeen s) (setStakeSeenOrphan s)
    (f (flags s)) (net s) (wallet s) (darksend s) (frame s) (cs_Shutdown s) (trace s).
Definition in_net (f : NetGlobals → NetGlobals) (s : Node) : Node :=
  MkNode (mapArgs s) (mapMultiArgs s) (setStakeSeen s) (setStakeSeenOrphan s)
    (flags s) (f (net s)) (wallet s) (darksend s) (frame s) (cs_Shutdown s) (trace s).
Definition in_wallet (f : WalletGlobals → WalletGlobals) (s : Node) : Node :=
  MkNode (mapArgs s) (mapMultiArgs s) (setStakeSeen s) (setStakeSeenOrphan s)
    (flags s) (net s) (f (wallet s)) (darksend s) (frame s) (cs_Shutdown s) (trace s).
Definition in_darksend (f : DarksendGlobals → DarksendGlobals) (s : Node) : Node :=
  MkNode (mapArgs s) (mapMultiArgs s) (setStakeSeen s) (setStakeSeenOrphan s)
    (flags s) (net s) (wallet s) (f (darksend s)) (frame s) (cs_Shutdown s) (trace s).
Definition in_frame (f : Frame → Frame) (s : Node) : Node :=
  MkNode (mapArgs s) (mapMultiArgs s) (setStakeSeen s) (setStakeSeenOrphan s)
    (flags s) (net s) (wallet s) (darksend s) (f (frame s)) (cs_Shutdown s) (trace s).
Definition set_cs_Shutdown (v : option nat) (s : Node) : Node :=
  MkNode (mapArgs s) (mapMultiArgs s) (setStakeSeen s) (setStakeSeenOrphan s)
    (flags s) (net s) (wallet s) (darksend s) (frame s) v (trace s).
Definition set_trace (v : list Event) (s : Node) : Node :=
  MkNode (mapArgs s) (mapMultiArgs s) (setStakeSeen s) (setStakeSeenOrphan s)
    (flags s) (net s) (wallet s) (darksend s) (frame s) (cs_Shutdown s) v.

Definition set_fDebug (v : bool) (f : Flags) : Flags :=
  MkFlags v (fNoSmsg f) (fRequestShutdown f).
Definition set_fNoSmsg (v : bool) (f : Flags) : Flags :=
  MkFlags (fDebug f) v (fRequestShutdown f).
Definition set_fRequestShutdown (v : bool) (f : Flags) : Flags :=
  MkFlags (fDebug f) (fNoSmsg f) v.

Definition set_nConnectTimeout (v : Z) (n : NetGlobals) : NetGlobals :=
  MkNet v (fOnlyTor n) (vfLimited n) (proxyInfo n) (nameProxy n)
    (fNoListen n) (fDiscover n) (fNameLookup n).
Definition set_fOnlyTor (v : bool) (n : NetGlobals) : NetGlobals :=
  MkNet (nConnectTimeout n) v (vfLimited n) (proxyInfo n) (nameProxy n)
    (fNoListen n) (fDiscover n) (fNameLookup n).
Definition set_vfLimited (v : gset Network) (n : NetGlobals) : NetGlobals :=
  MkNet (nConnectTimeout n) (fOnlyTor n) v (proxyInfo n) (nameProxy n)
    (fNoListen n) (fDiscover n) (fNameLookup n).
Definition set_proxyInfo (v : gmap Network CService) (n : NetGlobals) : NetGlobals :=
  MkNet (nConnectTimeout n) (fOnlyTor n) (vfLimited n) v (nameProxy n)
    (fNoListen n) (fDiscover n) (fNameLookup n).
Definition set_nameProxy (v : option CService) (n : NetGlobals) : NetGlobals :=
  MkNet (nConnectTimeout n) (fOnlyTor n) (vfLimited n) (proxyInfo n) v
    (fNoListen n) (fDiscover n) (fNameLookup n).
Definition set_fNoListen (v : bool) (n : NetGlobals) : NetGlobals :=
  MkNet (nConnectTimeout n) (fOnlyTor n) (vfLimited n) (proxyInfo n) (nameProxy n)
    v (fDiscover n) (fNameLookup n).
Definition set_fDiscover (v : bool) (n : NetGlobals) : NetGlobals :=
  MkNet (nConnectTimeout n) (fOnlyTor n) (vfLimited n) (proxyInfo n) (nameProxy n)
    (fNoListen n) v (fNameLookup n).
Definition set_fNameLookup (v : bool) (n : NetGlobals) : NetGlobals :=
  MkNet (nConnectTimeout n) (fOnlyTor n) (vfLimited n) (proxyInfo n) (nameProxy n)
    (fNoListen n) (fDiscover n) v.

Definition set_pwalletMain (v : bool) (w : WalletGlobals) : WalletGlobals :=
  MkWallet v (nTransactionFee w) (nMinimumInputValue w) (nReserveBalance w) (nWalletDBUpdated w).
Definition set_nTransactionFee (v : Z) (w : WalletGlobals) : WalletGlobals :=
  MkWallet (pwalletMain w) v (nMinimumInputValue w) (nReserveBalance w) (nWalletDBUpdated w).
Definition set_nMinimumInputValue (v : Z) (w : WalletGlobals) : WalletGlobals :=
  MkWallet (pwalletMain w) (nTransactionFee w) v (nReserveBalance w) (nWalletDBUpdated w).
Definition set_nReserveBalance (v : Z) (w : WalletGlobals) : WalletGlobals :=
  MkWallet (pwalletMain w) (nTransactionFee w) (nMinimumInputValue w) v (nWalletDBUpdated w).
Definition set_nWalletDBUpdated (v : Z) (w : WalletGlobals) : WalletGlobals :=
  MkWallet (pwalletMain w) (nTransactionFee w) (nMinimumInputValue w) (nReserveBalance w) v.

Definition set_fMasterNode (v : bool) (d : DarksendGlobals) : DarksendGlobals :=
  MkDarksend v (strMasterNodeAddr d) (strMasterNodePrivKey d) (fEnableDarksend d)
    (nDarksendRounds d) (nLiquidityProvider d) (nAnonymizeSwippAmount d)
    (nInstantXDepth d) (fLiteMode d).
Definition set_strMasterNodeAddr (v : string) (d : DarksendGlobals) : DarksendGlobals :=
  MkDarksend (fMasterNode d) v (strMasterNodePrivKey d) (fEnableDarksend d)
    (nDarksendRounds d) (nLiquidityProvider d) (nAnonymizeSwippAmount d)
    (nInstantXDepth d) (fLiteMode d).
Definition set_strMasterNodePrivKey (v : string) (d : DarksendGlobals) : DarksendGlobals :=
  MkDarksend (fMasterNode d) (strMasterNodeAddr d) v (fEnableDarksend d)
    (nDarksendRounds d) (nLiquidityProvider d) (nAnonymizeSwippAmount d)
    (nInstantXDepth d) (fLiteMode d).
Definition set_fEnableDarksend (v : bool) (d : DarksendGlobals) : DarksendGlobals :=
  MkDarksend (fMasterNode d) (strMasterNodeAddr d) (strMasterNodePrivKey d) v
    (nDarksendRounds d) (nLiquidityProvider d) (nAnonymizeSwippAmount d)
    (nInstantXDepth d) (fLiteMode d).
Definition set_nDarksendRounds (v : Z) (d : DarksendGlobals) : DarksendGlobals :=
  MkDarksend (fMasterNode d) (strMasterNodeAddr d) (strMasterNodePrivKey d)
    (fEnableDarksend d) v (nLiquidityProvider d) (nAnonymizeSwippAmount d)
    (nInstantXDepth d) (fLiteMode d).
Definition set_nLiquidityProvider (v : Z) (d : DarksendGlobals) : DarksendGlobals :=
  MkDarksend (fMasterNode d) (strMasterNodeAddr d) (strMasterNodePrivKey d)
    (fEnableDarksend d) (nDarksendRounds d) v (nAnonymizeSwippAmount d)
    (nInstantXDepth d) (fLiteMode d).
Definition set_nAnonymizeSwippAmount (v : Z) (d : DarksendGlobals) : DarksendGlobals :=
  MkDarksend (fMasterNode d) (strMasterNodeAddr d) (strMasterNodePrivKey d)
    (fEnableDarksend d) (nDarksendRounds d) (nLiquidityProvider d) v
    (nInstantXDepth d) (fLiteMode d).
Definition set_nInstantXDepth (v : Z) (d : DarksendGlobals) : DarksendGlobals :=
  MkDarksend (fMasterNode d) (strMasterNodeAddr d) (strMasterNodePrivKey d)
    (fEnableDarksend d) (nDarksendRounds d) (nLiquidityProvider d)
    (nAnonymizeSwippAmount d) v (fLiteMode d).
Definition set_fLiteMode (v : bool) (d : DarksendGlobals) : DarksendGlobals :=
  MkDarksend (fMasterNode d) (strMasterNodeAddr d) (strMasterNodePrivKey d)
    (fEnableDarksend d) (nDarksendRounds d) (nLiquidityProvider d)
    (nAnonymizeSwippAmount d) (nInstantXDepth d) v.

Definition set_fDisableWallet (v : bool) (f : Frame) : Frame :=
  MkFrame v (strWalletFileName f) (strErrors f) (addrProxy f) (fProxy f) (fBound f).
Definition set_strWalletFileName (v : string) (f : Frame) : Frame :=
  MkFrame (fDisableWallet f) v (strErrors f) (addrProxy f) (fProxy f) (fBound f).
Definition set_strErrors (v : string) (f : Frame) : Frame :=
  MkFrame (fDisableWallet f) (strWalletFileName f) v (addrProxy f) (fProxy f) (fBound f).
Definition set_addrProxy (v : CService) (f : Frame) : Frame :=
  MkFrame (fDisableWallet f) (strWalletFileName f) (strErrors f) v (fProxy f) (fBound f).
Definition set_fProxy (v : bool) (f : Frame) : Frame :=
  MkFrame (fDisableWallet f) (strWalletFileName f) (strErrors f) (addrProxy f) v (fBound f).
Definition set_fBound (v : bool) (f : Frame) : Frame :=
  MkFrame (fDisableWallet f) (strWalletFileName f) (strErrors f) (addrProxy f) (fProxy f) v.


(** ** The monad of [AppInit2]: state, and early [return] *)

Inductive outcome (A : Type) :=
| Continue (a : A)
| Exit (code : Z).
Arguments Continue {A} a.
Arguments Exit {A} code.

Definition Init (A : Type) : Type := Node → outcome A * Node.

Definition ret {A : Type} (a : A) : Init A := λ st, (Continue a, st).

Definition bind {A B : Type} (m : Init A) (f : A → Init B) : Init B := λ st,
  match m st with
  | (Continue a, st') => f a st'
  | (Exit c, st') => (Exit c, st')
  end.

Declare Scope init_scope.
Delimit Scope init_scope with init.
Notation "x ← y ; z" := (bind y (λ x, z))
  (at level 20, y at level 100, z at level 200, only parsing) : init_scope.
Notation "x ;; z" := (bind x (λ _, z))
  (at level 100, z at level 200, only parsing, right associativity) : init_scope.
Local Open Scope init_scope.

Definition get : Init Node := λ st, (Continue st, st).
Definition modify (f : Node → Node) : Init unit := λ st, (Continue tt, f st).
Definition emit (e : Event) : Init unit :=
  modify (λ st, set_trace (trace st ++ [e]) st).
Definition exit {A : Type} (code : Z) : Init A := λ st, (Exit code, st).
Definition when (b : bool) (m : Init unit) : Init unit :=
  if b then m else ret tt.

(** [return e;] for an [e] of type bool inside a function returning int. *)
Definition return_bool {A : Type} (m : Init bool) : Init A :=
  b ← m; exit (Z.b2z b).

Fixpoint foreach {A : Type} (l : list A) (body : A → Init unit) : Init unit :=
  match l with
  | [] => ret tt
  | x :: l' => body x ;; foreach l' body
  end.

Definition endl : string := String (Ascii.ascii_of_nat 10) "".

(** ** init: helpers *)

Section Startup.
Context (env : Env).

(** [mapArgs.count(k)] *)
Definition count_arg (k : string) : Init bool :=
  st ← get; ret (match mapArgs st !! k with Some _ => true | None => false end).

(** [mapArgs[k]]: the subscript creates an empty entry when there is none. *)
Definition index_arg (k : string) : Init string := λ st,
  match mapArgs st !! k with
  | Some v => (Continue v, st)
  | None => (Continue "", set_mapArgs (<[k := ""]> (mapArgs st)) st)
  end.

(** [mapMultiArgs[k]], creating an empty vector when there is none. *)
Definition index_multi (k : string) : Init (list string) := λ st,
  match mapMultiArgs st !! k with
  | Some l => (Continue l, st)
  | None => (Continue [], set_mapMultiArgs (<[k := []]> (mapMultiArgs st)) st)
  end.

Definition get_arg (k dflt : string) : Init string :=
  st ← get; ret (GetArg (mapArgs st) k dflt).

Definition get_arg_int (k : string) (dflt : Z) : Init Z :=
  st ← get; ret (GetArgInt env (mapArgs st) k dflt).

Definition get_bool_arg (k : string) (dflt : bool) : Init bool :=
  st ← get; ret (GetBoolArg env (mapArgs st) k dflt).

Definition soft_set_bool (k : string) (v : bool) : Init bool := λ st,
  let r := SoftSetBoolArg (mapArgs st) k v in
  (Continue r.1, set_mapArgs r.2 st).

(** [if (SoftSetBoolArg(k, v)) LogPrintf(...)] *)
Definition soft_set_logged (k : string) (v : bool) : Init unit :=
  soft_set_bool k v ;; ret tt.

Definition InitError (str : string) : Init bool :=
  emit (EvInitError str) ;; ret false.

Definition InitError_code (str : string) (error : Z) : Init Z :=
  emit (EvInitError str) ;; ret error.

Definition InitWarning (str : string) : Init bool :=
  emit (EvInitWarning str) ;; ret true.

Definition StartShutdown : Init unit :=
  modify (in_flags (set_fRequestShutdown true)).

Definition HandleSIGTERM : Init unit :=
  modify (in_flags (set_fRequestShutdown true)).

Definition ShutdownRequested : Init bool :=
  st ← get; ret (fRequestShutdown (flags st)).

(** Modelled from the spec: net's SetLimited, which is missing;
    reachability is restricted "to an operator-declared allow-list of
    network classes", the unroutable class never being limited. *)
Definition SetLimited (n : Network) : Init unit :=
  when (negb (bool_decide (n = NET_UNROUTABLE)))
       (modify (in_net (λ g, set_vfLimited ({[ n ]} ∪ vfLimited g) g))).

(** Modelled from the spec: net's IsLimited, which is missing; whether a
    network class was taken off the allow-list. *)
Definition IsLimited (n : Network) : Init bool :=
  st ← get; ret (bool_decide (n ∈ vfLimited (net st))).

(** Modelled from the spec: netbase's SetProxy, which is missing; it
    registers the proxy endpoint for a network class. *)
Definition SetProxy (n : Network) (addr : CService) : Init unit :=
  modify (in_net (λ g, set_proxyInfo (<[n := addr]> (proxyInfo g)) g)).

(** Modelled from the spec: netbase's SetNameProxy, which is missing; the
    proxy endpoint used for name resolution. *)
Definition SetNameProxy (addr : CService) : Init unit :=
  modify (in_net (set_nameProxy (Some addr))).

Definition Bind (addr : CService) (fError : bool) : Init bool :=
  lim ← IsLimited (GetNetwork env addr);
  if lim then ret false
  else match BindListenPort env addr with
       | Some strError =>
           emit (EvBindListenPort addr false) ;;
           if fError then InitError strError else ret false
       | None => emit (EvBindListenPort addr true) ;; ret true
       end.

Definition InitSanityCheck : Init bool :=
  if ECC_InitSanityCheck env then ret true
  else
    InitError ("OpenSSL appears to lack support for elliptic curve cryptography. For more "
               +:+ "information, visit https://en.bitcoin.it/wiki/OpenSSL_and_EC_Libraries") ;;
    ret false.

Definition InitializeCollections : Init unit :=
  modify (λ st, set_setStakeSeen
                  (set_empty_key (COutPoint_null env, UINT_MAX) (setStakeSeen st)) st) ;;
  modify (λ st, set_setStakeSeenOrphan
                  (set_empty_key (COutPoint_null env, UINT_MAX) (setStakeSeenOrphan st)) st) ;;
  modify (λ st, set_setStakeSeenOrphan
                  (set_deleted_key (COutPoint_null env, UINT_MAX - 1) (setStakeSeenOrphan st)) st).

Definition add_error (line : string) : Init unit :=
  modify (in_frame (λ f, set_strErrors (strErrors f +:+ line +:+ endl) f)).

(** ** AppInit2, in source order *)

Definition SelectParams : Init unit :=
  when (negb (SelectParamsFromCommandLine env))
       (return_bool (InitError "Invalid combination of -testnet and -regtest.")).

(** Parameter interaction. *)
Definition ParameterInteraction : Init unit :=
  when (TestNet env) (soft_set_logged "-irc" true) ;;
  (fBind ← count_arg "-bind";
   when fBind (soft_set_logged "-listen" true)) ;;
  (fConnect ← count_arg "-connect";
   fAny ← (if fConnect
           then l ← index_multi "-connect"; ret (negb (length l =? 0)%nat)
           else ret false);
   when fAny (soft_set_logged "-dnsseed" false ;;
              soft_set_logged "-listen" false)) ;;
  (fProxyArg ← count_arg "-proxy";
   when fProxyArg (soft_set_logged "-listen" false ;;
                   soft_set_logged "-discover" false)) ;;
  (fListen ← get_bool_arg "-listen" true;
   when (negb fListen) (soft_set_logged "-upnp" false ;;
                        soft_set_logged "-discover" false)) ;;
  (fExternal ← count_arg "-externalip";
   when fExternal (soft_set_logged "-discover" false)) ;;
  (fSalvage ← get_bool_arg "-salvagewallet" false;
   when fSalvage (soft_set_logged "-rescan" true)).

Definition DebugOptions : Init unit :=
  (categories ← index_multi "-debug";
   modify (in_flags (set_fDebug (negb (length categories =? 0)%nat)))) ;;
  (categories ← index_multi "-debug";
   fNoDebug ← get_bool_arg "-nodebug" false;
   when (fNoDebug || bool_decide ("0" ∈ categories))
        (modify (in_flags (set_fDebug false)))) ;;
  (v ← get_bool_arg "-nosmsg" false; modify (in_flags (set_fNoSmsg v))) ;;
  (fDebugNet ← get_bool_arg "-debugnet" false;
   when fDebugNet
        (InitWarning "Warning: Deprecated argument -debugnet ignored, use -debug=net" ;;
         ret tt)) ;;
  (fSocks ← count_arg "-socks";
   when fSocks
        (return_bool (InitError
           ("Error: Unsupported argument -socks found. Setting SOCKS version isn't possible anymore, "
            +:+ "only SOCKS5 proxies are supported.")))) ;;
  (v ← get_bool_arg "-disablewallet" false; modify (in_frame (set_fDisableWallet v))).

Definition ConnectTimeout : Init unit :=
  fTimeout ← count_arg "-timeout";
  when fTimeout
       (v ← get_arg_int "-timeout" 5000;
        let nNewTimeout := to_int v in
        when ((0 <? nNewTimeout) && (nNewTimeout <? 600000))
             (modify (in_net (set_nConnectTimeout nNewTimeout)))).

Definition PayTxFee : Init unit :=
  fFee ← count_arg "-paytxfee";
  when fFee
       (v ← index_arg "-paytxfee";
        match ParseMoney env v with
        | None =>
            v' ← index_arg "-paytxfee";
            return_bool (InitError ("Invalid amount for -paytxfee=<amount>: '" +:+ v' +:+ "'"))
        | Some n =>
            modify (in_wallet (set_nTransactionFee n)) ;;
            when (fee_is_very_high env n)
                 (InitWarning ("Warning: -paytxfee is set very high! This is the transaction fee you will "
                               +:+ "pay if you send a transaction.") ;;
                  ret tt)
        end).

Definition MinInput : Init unit :=
  fMin ← count_arg "-mininput";
  when fMin
       (v ← index_arg "-mininput";
        match ParseMoney env v with
        | None =>
            v' ← index_arg "-mininput";
            return_bool (InitError ("Invalid amount for -mininput=<amount>: '" +:+ v' +:+ "'"))
        | Some n => modify (in_wallet (set_nMinimumInputValue n))
        end).

Definition SanityCheck : Init unit :=
  ok ← InitSanityCheck;
  when (negb ok)
       (return_bool (InitError "Initialization sanity check failed. Swipp is shutting down.")).

Definition WalletFileName : Init unit :=
  name ← get_arg "-wallet" "wallet.dat";
  modify (in_frame (set_strWalletFileName name)) ;;
  when (negb (is_plain_filename env name))
       (return_bool (InitError ("Wallet " +:+ name +:+ " resides outside data directory "
                                +:+ strDataDir env +:+ "."))).

(** The instance guard on the data directory. *)
Definition LockDataDirectory : Init unit :=
  emit EvTouchLockFile ;;
  when (negb (lock_try_lock env))
       (code ← InitError_code ("Cannot obtain a lock on data directory " +:+ strDataDir env
                               +:+ ". Swipp is probably already running.") EEXIST;
        exit code).

Definition ShrinkDebug : Init unit :=
  st ← get;
  fShrink ← get_bool_arg "-shrinkdebugfile" (negb (fDebug (flags st)));
  when fShrink (emit EvShrinkDebugFile).

Definition ControlKeys : Init unit :=
  (fKey ← count_arg "-masternodepaymentskey";
   when fKey
        (k ← get_arg "-masternodepaymentskey" "";
         when (negb (masternodePayments_SetPrivKey env k))
              (return_bool (InitError "Unable to sign masternode payment winner, wrong key?")))) ;;
  (fKey ← count_arg "-sporkkey";
   when fKey
        (k ← get_arg "-sporkkey" "";
         when (negb (sporkManager_SetPrivKey env k))
              (return_bool (InitError "Unable to sign spork message, wrong key?")))).

(** Opening and verifying the wallet database environment. *)
Definition VerifyWalletDatabase : Init unit :=
  st ← get;
  when (negb (fDisableWallet (frame st)))
       (emit (EvOpenDatabaseEnv (bitdb_Open_first env)) ;;
        when (negb (bitdb_Open_first env))
             (emit EvRenameDatabaseDir ;;
              emit (EvOpenDatabaseEnv (bitdb_Open_retry env)) ;;
              when (negb (bitdb_Open_retry env))
                   (return_bool (InitError ("Error initializing wallet database environment "
                                            +:+ strDataDir env +:+ "!")))) ;;
        (fSalvage ← get_bool_arg "-salvagewallet" false;
         when fSalvage
              (emit (EvRecoverWallet (CWalletDB_Recover env)) ;;
               when (negb (CWalletDB_Recover env)) (exit 0))) ;;
        when (wallet_file_exists env)
             (let r := bitdb_Verify env in
              emit (EvVerifyWallet r) ;;
              when (bool_decide (r = RECOVER_OK))
                   (InitWarning ("Warning: wallet.dat corrupt, data salvaged!"
                      +:+ " Original wallet.dat saved as wallet.{timestamp}.bak in "
                      +:+ strDataDir env +:+ "; if"
                      +:+ " your balance or transactions are incorrect you should"
                      +:+ " restore from a backup.") ;;
                    ret tt) ;;
              when (bool_decide (r = RECOVER_FAIL))
                   (return_bool (InitError "wallet.dat corrupt, salvage failed")))).

Fixpoint onlynet_collect (l : list string) (nets : gset Network) : Init (gset Network) :=
  match l with
  | [] => ret nets
  | snet :: l' =>
      let n := ParseNetwork env snet in
      when (bool_decide (n = NET_TOR)) (modify (in_net (set_fOnlyTor true))) ;;
      when (bool_decide (n = NET_UNROUTABLE))
           (return_bool (InitError ("Unknown network specified in -onlynet: '" +:+ snet +:+ "'"))) ;;
      onlynet_collect l' ({[ n ]} ∪ nets)
  end.

Definition OnlyNet : Init unit :=
  emit EvRegisterNodeSignals ;;
  fOnly ← count_arg "-onlynet";
  when fOnly
       (l ← index_multi "-onlynet";
        nets ← onlynet_collect l ∅;
        foreach all_networks
                (λ n, when (negb (bool_decide (n ∈ nets))) (SetLimited n))).

Definition ProxySetup : Init unit :=
  modify (in_frame (set_addrProxy ServiceDefault)) ;;
  modify (in_frame (set_fProxy false)) ;;
  fProxyArg ← count_arg "-proxy";
  when fProxyArg
       (v ← index_arg "-proxy";
        let addr := ServiceOfString v 9050 false in
        modify (in_frame (set_addrProxy addr)) ;;
        when (negb (IsValid env addr))
             (v' ← index_arg "-proxy";
              return_bool (InitError ("Invalid -proxy address: '" +:+ v' +:+ "'"))) ;;
        (lim ← IsLimited NET_IPV4; when (negb lim) (SetProxy NET_IPV4 addr)) ;;
        (lim ← IsLimited NET_IPV6; when (negb lim) (SetProxy NET_IPV6 addr)) ;;
        SetNameProxy addr ;;
        modify (in_frame (set_fProxy true))).

Definition TorSetup : Init unit :=
  fTor ← count_arg "-tor";
  fTorOff ← (if fTor then v ← index_arg "-tor"; ret (String.eqb v "0") else ret false);
  st ← get;
  fTor' ← (if fProxy (frame st) then ret true else count_arg "-tor");
  when (negb fTorOff && fTor')
       (fTor2 ← count_arg "-tor";
        addrOnion ← (if negb fTor2 then ret (addrProxy (frame st))
                     else v ← index_arg "-tor"; ret (ServiceOfString v 9050 false));
        when (negb (IsValid env addrOnion))
             (v' ← index_arg "-tor";
              return_bool (InitError ("Invalid -tor address: '" +:+ v' +:+ "'"))) ;;
        SetProxy NET_TOR addrOnion ;;
        emit (EvSetReachable NET_TOR)).

(** [fBound |= b] *)
Definition or_fBound (b : bool) : Init unit :=
  modify (in_frame (λ f, set_fBound (fBound f || b) f)).

Definition ListenFlags : Init unit :=
  (v ← get_bool_arg "-listen" true; modify (in_net (set_fNoListen (negb v)))) ;;
  (v ← get_bool_arg "-discover" true; modify (in_net (set_fDiscover v))) ;;
  (v ← get_bool_arg "-dns" true; modify (in_net (set_fNameLookup v))) ;;
  modify (in_frame (set_fBound false)).

Definition ListenSockets : Init unit :=
  st ← get;
  when (negb (fNoListen (net st)))
       (fBindArg ← count_arg "-bind";
        (if fBindArg
         then
           l ← index_multi "-bind";
           foreach l
             (λ strBind,
                match NetLookup env strBind (GetListenPort env) with
                | None =>
                    return_bool (InitError ("Cannot resolve -bind address: '" +:+ strBind +:+ "'"))
                | Some addrBind => b ← Bind addrBind true; or_fBound b
                end)
         else
           (lim ← IsLimited NET_IPV6;
            when (negb lim) (b ← Bind (ServiceAny6 (GetListenPort env)) false; or_fBound b)) ;;
           (lim ← IsLimited NET_IPV4;
            when (negb lim)
                 (st' ← get;
                  b ← Bind (ServiceAny4 (GetListenPort env)) (negb (fBound (frame st')));
                  or_fBound b))) ;;
        st' ← get;
        when (negb (fBound (frame st')))
             (return_bool (InitError "Failed to listen on any port. Use -listen=0 if you want this."))).

Definition ListenSetup : Init unit :=
  ListenFlags ;;
  ListenSockets.

Definition ExternalIP : Init unit :=
  fExternal ← count_arg "-externalip";
  when fExternal
       (l ← index_multi "-externalip";
        foreach l
          (λ strAddr,
             st ← get;
             let addrLocal :=
               ServiceOfString strAddr (GetListenPort env) (fNameLookup (net st)) in
             when (negb (IsValid env addrLocal))
                  (return_bool (InitError ("Cannot resolve -externalip address: '"
                                           +:+ strAddr +:+ "'"))) ;;
             emit (EvAddLocal addrLocal))).

Definition ReserveBalance : Init unit :=
  fReserve ← count_arg "-reservebalance";
  when fReserve
       (v ← index_arg "-reservebalance";
        match ParseMoney env v with
        | None => InitError "Invalid amount for -reservebalance=<amount>" ;; exit 0
        | Some n => modify (in_wallet (set_nReserveBalance n))
        end).

Definition SeedNodes : Init unit :=
  l ← index_multi "-seednode";
  foreach l (λ strDest, emit (EvAddOneShot strDest)).

(** Loading the block index, and the diagnostic modes that stop there. *)
Definition ChainIndex : Init unit :=
  (fTest ← get_bool_arg "-loadblockindextest" false;
   when fTest (emit EvTxdbLoadBlockIndex ;; emit EvPrintBlockTree ;; exit 0)) ;;
  emit (EvLoadBlockIndex (LoadBlockIndex env)) ;;
  when (negb (LoadBlockIndex env))
       (return_bool (InitError "Error loading block database")) ;;
  when (sigterm_before_index_check env) HandleSIGTERM ;;
  (fStop ← ShutdownRequested; when fStop (exit 0)) ;;
  (fIndex ← get_bool_arg "-printblockindex" false;
   fTree ← (if fIndex then ret true else get_bool_arg "-printblocktree" false);
   when fTree (emit EvPrintBlockTree ;; exit 0)) ;;
  (fPrint ← count_arg "-printblock";
   when fPrint (strMatch ← index_arg "-printblock";
                emit (EvPrintBlock strMatch) ;; exit 0)).

(** [nLoadWalletRet != DB_LOAD_OK] and its cases. *)
Definition LoadWalletErrors (nLoadWalletRet : DBErrors) : Init unit :=
  match nLoadWalletRet with
  | DB_LOAD_OK => ret tt
  | DB_CORRUPT => add_error "Error loading wallet.dat: Wallet corrupted"
  | DB_NONCRITICAL_ERROR =>
      InitWarning ("Warning: error reading wallet.dat! All keys read correctly, but transaction data"
                   +:+ " or address book entries might be missing or incorrect.") ;;
      ret tt
  | DB_TOO_NEW => add_error "Error loading wallet.dat: Wallet requires newer version of Swipp"
  | DB_NEED_REWRITE =>
      add_error "Wallet needed to be rewritten: restart Swipp to complete" ;;
      st ← get;
      return_bool (InitError (strErrors (frame st)))
  | DB_LOAD_FAIL => add_error "Error loading wallet.dat"
  end.

Definition UpgradeWallet (fFirstRun : bool) : Init unit :=
  fUpgrade ← get_bool_arg "-upgradewallet" fFirstRun;
  when fUpgrade
       (v ← get_arg_int "-upgradewallet" 0;
        let nMaxVersion := to_int v in
        nMaxVersion' ← (if nMaxVersion =? 0
                        then emit (EvSetMinVersion (FEATURE_LATEST env)) ;;
                             ret (CLIENT_VERSION env)
                        else ret nMaxVersion);
        when (nMaxVersion' <? wallet_GetVersion env) (add_error "Cannot downgrade wallet") ;;
        emit (EvSetMaxVersion nMaxVersion')).

Definition FirstRun : Init unit :=
  emit EvRandAddSeedPerfmon ;;
  emit (EvGetKeyFromPool (GetKeyFromPool env)) ;;
  when (GetKeyFromPool env)
       (emit EvSetDefaultKey ;;
        emit (EvSetAddressBookName (SetAddressBookName env)) ;;
        when (negb (SetAddressBookName env)) (add_error "Cannot write default address")) ;;
  emit (EvSetBestChain (pindexBest env)).

(** Where the wallet rescan starts.  [ReadBestBlock env] is [Some p] when the
    wallet database holds a best-block locator, [p] being the block index
    entry that locator resolves to. *)
Definition RescanStart : Init (option CBlockIndex) :=
  fRescan ← get_bool_arg "-rescan" false;
  if fRescan then ret (pindexGenesisBlock env)
  else match ReadBestBlock env with
       | Some p => ret p
       | None => ret (pindexGenesisBlock env)
       end.

(** The condition guarding the rescan. *)
Definition rescan_needed (pBest pRescan : option CBlockIndex) : bool :=
  negb (same_pointer pBest pRescan) &&
  match pBest, pRescan with
  | Some b, Some r => nHeight r <? nHeight b
  | _, _ => false
  end.

Definition Rescan : Init unit :=
  pindexRescan ← RescanStart;
  when (rescan_needed (pindexBest env) pindexRescan)
       (emit (EvScanForWalletTransactions pindexRescan) ;;
        emit (EvSetBestChain (pindexBest env)) ;;
        modify (in_wallet (λ w, set_nWalletDBUpdated (nWalletDBUpdated w + 1) w))).

Definition LoadWalletStep : Init unit :=
  st ← get;
  if fDisableWallet (frame st)
  then modify (in_wallet (set_pwalletMain false))
  else
    modify (in_wallet (set_pwalletMain true)) ;;
    emit (EvLoadWallet (LoadWallet env).1) ;;
    LoadWalletErrors (LoadWallet env).1 ;;
    UpgradeWallet (LoadWallet env).2 ;;
    when (LoadWallet env).2 FirstRun ;;
    emit EvRegisterWallet ;;
    Rescan.

Definition ImportAndAddresses : Init unit :=
  (fLoad ← count_arg "-loadblock";
   arguments ← (if fLoad then index_multi "-loadblock" else ret []);
   emit (EvCreateThread (ThreadImport arguments))) ;;
  emit (EvReadAddresses (addrman_Read env)) ;;
  (st ← get;
   fScan ← get_bool_arg "-smsgscanchain" false;
   emit (EvSecureMsgStart (fNoSmsg (flags st)) fScan)) ;;
  when (negb (CheckDiskSpace env)) (StartShutdown ;; exit 0) ;;
  st ← get;
  when (negb (String.eqb (strErrors (frame st)) ""))
       (return_bool (InitError (strErrors (frame st)))).

Definition MasternodeSetup : Init unit :=
  (v ← get_bool_arg "-masternode" false; modify (in_darksend (set_fMasterNode v))) ;;
  st ← get;
  when (fMasterNode (darksend st))
       ((addr ← get_arg "-masternodeaddr" "";
         modify (in_darksend (set_strMasterNodeAddr addr)) ;;
         when (negb (String.eqb addr ""))
              (when (negb (IsValid env (ServiceOfString addr 0 false)))
                    (return_bool (InitError ("Invalid -masternodeaddr address: " +:+ addr))))) ;;
        key ← get_arg "-masternodeprivkey" "";
        modify (in_darksend (set_strMasterNodePrivKey key)) ;;
        if negb (String.eqb key "")
        then
          when (negb (darkSendSigner_SetKey env key))
               (return_bool (InitError "Invalid masternodeprivkey. Please see documenation.")) ;;
          emit EvSetPubKeyMasternode
        else
          return_bool (InitError ("You must specify a masternodeprivkey in the configuration. "
                                  +:+ "Please see documentation for help."))).

Definition DarksendRounds : Init unit :=
  (v ← get_bool_arg "-enabledarksend" false; modify (in_darksend (set_fEnableDarksend v))) ;;
  (v ← get_arg_int "-darksendrounds" 2; modify (in_darksend (set_nDarksendRounds (to_int v)))) ;;
  (st ← get;
   when (16 <? nDarksendRounds (darksend st)) (modify (in_darksend (set_nDarksendRounds 16)))) ;;
  (st ← get;
   when (nDarksendRounds (darksend st) <? 1) (modify (in_darksend (set_nDarksendRounds 1)))).

(** [std::min(nLiquidityProvider,100)*15] is a product of ints: where it
    leaves the range of int the language leaves the result open, and it is
    taken as the two's-complement wrap the conversion to int gives. *)
Definition LiquidityProvider : Init unit :=
  (v ← get_arg_int "-liquidityprovider" 0;
   modify (in_darksend (set_nLiquidityProvider (to_int v)))) ;;
  st ← get;
  when (negb (nLiquidityProvider (darksend st) =? 0))
       (emit (EvSetMinBlockSpacing
                (to_int (Z.min (nLiquidityProvider (darksend st)) 100 * 15))) ;;
        modify (in_darksend (set_fEnableDarksend true)) ;;
        modify (in_darksend (set_nDarksendRounds 99999))).

Definition AnonymizeAmount : Init unit :=
  (v ← get_arg_int "-anonymizeSwippamount" 0;
   modify (in_darksend (set_nAnonymizeSwippAmount (to_int v)))) ;;
  (st ← get;
   when (999999 <? nAnonymizeSwippAmount (darksend st))
        (modify (in_darksend (set_nAnonymizeSwippAmount 999999)))) ;;
  (st ← get;
   when (nAnonymizeSwippAmount (darksend st) <? 2)
        (modify (in_darksend (set_nAnonymizeSwippAmount 2)))).

Definition InstantX : Init unit :=
  fEnableInstantX ← get_bool_arg "-enableinstantx" true;
  if fEnableInstantX
  then
    (v ← get_arg_int "-instantxdepth" 5;
     modify (in_darksend (set_nInstantXDepth (to_int v)))) ;;
    (st ← get;
     when (60 <? nInstantXDepth (darksend st)) (modify (in_darksend (set_nInstantXDepth 60)))) ;;
    (st ← get;
     when (nInstantXDepth (darksend st) <? 0)
          (modify (in_darksend (set_nAnonymizeSwippAmount 0))))
  else modify (in_darksend (set_nInstantXDepth 0)).

(** Lite mode against masternode mode. *)
Definition LiteModeCheck : Init unit :=
  (v ← get_bool_arg "-litemode" false; modify (in_darksend (set_fLiteMode v))) ;;
  st ← get;
  when (fMasterNode (darksend st) && fLiteMode (darksend st))
       (return_bool (InitError "You can not start a masternode in litemode")).

(** The loop over [pblockAddrIndex]: the address index of a block is
    rebuilt when the block could be read from disk. *)
Fixpoint RebuildAddressIndex (pblockAddrIndex : CBlockIndex) : Init unit :=
  match pblockAddrIndex with
  | BlockIndex hash height prev =>
      when (ReadFromDisk env (BlockIndex hash height prev))
           (emit (EvRebuildAddressIndex height)) ;;
      match prev with
      | Some p => RebuildAddressIndex p
      | None => ret tt
      end
  end.

Definition DarksendPool : Init unit :=
  emit EvPushDenominations ;;
  emit EvInitCollateralAddress ;;
  emit (EvCreateThread ThreadCheckDarkSendPool) ;;
  emit EvRandAddSeedPerfmon ;;
  fReindex ← get_bool_arg "-reindexaddr" false;
  when fReindex
       match pindexBest env with
       | Some b => RebuildAddressIndex b
       | None => ret tt
       end.

Definition StartServices : Init Z :=
  emit EvStartNode ;;
  emit EvInitRPCMining ;;
  emit EvStartRPCThreads ;;
  (fStaking ← get_bool_arg "-staking" true;
   st ← get;
   when (fStaking && pwalletMain (wallet st)) (emit (EvCreateThread ThreadStakeMiner))) ;;
  (st ← get;
   when (pwalletMain (wallet st))
        (emit EvReacceptWalletTransactions ;;
         emit (EvCreateThread ThreadFlushWalletDB))) ;;
  when (sigterm_before_return env) HandleSIGTERM ;;
  fStop ← ShutdownRequested;
  ret (Z.b2z (negb fStop)).

(** Option checks, the instance guard and the wallet database. *)
Definition ChecksAndStorage : Init unit :=
  DebugOptions ;;
  ConnectTimeout ;;
  PayTxFee ;;
  MinInput ;;
  SanityCheck ;;
  WalletFileName ;;
  LockDataDirectory ;;
  ShrinkDebug ;;
  ControlKeys ;;
  VerifyWalletDatabase.

(** Everything [AppInit2] does before the network is set up. *)
Definition BeforeNetwork : Init unit :=
  InitializeCollections ;;
  SelectParams ;;
  ParameterInteraction ;;
  ChecksAndStorage.

(** Proxies, listen sockets and declared addresses. *)
Definition NetworkSetup : Init unit :=
  OnlyNet ;;
  ProxySetup ;;
  TorSetup ;;
  ListenSetup ;;
  ExternalIP.

(** From the reserve balance to the masternode identity. *)
Definition ChainAndWallet : Init unit :=
  ReserveBalance ;;
  SeedNodes ;;
  ChainIndex ;;
  LoadWalletStep ;;
  ImportAndAddresses ;;
  MasternodeSetup.

(** The Darksend and InstantX settings. *)
Definition MixingOptions : Init unit :=
  DarksendRounds ;;
  LiquidityProvider ;;
  AnonymizeAmount ;;
  InstantX.

(** [AppInit2] up to, and without, the test of lite mode against
    masternode mode. *)
Definition ToModeCheck : Init unit :=
  BeforeNetwork ;;
  NetworkSetup ;;
  ChainAndWallet ;;
  MixingOptions.

Definition AppInit2_body : Init Z :=
  ToModeCheck ;;
  LiteModeCheck ;;
  DarksendPool ;;
  StartServices.

(** The value [AppInit2] returns, and the state it leaves. *)
Definition AppInit2 (st : Node) : Z * Node :=
  match AppInit2_body st with
  | (Continue code, st') => (code, st')
  | (Exit code, st') => (code, st')
  end.

End Startup.

(** ** Shutdown *)

Section Teardown.
Context (env : Env).

Definition record (e : Event) (st : Node) : Node :=
  set_trace (trace st ++ [e]) st.

(** [if (pwalletMain) ...] *)
Definition if_wallet (f : Node → Node) (st : Node) : Node :=
  if pwalletMain (wallet st) then f st else st.

(** The statements of [Shutdown] after the lock test, one entry each
    (the renaming of the thread left out; [delete pwalletMain] and the
    assignment of NULL taken together, deleting a null pointer doing
    nothing). *)
Definition teardown : list (Node → Node) :=
  [ record EvAddTransactionsUpdated;
    record EvStopRPCThreads;
    record EvSecureMsgShutdown;
    record EvShutdownRPCMining;
    if_wallet (record (EvFlush false));
    record EvStopNode;
    if_wallet (record (EvSetBestChain (pindexBest env)));
    if_wallet (record (EvFlush true));
    record EvRemovePidFile;
    record EvUnregisterAllWallets;
    λ st, in_wallet (set_pwalletMain false) (if_wallet (record EvDeleteWallet) st) ].

Definition run (steps : list (Node → Node)) (st : Node) : Node :=
  foldl (λ s f, f s) st steps.

(** [Shutdown] called by thread [tid].  [TRY_LOCK] declares a lock object
    local to the function: the lock, when taken, is held until the
    function returns.  [cs_Shutdown] is static, so every call meets the
    same lock; no statement of the body calls [Shutdown] again, so the
    caller never holds it already. *)
Definition Shutdown (tid : nat) (st : Node) : Node :=
  match cs_Shutdown st with
  | Some _ => st
  | None => set_cs_Shutdown None (run teardown (set_cs_Shutdown (Some tid) st))
  end.

(** *** Several threads calling [Shutdown] *)

Inductive Position :=
| Outside                (* not in Shutdown *)
| AtTryLock              (* called, lock not yet tested *)
| InBody (n : nat).      (* lock held, [n] statements done *)

(** One atomic step of thread [tid]. *)
Definition thread_step (tid : nat) (pc : Position) (st : Node) : Position * Node :=
  match pc with
  | Outside => (AtTryLock, st)
  | AtTryLock =>
      match cs_Shutdown st with
      | Some _ => (Outside, st)
      | None => (InBody 0, set_cs_Shutdown (Some tid) st)
      end
  | InBody n =>
      match teardown !! n with
      | Some f => (InBody (S n), f st)
      | None => (Outside, set_cs_Shutdown None st)
      end
  end.

Definition Threads : Type := gmap nat Position * Node.

Inductive step : Threads → Threads → Prop :=
| step_thread (pcs : gmap nat Position) (st : Node) (tid : nat) (pc : Position) :
    pcs !! tid = Some pc →
    step (pcs, st) (<[tid := (thread_step tid pc st).1]> pcs, (thread_step tid pc st).2).

Definition steps : Threads → Threads → Prop := rtc step.

(** Every thread outside [Shutdown], the lock free. *)
Definition quiescent (c : Threads) : Prop :=
  cs_Shutdown c.2 = None ∧ ∀ tid pc, c.1 !! tid = Some pc → pc = Outside.

End Teardown.

(** Classification of teardown events. *)
Definition is_stop_rpc (e : Event) : bool :=
  match e with EvStopRPCThreads => true | _ => false end.
Definition is_set_best_chain (e : Event) : bool :=
  match e with EvSetBestChain _ => true | _ => false end.
Definition is_flush (e : Event) : bool :=
  match e with EvFlush _ => true | _ => false end.
Definition is_stop_node (e : Event) : bool :=
  match e with EvStopNode => true | _ => false end.
Definition is_remove_file (e : Event) : bool :=
  match e with EvRemovePidFile => true | _ => false end.
Definition is_release (e : Event) : bool :=
  match e with EvUnregisterAllWallets | EvDeleteWallet => true | _ => false end.
Definition is_bind (e : Event) : bool :=
  match e with EvBindListenPort _ _ => true | _ => false end.
Definition is_init_error (e : Event) : bool :=
  match e with EvInitError _ => true | _ => false end.

(** [tr] has events satisfying the tests of [ps], in that order. *)
Fixpoint in_order (ps : list (Event → bool)) (tr : list Event) : Prop :=
  match ps with
  | [] => True
  | p :: ps' => ∃ pre e post, tr = (pre ++ e :: post)%list ∧ p e = true ∧ in_order ps' post
  end.

(** Decides [in_order]. *)
Fixpoint in_orderb (ps : list (Event → bool)) (tr : list Event) : bool :=
  match ps with
  | [] => true
  | p :: ps' =>
      (fix find (l : list Event) : bool :=
         match l with
         | [] => false
         | e :: l' => (p e && in_orderb ps' l') || find l'
         end) tr
  end.

(** The teardown events with a wallet, and without one. *)
Definition teardown_events_wallet (env : Env) : list Event :=
  [EvAddTransactionsUpdated; EvStopRPCThreads; EvSecureMsgShutdown; EvShutdownRPCMining;
   EvFlush false; EvStopNode; EvSetBestChain (pindexBest env); EvFlush true;
   EvRemovePidFile; EvUnregisterAllWallets; EvDeleteWallet].

Definition teardown_events_no_wallet : list Event :=
  [EvAddTransactionsUpdated; EvStopRPCThreads; EvSecureMsgShutdown; EvShutdownRPCMining;
   EvStopNode; EvRemovePidFile; EvUnregisterAllWallets].

(** No two threads are past the lock test at once. *)
Definition exclusive (c : gmap nat Position * Node) : Prop :=
  ∀ t n, c.1 !! t = Some (InBody n) → cs_Shutdown c.2 = Some t.

(** ** A concrete run, for the examples *)

Fixpoint digits (s : string) (acc : Z) : Z :=
  match s with
  | String c r =>
      let n := Z.of_nat (Ascii.nat_of_ascii c) in
      if (48 <=? n) && (n <=? 57) then digits r (10 * acc + (n - 48)) else acc
  | EmptyString => acc
  end.

(** Decimal reading of a string: optional minus sign, then digits. *)
Definition decimal (s : string) : Z :=
  match s with
  | String c r => if (Ascii.nat_of_ascii c =? 45)%nat then - digits r 0 else digits s 0
  | EmptyString => 0
  end.

Definition genesis : CBlockIndex := BlockIndex 1 0 None.
Definition tip : CBlockIndex := BlockIndex 2 1 (Some genesis).

(** An environment in which every collaborator succeeds. *)
Definition env_ok : Env := {|
  atoi64 := decimal; atoi := decimal;
  SelectParamsFromCommandLine := true; TestNet := false; GetListenPort := 24055;
  CLIENT_VERSION := 1000000; FEATURE_LATEST := 60000;
  ECC_InitSanityCheck := true; ParseMoney := λ s, Some (decimal s);
  fee_is_very_high := λ _, false; is_plain_filename := λ _, true; strDataDir := "/data";
  lock_try_lock := true; bitdb_Open_first := true; bitdb_Open_retry := true;
  CWalletDB_Recover := true; wallet_file_exists := true; bitdb_Verify := VERIFY_OK;
  masternodePayments_SetPrivKey := λ _, true; sporkManager_SetPrivKey := λ _, true;
  ParseNetwork := λ _, NET_IPV4; IsValid := λ _, true; GetNetwork := λ _, NET_UNROUTABLE;
  NetLookup := λ s p, Some (ServiceResolved s p); BindListenPort := λ _, None;
  LoadBlockIndex := true; sigterm_before_index_check := false; sigterm_before_return := false;
  pindexBest := Some tip; pindexGenesisBlock := Some genesis;
  ReadFromDisk := λ _, true;
  LoadWallet := (DB_LOAD_OK, false); wallet_GetVersion := 60000;
  GetKeyFromPool := true; SetAddressBookName := true;
  ReadBestBlock := Some (Some genesis); addrman_Read := true; CheckDiskSpace := true;
  darkSendSigner_SetKey := λ _, true;
  COutPoint_null := MkOutPoint 0 UINT_MAX |}.

(** A freshly started process with the given options: nothing bound,
    limited or loaded, the connection timeout at the default the help text
    gives. *)
Definition node0 (args : list (string * string)) : Node := {|
  mapArgs := list_to_map args;
  mapMultiArgs := list_to_map (prod_map id (λ v, [v]) <$> args);
  setStakeSeen := dhs_new; setStakeSeenOrphan := dhs_new;
  flags := MkFlags false false false;
  net := MkNet 5000 false ∅ ∅ None false true true;
  wallet := MkWallet false 0 0 0 0;
  darksend := MkDarksend false "" "" false 0 0 0 0 false;
  frame := MkFrame false "" "" ServiceDefault false false;
  cs_Shutdown := None; trace := [] |}.

(** The node after a successful start with no options: wallet loaded. *)
Definition node_running : Node := (AppInit2 env_ok (node0 [])).2.

(** Masternode mode together with lite mode, a masternode key supplied. *)
Definition node_masternode_lite : Node :=
  node0 [("-masternode", "1"); ("-litemode", "1"); ("-masternodeprivkey", "k")].

(** A timeout, a round count and an anonymization amount out of range. *)
Definition node_out_of_range : Node :=
  node0 [("-timeout", "0"); ("-darksendrounds", "1000"); ("-anonymizeSwippamount", "-5")].

(** InstantX with a negative depth. *)
Definition node_negative_depth : Node :=
  node0 [("-instantxdepth", "-3"); ("-anonymizeSwippamount", "500")].

(** A liquidity provider who also switched Darksend off. *)
Definition node_liquidity : Node :=
  node0 [("-liquidityprovider", "5"); ("-enabledarksend", "0"); ("-darksendrounds", "4")].

(** Only an outbound proxy. *)
Definition node_proxy_only : Node := node0 [("-proxy", "127.0.0.1:9050")].

(** ** Relations between the state before and after a computation *)

(** [m] relates every start state to the state it ends in, whether it
    continues or returns early. *)
Definition respects {A : Type} (R : relation Node) (m : Init A) : Prop :=
  ∀ st r st', m st = (r, st') → R st st'.

(** No option loses or changes its value. *)
Definition args_grow : relation Node :=
  λ st st', mapArgs st ⊆ mapArgs st'.

(** The trace is extended by events that satisfy [P]. *)
Definition emits (P : Event → Prop) : relation Node :=
  λ st st', ∃ evs, trace st' = (trace st ++ evs)%list ∧ Forall P evs.

(** The part of the state read by [proj] is left alone. *)
Definition keeps {T : Type} (proj : Node → T) : relation Node :=
  λ st st', proj st' = proj st.

(** A listen socket was bound whenever [fBound] has become true. *)
Definition bound_witnessed : relation Node :=
  λ st st', ∃ evs, trace st' = (trace st ++ evs)%list ∧
    (fBound (frame st') = true →
     fBound (frame st) = true ∨ ∃ addr, EvBindListenPort addr true ∈ evs).

(** A wallet scan is only ever started from [p] when the rescan condition
    holds of the best block and [p]. *)
Definition scan_justified (env : Env) (e : Event) : Prop :=
  match e with
  | EvScanForWalletTransactions p => rescan_needed (pindexBest env) p = true
  | _ => True
  end.

(** Options written by a soft-set or created by a subscript. *)
Definition touched_options : list string :=
  ["-irc"; "-listen"; "-dnsseed"; "-discover"; "-upnp"; "-rescan";
   "-paytxfee"; "-mininput"; "-proxy"; "-tor"; "-reservebalance"; "-printblock"].

(** ** Further relations and predicates *)

(** Every early return of [m] gives a code that satisfies [C]. *)
Definition exits_in {A : Type} (C : Z → Prop) (m : Init A) : Prop :=
  ∀ st c st', m st = (Exit c, st') → C c.

(** [R] holds from states that satisfy [I], which is then kept. *)
Definition under (I : Node → Prop) (R : relation Node) : relation Node :=
  λ st st', I st → I st' ∧ R st st'.

Definition is_init_warning (e : Event) : bool :=
  match e with EvInitWarning _ => true | _ => false end.

(** An error or warning message. *)
Definition is_message (e : Event) : Prop :=
  is_init_error e || is_init_warning e = true.


(** Started where [Pre] holds, [m] relates the states by [R] and, when it
    runs to its end, establishes [Post]. *)
Definition triple {A : Type} (Pre : Node → Prop) (R : relation Node)
    (Post : Node → Prop) (m : Init A) : Prop :=
  ∀ st r st', Pre st → m st = (r, st') →
    R st st' ∧ match r with Continue _ => Post st' | Exit _ => True end.

(** What the last statements of [AppInit2] start. *)
Definition is_service_start (e : Event) : bool :=
  match e with
  | EvStartNode | EvInitRPCMining | EvStartRPCThreads | EvReacceptWalletTransactions
  | EvCreateThread ThreadStakeMiner | EvCreateThread ThreadFlushWalletDB => true
  | _ => false
  end.

(** The connection timeout is left alone or set within its range. *)
Definition timeout_in_range : relation Node :=
  λ st st', nConnectTimeout (net st') = nConnectTimeout (net st) ∨
            0 < nConnectTimeout (net st') < 600000.

(** The environment of the examples, but for the answers of the directory
    lock, of BindListenPort, of LoadWallet, of ParseMoney and of
    ReadFromDisk, and for whether a SIGTERM arrives while the block index
    is loaded. *)
Definition env_of (lock : bool) (bound : CService → option string)
    (load : DBErrors * bool) (sigterm : bool) (money : string → option Z)
    (readable : CBlockIndex → bool) : Env := {|
  atoi64 := decimal; atoi := decimal;
  SelectParamsFromCommandLine := true; TestNet := false; GetListenPort := 24055;
  CLIENT_VERSION := 1000000; FEATURE_LATEST := 60000;
  ECC_InitSanityCheck := true; ParseMoney := money;
  fee_is_very_high := λ _, false; is_plain_filename := λ _, true; strDataDir := "/data";
  lock_try_lock := lock; bitdb_Open_first := true; bitdb_Open_retry := true;
  CWalletDB_Recover := true; wallet_file_exists := true; bitdb_Verify := VERIFY_OK;
  masternodePayments_SetPrivKey := λ _, true; sporkManager_SetPrivKey := λ _, true;
  ParseNetwork := λ _, NET_IPV4; IsValid := λ _, true; GetNetwork := λ _, NET_UNROUTABLE;
  NetLookup := λ s p, Some (ServiceResolved s p); BindListenPort := bound;
  LoadBlockIndex := true; sigterm_before_index_check := sigterm;
  sigterm_before_return := false;
  pindexBest := Some tip; pindexGenesisBlock := Some genesis;
  ReadFromDisk := readable;
  LoadWallet := load; wallet_GetVersion := 60000;
  GetKeyFromPool := true; SetAddressBookName := true;
  ReadBestBlock := Some (Some genesis); addrman_Read := true; CheckDiskSpace := true;
  darkSendSigner_SetKey := λ _, true;
  COutPoint_null := MkOutPoint 0 UINT_MAX |}.

(** The same, amounts parsing and blocks read as in the examples. *)
Definition env_with (lock : bool) (bound : CService → option string)
    (load : DBErrors * bool) (sigterm : bool) : Env :=
  env_of lock bound load sigterm (λ s, Some (decimal s)) (λ _, true).

(** What [AppInit2] does once the block index is loaded and checked. *)
Definition is_after_index (e : Event) : bool :=
  match e with
  | EvLoadWallet _ | EvRegisterWallet | EvScanForWalletTransactions _ | EvCreateThread _
  | EvReadAddresses _ | EvSecureMsgStart _ _
  | EvStartNode | EvInitRPCMining | EvStartRPCThreads => true
  | _ => false
  end.

(** An error text, once collected, stays collected. *)
Definition errors_stay : relation Node :=
  λ st st', strErrors (frame st) ≠ "" → strErrors (frame st') ≠ "".

(** A successful bind is reported only when BindListenPort succeeded. *)
Definition bind_reported (env : Env) (e : Event) : Prop :=
  ∀ addr, e = EvBindListenPort addr true → BindListenPort env addr = None.

(** A wallet scan, if any, starts at the genesis block. *)
Definition scans_from_genesis (env : Env) (e : Event) : Prop :=
  ∀ p, e = EvScanForWalletTransactions p → p = pindexGenesisBlock env.

(** What is done to, or for, the wallet. *)
Definition is_wallet_event (e : Event) : bool :=
  match e with
  | EvOpenDatabaseEnv _ | EvRenameDatabaseDir | EvRecoverWallet _ | EvVerifyWallet _
  | EvLoadWallet _ | EvSetMinVersion _ | EvSetMaxVersion _
  | EvGetKeyFromPool _ | EvSetDefaultKey | EvSetAddressBookName _
  | EvSetBestChain _ | EvRegisterWallet | EvScanForWalletTransactions _
  | EvReacceptWalletTransactions | EvFlush _ | EvDeleteWallet
  | EvCreateThread ThreadStakeMiner | EvCreateThread ThreadFlushWalletDB => true
  | _ => false
  end.

(** With no shutdown under way and no wallet, there is none afterwards
    either, and nothing was done to or for one. *)
Definition quiet_wallet : relation Node :=
  under (λ st, cs_Shutdown st = None ∧ pwalletMain (wallet st) = false)
        (emits (λ e, is_wallet_event e = false)).

(** The local [fDisableWallet] is set. *)
Definition wallet_disabled (st : Node) : Prop := fDisableWallet (frame st) = true.

(** [mapArgs.count(k)] on an option map. *)
Definition has_arg (m : gmap string string) (k : string) : bool :=
  match m !! k with Some _ => true | None => false end.

(** The option map after [if (c) SoftSetArg(k, v)]. *)
Definition soft_set (c : bool) (k v : string) (m : gmap string string)
  : gmap string string :=
  if c then (SoftSetArg m k v).2 else m.

(** [GetBoolArg] on the value an option has, if any. *)
Definition bool_value (env : Env) (o : option string) (fDefault : bool) : bool :=
  match o with
  | Some v => if String.eqb v "" then true else negb (Z.eqb (atoi env v) 0)
  | None => fDefault
  end.

(** The thread holding the shutdown lock is inside the body of
    [Shutdown]. *)
Definition owner_in_body (c : gmap nat Position * Node) : Prop :=
  ∀ t, cs_Shutdown c.2 = Some t → ∃ n, c.1 !! t = Some (InBody n).





(** The index entries met from a block back along the [pprev] links. *)
Fixpoint chain_of (b : CBlockIndex) : list CBlockIndex :=
  match b with
  | BlockIndex hash height prev =>
      BlockIndex hash height prev :: match prev with
                                     | Some p => chain_of p
                                     | None => []
                                     end
  end.

(** ** collectionhashing: hash functions of the collection keys

    boost's [hash_range] and [hash_combine] are not among the sources; the
    hash functions are given them as they are given to the compiler: by
    name.  [hash_range160] and [hash_range256] stand for
    [boost::hash_range(v.begin(), v.end())] on a uint160 and on a uint256,
    [hash_combine seed v] for the seed after [boost::hash_combine(seed, v)]. *)
Section CollectionHashing.
Context (hash_range160 hash_range256 : Z → Z) (hash_combine : Z → Z → Z).

(** [hash<std::tuple<uint160, uint256>>] *)
Definition hash_tuple (v : Z * Z) : Z :=
  let dest := hash_range160 v.1 in
  hash_combine dest (hash_range256 v.2).

(** [hash<std::pair<COutPoint, unsigned int>>] *)
Definition hash_stake_key (v : StakeKey) : Z :=
  let dest := hash_range256 (op_hash v.1) in
  hash_combine dest v.2.

(** [hash<uint256>] *)
Definition hash_uint256 (v : Z) : Z := hash_range256 v.

End CollectionHashing.

(** * Proofs *)

(** ** The monad *)

Lemma bind_continue {A B} (m : Init A) (f : A → Init B) st a st1 :
  m st = (Continue a, st1) → bind m f st = f a st1.
Proof. unfold bind. intros ->. reflexivity. Qed.

Lemma bind_exit {A B} (m : Init A) (f : A → Init B) st c st1 :
  m st = (Exit c, st1) → bind m f st = (Exit c, st1).
Proof. unfold bind. intros ->. reflexivity. Qed.

Lemma bind_inv {A B} (m : Init A) (f : A → Init B) st r st' :
  bind m f st = (r, st') →
  (∃ c, m st = (Exit c, st') ∧ r = Exit c) ∨
  (∃ a st1, m st = (Continue a, st1) ∧ f a st1 = (r, st')).
Proof.
  unfold bind. destruct (m st) as [[a|c] st1]; intros H.
  - right. eauto.
  - left. inversion H; subst. eauto.
Qed.

Lemma bind_continue_inv {A B} (m : Init A) (f : A → Init B) st b st' :
  bind m f st = (Continue b, st') →
  ∃ a st1, m st = (Continue a, st1) ∧ f a st1 = (Continue b, st').
Proof.
  intros H. apply bind_inv in H as [(c & _ & Hc)|H]; [discriminate|exact H].
Qed.

Section Respects.
Context (R : relation Node) `{!PreOrder R}.

Lemma respects_ret {A} (a : A) : respects R (ret a).
Proof. intros st r st' [= <- <-]. reflexivity. Qed.

Lemma respects_exit {A} c : respects R (@exit A c).
Proof. intros st r st' [= <- <-]. reflexivity. Qed.

Lemma respects_get : respects R get.
Proof. intros st r st' [= <- <-]. reflexivity. Qed.

Lemma respects_bind {A B} (m : Init A) (f : A → Init B) :
  respects R m → (∀ a, respects R (f a)) → respects R (bind m f).
Proof.
  intros Hm Hf st r st' H.
  apply bind_inv in H as [(c & H & _)|(a & st1 & H1 & H2)].
  - eapply Hm, H.
  - etrans; [eapply Hm, H1 | eapply Hf, H2].
Qed.

Lemma respects_when b (m : Init unit) :
  (b = true → respects R m) → respects R (when b m).
Proof. destruct b; simpl; [auto | intros _; apply respects_ret]. Qed.

Lemma respects_modify f : (∀ st, R st (f st)) → respects R (modify f).
Proof. intros Hf st r st' [= <- <-]. apply Hf. Qed.

Lemma respects_return_bool {A} (m : Init bool) :
  respects R m → respects R (@return_bool A m).
Proof. intros Hm. apply respects_bind; [exact Hm | intros b; apply respects_exit]. Qed.

Lemma respects_foreach {A} (l : list A) (body : A → Init unit) :
  (∀ x, respects R (body x)) → respects R (foreach l body).
Proof.
  intros Hb. induction l as [|x l IH]; simpl.
  - apply respects_ret.
  - apply respects_bind; [apply Hb | intros _; exact IH].
Qed.

Lemma respects_onlynet_collect env l nets :
  respects R (modify (in_net (set_fOnlyTor true))) →
  (∀ msg, respects R (emit (EvInitError msg))) →
  respects R (onlynet_collect env l nets).
Proof.
  intros Htor Herr. revert nets. induction l as [|snet l IH]; intros nets; simpl.
  - apply respects_ret.
  - apply respects_bind; [apply respects_when; auto|intros _].
    apply respects_bind; [|intros _; apply IH].
    apply respects_when; intros _. apply respects_return_bool.
    unfold InitError. apply respects_bind; [apply Herr|intros _; apply respects_ret].
Qed.

Lemma respects_RebuildAddressIndex env b :
  (∀ h, respects R (emit (EvRebuildAddressIndex h))) →
  respects R (RebuildAddressIndex env b).
Proof.
  intros Hemit. revert b. fix IH 1. intros [hash height prev]; simpl.
  apply respects_bind; [apply respects_when; intros _; apply Hemit|intros _].
  destruct prev as [p|]; [apply IH|apply respects_ret].
Qed.

End Respects.

Ltac head_of t := lazymatch t with ?f _ => head_of f | _ => t end.

(** Walks through a computation; [atom] settles the state-changing leaves. *)
Ltac respects_with atom :=
  repeat first
    [ atom
    | refine (respects_ret _ _)
    | refine (respects_exit _ _)
    | refine (respects_get _)
    | refine (respects_bind _ _ _ _ _); [| intros ?]
    | refine (respects_when _ _ _ _); intros ?
    | refine (respects_foreach _ _ _ _); intros ?
    | refine (respects_return_bool _ _ _)
    | refine (respects_onlynet_collect _ _ _ _ _ _); [| intros ?]
    | refine (respects_RebuildAddressIndex _ _ _ _); intros ?
    | progress cbv beta zeta
    | lazymatch goal with
      | |- respects _ (modify _) => fail
      | |- respects _ (emit _) => fail
      | |- respects _ (index_arg _) => fail
      | |- respects _ (index_multi _) => fail
      | |- respects _ (soft_set_bool _ _ _) => fail
      | |- respects _ (if ?b then _ else _) => destruct b eqn:?
      | |- respects _ (match ?x with _ => _ end) => destruct x eqn:?
      | |- respects _ ?m => let h := head_of m in unfold h
      end ].

#[global] Instance args_grow_preorder : PreOrder args_grow.
Proof.
  split.
  - intros st. unfold args_grow. reflexivity.
  - intros a b c Hab Hbc. unfold args_grow in *. etrans; eassumption.
Qed.

Lemma grow_index_arg k : respects args_grow (index_arg k).
Proof.
  intros st r st'. unfold index_arg, args_grow.
  destruct (mapArgs st !! k) eqn:E; intros [= <- <-]; simpl.
  - reflexivity.
  - by apply insert_subseteq.
Qed.

Lemma grow_index_multi k : respects args_grow (index_multi k).
Proof.
  intros st r st'. unfold index_multi, args_grow.
  destruct (mapMultiArgs st !! k); intros [= <- <-]; reflexivity.
Qed.

Lemma SoftSetArg_grows m k v : m ⊆ (SoftSetArg m k v).2.
Proof.
  unfold SoftSetArg. destruct (m !! k) eqn:E; simpl.
  - reflexivity.
  - by apply insert_subseteq.
Qed.

Lemma grow_soft_set_bool k v : respects args_grow (soft_set_bool k v).
Proof.
  intros st r st'. unfold soft_set_bool, args_grow, SoftSetBoolArg.
  intros [= <- <-]; simpl. destruct v; apply SoftSetArg_grows.
Qed.

Lemma grow_same st st' : mapArgs st' = mapArgs st → args_grow st st'.
Proof. unfold args_grow. intros ->. reflexivity. Qed.

Lemma grow_emit e : respects args_grow (emit e).
Proof. refine (respects_modify _ _ _). intros st. by apply grow_same. Qed.

Ltac grow_atom :=
  first [ apply grow_index_arg | apply grow_index_multi | apply grow_soft_set_bool
        | apply grow_emit
        | refine (respects_modify _ _ _); intros ?; apply grow_same; reflexivity ].

#[global] Instance keeps_preorder {T} (proj : Node → T) : PreOrder (keeps proj).
Proof.
  split.
  - intros st. reflexivity.
  - intros a b c Hab Hbc. unfold keeps in *. congruence.
Qed.

Lemma keeps_emit {T} (proj : Node → T) e :
  (∀ tr st, proj (set_trace tr st) = proj st) → respects (keeps proj) (emit e).
Proof. intros H. refine (respects_modify _ _ _). intros st. apply H. Qed.

Lemma keeps_index_arg {T} (proj : Node → T) k :
  (∀ m st, proj (set_mapArgs m st) = proj st) → respects (keeps proj) (index_arg k).
Proof.
  intros H st r st'. unfold index_arg, keeps.
  destruct (mapArgs st !! k); intros [= <- <-]; [reflexivity | apply H].
Qed.

Lemma keeps_index_multi {T} (proj : Node → T) k :
  (∀ m st, proj (set_mapMultiArgs m st) = proj st) → respects (keeps proj) (index_multi k).
Proof.
  intros H st r st'. unfold index_multi, keeps.
  destruct (mapMultiArgs st !! k); intros [= <- <-]; [reflexivity | apply H].
Qed.

Lemma keeps_soft_set_bool {T} (proj : Node → T) k v :
  (∀ m st, proj (set_mapArgs m st) = proj st) → respects (keeps proj) (soft_set_bool k v).
Proof. intros H st r st'. unfold soft_set_bool, keeps. intros [= <- <-]. apply H. Qed.

(** Leaves of a computation that do not write what [proj] reads. *)
Ltac keeps_atom :=
  first [ apply keeps_emit; intros; reflexivity
        | apply keeps_index_arg; intros; reflexivity
        | apply keeps_index_multi; intros; reflexivity
        | apply keeps_soft_set_bool; intros; reflexivity
        | refine (respects_modify _ _ _); intros ?; reflexivity ].

(** *** One option at a time *)

Lemma SoftSetArg_other m k k' v : k ≠ k' → (SoftSetArg m k' v).2 !! k = m !! k.
Proof.
  intros Hne. unfold SoftSetArg. destruct (m !! k'); simpl; [reflexivity|].
  by rewrite lookup_insert_ne.
Qed.

Lemma arg_soft_set_bool k k' v :
  k ≠ k' → respects (keeps (λ st, mapArgs st !! k)) (soft_set_bool k' v).
Proof.
  intros Hne st r st'. unfold soft_set_bool, keeps, SoftSetBoolArg.
  intros [= <- <-]; simpl. destruct v; by apply SoftSetArg_other.
Qed.

Lemma arg_index_arg k k' :
  k ≠ k' → respects (keeps (λ st, mapArgs st !! k)) (index_arg k').
Proof.
  intros Hne st r st'. unfold index_arg, keeps.
  destruct (mapArgs st !! k'); intros [= <- <-]; simpl; [reflexivity|].
  by rewrite lookup_insert_ne.
Qed.

Ltac arg_atom :=
  first [ apply arg_soft_set_bool; first [assumption | discriminate]
        | apply arg_index_arg; first [assumption | discriminate]
        | apply keeps_emit; intros; reflexivity
        | apply keeps_index_multi; intros; reflexivity
        | refine (respects_modify _ _ _); intros ?; reflexivity ].

Lemma not_touched k :
  k ∉ touched_options →
  k ≠ "-irc" ∧ k ≠ "-listen" ∧ k ≠ "-dnsseed" ∧ k ≠ "-discover" ∧ k ≠ "-upnp" ∧
  k ≠ "-rescan" ∧ k ≠ "-paytxfee" ∧ k ≠ "-mininput" ∧ k ≠ "-proxy" ∧ k ≠ "-tor" ∧
  k ≠ "-reservebalance" ∧ k ≠ "-printblock".
Proof. unfold touched_options. rewrite !not_elem_of_cons. tauto. Qed.

(** ** Options the operator set are never overwritten *)

Lemma ParameterInteraction_grows env : respects args_grow (ParameterInteraction env).
Proof. respects_with grow_atom. Qed.

Lemma AppInit2_body_grows env : respects args_grow (AppInit2_body env).
Proof. respects_with grow_atom. Qed.

(** Only the options named in a rule are ever filled in. *)
Lemma ParameterInteraction_fills env k :
  k ≠ "-irc" → k ≠ "-listen" → k ≠ "-dnsseed" → k ≠ "-discover" → k ≠ "-upnp" →
  k ≠ "-rescan" →
  respects (keeps (λ st, mapArgs st !! k)) (ParameterInteraction env).
Proof. intros. respects_with arg_atom. Qed.

(** C1.  An option the operator set keeps its value through the
    parameter-interaction rules (bind, connect, proxy, listen off,
    externalip, salvagewallet) and through the whole of AppInit2: a rule
    only fills in options that were not set. *)
Theorem explicit_options_survive env st k v :
  mapArgs st !! k = Some v →
  mapArgs (ParameterInteraction env st).2 !! k = Some v ∧
  mapArgs (AppInit2 env st).2 !! k = Some v.
Proof.
  intros Hk. split.
  - destruct (ParameterInteraction env st) as [r st'] eqn:E.
    apply ParameterInteraction_grows in E. simpl.
    eapply lookup_weaken; [exact Hk | exact E].
  - unfold AppInit2. destruct (AppInit2_body env st) as [r st'] eqn:E.
    apply AppInit2_body_grows in E.
    destruct r; simpl; (eapply lookup_weaken; [exact Hk | exact E]).
Qed.

Lemma explicit_options_survive_witness :
  mapArgs (ParameterInteraction env_ok
             (node0 [("-proxy", "127.0.0.1:9050"); ("-listen", "1")])).2 !! "-listen"
    = Some "1" ∧
  mapArgs (AppInit2 env_ok
             (node0 [("-proxy", "127.0.0.1:9050"); ("-listen", "1")])).2 !! "-listen"
    = Some "1".
Proof. apply explicit_options_survive. vm_compute. reflexivity. Defined.

(** ** Trace extension *)

#[global] Instance emits_preorder (P : Event → Prop) : PreOrder (emits P).
Proof.
  split.
  - intros st. exists []. split; [by rewrite app_nil_r | constructor].
  - intros a b c (e1 & H1 & F1) (e2 & H2 & F2). exists (e1 ++ e2)%list. split.
    + rewrite H2, H1, <- app_assoc. reflexivity.
    + by apply Forall_app.
Qed.

Lemma emits_emit (P : Event → Prop) e : P e → respects (emits P) (emit e).
Proof.
  intros He. refine (respects_modify _ _ _). intros st.
  exists [e]. split; [reflexivity | by repeat constructor].
Qed.

Lemma emits_same (P : Event → Prop) st st' : trace st' = trace st → emits P st st'.
Proof. intros H. exists []. split; [by rewrite app_nil_r | constructor]. Qed.

Lemma emits_index_arg P k : respects (emits P) (index_arg k).
Proof.
  intros st r st'. unfold index_arg.
  destruct (mapArgs st !! k); intros [= <- <-]; by apply emits_same.
Qed.

Lemma emits_index_multi P k : respects (emits P) (index_multi k).
Proof.
  intros st r st'. unfold index_multi.
  destruct (mapMultiArgs st !! k); intros [= <- <-]; by apply emits_same.
Qed.

Lemma emits_soft_set_bool P k v : respects (emits P) (soft_set_bool k v).
Proof. intros st r st'. unfold soft_set_bool. intros [= <- <-]. by apply emits_same. Qed.

(** Leaves of a computation under [emits P]; [side] proves [P e]. *)
Ltac emits_atom side :=
  first [ apply emits_emit; side
        | apply emits_index_arg | apply emits_index_multi | apply emits_soft_set_bool
        | refine (respects_modify _ _ _); intros ?; apply emits_same; reflexivity ].

Lemma ToModeCheck_extends env : respects (emits (λ _, True)) (ToModeCheck env).
Proof. respects_with ltac:(emits_atom ltac:(exact I)). Qed.

Lemma ToModeCheck_keeps_arg env k :
  k ∉ touched_options → respects (keeps (λ st, mapArgs st !! k)) (ToModeCheck env).
Proof.
  intros H. apply not_touched in H.
  destruct H as (? & ? & ? & ? & ? & ? & ? & ? & ? & ? & ? & ?).
  respects_with arg_atom.
Qed.

(** Peels the first statement off a sequence that ran to its end. *)
Ltac peel H s H1 :=
  apply bind_continue_inv in H as (? & s & H1 & H); cbv beta in H;
  repeat match goal with x : unit |- _ => destruct x end.

(** Proves that the computation in hypothesis [H] respects [R], and says so
    of the states in [H]. *)
Ltac by_respects H R tac :=
  lazymatch type of H with
  | ?m ?s = _ =>
      let Hr := fresh "Hr" in
      assert (Hr : respects R m) by tac;
      apply Hr in H; clear Hr
  end.

(** ** Masternode mode against lite mode *)

Lemma MasternodeSetup_sets env st st' :
  MasternodeSetup env st = (Continue tt, st') →
  fMasterNode (darksend st') = GetBoolArg env (mapArgs st) "-masternode" false ∧
  mapArgs st' = mapArgs st.
Proof.
  intros H. unfold MasternodeSetup in H. peel H s1 H1.
  unfold bind, get_bool_arg, get, ret, modify in H1. injection H1 as <-.
  split.
  - by_respects H (keeps (λ s, fMasterNode (darksend s))) ltac:(respects_with keeps_atom).
    exact H.
  - by_respects H (keeps mapArgs) ltac:(respects_with keeps_atom). exact H.
Qed.

Lemma GetBoolArg_ext env m m' k d :
  m' !! k = m !! k → GetBoolArg env m' k d = GetBoolArg env m k d.
Proof. unfold GetBoolArg. intros ->. reflexivity. Qed.

Lemma GetArgInt_ext env m m' k d :
  m' !! k = m !! k → GetArgInt env m' k d = GetArgInt env m k d.
Proof. unfold GetArgInt. intros ->. reflexivity. Qed.

Lemma ToModeCheck_masternode env st st1 :
  ToModeCheck env st = (Continue tt, st1) →
  fMasterNode (darksend st1) = GetBoolArg env (mapArgs st) "-masternode" false.
Proof.
  intros H. unfold ToModeCheck in H.
  peel H sA HA. peel H sB HB. peel H sC HC.
  unfold ChainAndWallet in HC.
  peel HC s1 H1. peel HC s2 H2. peel HC s3 H3. peel HC s4 H4. peel HC s5 H5.
  apply MasternodeSetup_sets in HC as [HC _].
  by_respects H (keeps (λ s, fMasterNode (darksend s))) ltac:(respects_with keeps_atom).
  unfold keeps in H. rewrite H, HC. apply GetBoolArg_ext.
  by_respects HA (keeps (λ s, mapArgs s !! "-masternode")) ltac:(respects_with arg_atom).
  by_respects HB (keeps (λ s, mapArgs s !! "-masternode")) ltac:(respects_with arg_atom).
  by_respects H1 (keeps (λ s, mapArgs s !! "-masternode")) ltac:(respects_with arg_atom).
  by_respects H2 (keeps (λ s, mapArgs s !! "-masternode")) ltac:(respects_with arg_atom).
  by_respects H3 (keeps (λ s, mapArgs s !! "-masternode")) ltac:(respects_with arg_atom).
  by_respects H4 (keeps (λ s, mapArgs s !! "-masternode")) ltac:(respects_with arg_atom).
  by_respects H5 (keeps (λ s, mapArgs s !! "-masternode")) ltac:(respects_with arg_atom).
  unfold keeps in *. congruence.
Qed.

Lemma LiteModeCheck_aborts env st :
  fMasterNode (darksend st) = true →
  GetBoolArg env (mapArgs st) "-litemode" false = true →
  ∃ st', LiteModeCheck env st = (Exit 0, st') ∧
         trace st' = (trace st ++ [EvInitError "You can not start a masternode in litemode"])%list.
Proof.
  intros Hm Hl. eexists. split.
  - unfold LiteModeCheck, bind, get_bool_arg, get, ret, modify, when, return_bool, InitError,
      emit, bind, modify, ret, exit. simpl. rewrite Hm, Hl. simpl. reflexivity.
  - reflexivity.
Qed.

(** *** Listen sockets *)

#[global] Instance bound_witnessed_preorder : PreOrder bound_witnessed.
Proof.
  split.
  - intros st. exists []. split; [by rewrite app_nil_r | auto].
  - intros a b c (e1 & H1 & F1) (e2 & H2 & F2). exists (e1 ++ e2)%list. split.
    + rewrite H2, H1, <- app_assoc. reflexivity.
    + intros Hc. destruct (F2 Hc) as [Hb|(addr & Hin)].
      * destruct (F1 Hb) as [Ha|(addr & Hin)]; [by left|].
        right. exists addr. apply elem_of_app. by left.
      * right. exists addr. apply elem_of_app. by right.
Qed.

Lemma bw_same st st' :
  trace st' = trace st → fBound (frame st') = fBound (frame st) → bound_witnessed st st'.
Proof.
  intros Ht Hb. exists []. split; [by rewrite app_nil_r|]. rewrite Hb. auto.
Qed.

Lemma bw_emit e : respects bound_witnessed (emit e).
Proof.
  refine (respects_modify _ _ _). intros st. exists [e]. split; [reflexivity|]. auto.
Qed.

Lemma bw_index_arg k : respects bound_witnessed (index_arg k).
Proof.
  intros st r st'. unfold index_arg.
  destruct (mapArgs st !! k); intros [= <- <-]; by apply bw_same.
Qed.

Lemma bw_index_multi k : respects bound_witnessed (index_multi k).
Proof.
  intros st r st'. unfold index_multi.
  destruct (mapMultiArgs st !! k); intros [= <- <-]; by apply bw_same.
Qed.

(** [fBound |= Bind(addr, fError)] turns [fBound] on only after a
    successful BindListenPort. *)
Lemma bw_Bind env addr fError :
  respects bound_witnessed (b ← Bind env addr fError; or_fBound b).
Proof.
  intros st r st'.
  unfold Bind, IsLimited, or_fBound, InitError, emit, bind, get, ret, modify. simpl.
  destruct (bool_decide (GetNetwork env addr ∈ vfLimited (net st))).
  - intros [= <- <-]. apply bw_same; simpl; [reflexivity | apply orb_false_r].
  - destruct (BindListenPort env addr) as [strError|]; simpl.
    + destruct fError; simpl; intros [= <- <-].
      * exists [EvBindListenPort addr false; EvInitError strError]. split.
        -- simpl. rewrite <- app_assoc. reflexivity.
        -- simpl. rewrite orb_false_r. auto.
      * exists [EvBindListenPort addr false]. split; [reflexivity|].
        simpl. rewrite orb_false_r. auto.
    + intros [= <- <-]. exists [EvBindListenPort addr true]. split; [reflexivity|].
      intros _. right. exists addr. apply list_elem_of_singleton. reflexivity.
Qed.

Ltac bw_atom :=
  first [ apply bw_Bind | apply bw_emit | apply bw_index_arg | apply bw_index_multi
        | refine (respects_modify _ _ _); intros ?; apply bw_same; reflexivity ].

Lemma ListenSockets_witnessed env : respects bound_witnessed (ListenSockets env).
Proof. respects_with bw_atom. Qed.

Lemma ListenSockets_fBound env st st' :
  ListenSockets env st = (Continue tt, st') →
  fNoListen (net st) = false → fBound (frame st') = true.
Proof.
  intros H Hl. unfold ListenSockets in H.
  unfold bind at 1 in H. unfold get at 1 in H. rewrite Hl in H. simpl in H.
  peel H s1 H1. peel H s2 H2.
  unfold bind, get, when, return_bool, InitError, emit, bind, modify, ret, exit in H.
  destruct (fBound (frame s2)) eqn:E; simpl in H; [|discriminate].
  injection H as <-. exact E.
Qed.

Lemma ListenSockets_bound env st st' :
  fBound (frame st) = false →
  ListenSockets env st = (Continue tt, st') →
  fNoListen (net st') = fNoListen (net st) ∧
  ∃ evs, trace st' = (trace st ++ evs)%list ∧
         (fNoListen (net st) = false → ∃ addr, EvBindListenPort addr true ∈ evs).
Proof.
  intros Hb H. split.
  - by_respects H (keeps (λ s, fNoListen (net s))) ltac:(respects_with keeps_atom). exact H.
  - pose proof (ListenSockets_fBound _ _ _ H) as Hf.
    apply ListenSockets_witnessed in H as (evs & Ht & Hw).
    exists evs. split; [exact Ht|]. intros Hl.
    destruct (Hw (Hf Hl)) as [Hc|Hc]; [congruence | exact Hc].
Qed.

Lemma ListenFlags_resets env st st' :
  ListenFlags env st = (Continue tt, st') → fBound (frame st') = false.
Proof.
  unfold ListenFlags, bind, get_bool_arg, get, ret, modify. simpl.
  intros [= <-]. reflexivity.
Qed.

Ltac extends := respects_with ltac:(emits_atom ltac:(exact I)).
Ltac keeps_listen := respects_with keeps_atom.

(** Reaching the mode check with listening on means a listen socket has
    been bound since [AppInit2] began. *)
Lemma ToModeCheck_bound env st st1 :
  ToModeCheck env st = (Continue tt, st1) →
  fNoListen (net st1) = false →
  ∃ evs addr, trace st1 = (trace st ++ evs)%list ∧ EvBindListenPort addr true ∈ evs.
Proof.
  intros H Hl. unfold ToModeCheck in H.
  peel H sA HA. peel H sB HB. peel H sC HC.
  unfold NetworkSetup in HB.
  peel HB s1 H1. peel HB s2 H2. peel HB s3 H3. peel HB s4 H4.
  unfold ListenSetup in H4. peel H4 sF HF.
  pose proof (ListenFlags_resets _ _ _ HF) as Hreset.
  destruct (ListenSockets_bound _ _ _ Hreset H4) as (Hsame & evs & Ht & Hw).
  assert (Hpre : emits (λ _, True) st sF).
  { by_respects HA (emits (λ _, True)) extends.
    by_respects H1 (emits (λ _, True)) extends.
    by_respects H2 (emits (λ _, True)) extends.
    by_respects H3 (emits (λ _, True)) extends.
    by_respects HF (emits (λ _, True)) extends.
    repeat (etrans; [eassumption|]). reflexivity. }
  assert (Hpost : emits (λ _, True) s4 st1).
  { by_respects HB (emits (λ _, True)) extends.
    by_respects HC (emits (λ _, True)) extends.
    by_respects H (emits (λ _, True)) extends.
    repeat (etrans; [eassumption|]). reflexivity. }
  assert (Hkeep : fNoListen (net st1) = fNoListen (net s4)).
  { by_respects HB (keeps (λ s, fNoListen (net s))) keeps_listen.
    by_respects HC (keeps (λ s, fNoListen (net s))) keeps_listen.
    by_respects H (keeps (λ s, fNoListen (net s))) keeps_listen.
    unfold keeps in *. congruence. }
  destruct Hpre as (e0 & Hpre & _). destruct Hpost as (e1 & Hpost & _).
  destruct Hw as (addr & Hin); [congruence|].
  exists (e0 ++ evs ++ e1)%list, addr. split.
  - rewrite Hpost, Ht, Hpre, <- !app_assoc. reflexivity.
  - rewrite !elem_of_app. auto.
Qed.

(** C2 (as amended).  With masternode mode and lite mode both configured
    AppInit2 returns early.  When no earlier step returns, the test of the
    two modes is what stops it, with the litemode error; that test comes
    after the network setup, so with listening on a listen socket has
    already been bound. *)
Theorem masternode_litemode_abort env st :
  GetBoolArg env (mapArgs st) "-masternode" false = true →
  GetBoolArg env (mapArgs st) "-litemode" false = true →
  (∃ code st', AppInit2_body env st = (Exit code, st')) ∧
  (∀ st1, ToModeCheck env st = (Continue tt, st1) →
     (∃ st2, LiteModeCheck env st1 = (Exit 0, st2) ∧
             trace st2 =
               (trace st1 ++ [EvInitError "You can not start a masternode in litemode"])%list) ∧
     (fNoListen (net st1) = false →
      ∃ evs addr, trace st1 = (trace st ++ evs)%list ∧ EvBindListenPort addr true ∈ evs)).
Proof.
  intros Hm Hl.
  assert (Hcheck : ∀ st1, ToModeCheck env st = (Continue tt, st1) →
            ∃ st2, LiteModeCheck env st1 = (Exit 0, st2) ∧
              trace st2 =
                (trace st1 ++ [EvInitError "You can not start a masternode in litemode"])%list).
  { intros st1 H. apply LiteModeCheck_aborts.
    - rewrite (ToModeCheck_masternode _ _ _ H). exact Hm.
    - etrans; [|exact Hl]. apply GetBoolArg_ext.
      by_respects H (keeps (λ s, mapArgs s !! "-litemode")) ltac:(respects_with arg_atom).
      exact H. }
  split.
  - unfold AppInit2_body.
    destruct (ToModeCheck env st) as [[[]|c] st1] eqn:E.
    + destruct (Hcheck st1 eq_refl) as (st2 & H2 & _).
      exists 0, st2. erewrite bind_continue by exact E. cbv beta.
      erewrite bind_exit by exact H2. reflexivity.
    + exists c, st1. erewrite bind_exit by exact E. reflexivity.
  - intros st1 H. split; [by apply Hcheck|].
    intros Hn. by eapply ToModeCheck_bound.
Qed.

Lemma masternode_litemode_abort_witness :
  (∃ code st', AppInit2_body env_ok node_masternode_lite = (Exit code, st')) ∧
  (∀ st1, ToModeCheck env_ok node_masternode_lite = (Continue tt, st1) →
     (∃ st2, LiteModeCheck env_ok st1 = (Exit 0, st2) ∧
             trace st2 =
               (trace st1 ++ [EvInitError "You can not start a masternode in litemode"])%list) ∧
     (fNoListen (net st1) = false →
      ∃ evs addr, trace st1 = (trace node_masternode_lite ++ evs)%list ∧
                  EvBindListenPort addr true ∈ evs)).
Proof. apply masternode_litemode_abort; vm_compute; reflexivity. Defined.

(** C2, as the spec states it, fails: with both modes configured the run
    below ends in the litemode error only after a listen socket has been
    bound. *)
Lemma masternode_litemode_bound_first :
  GetBoolArg env_ok (mapArgs node_masternode_lite) "-masternode" false = true ∧
  GetBoolArg env_ok (mapArgs node_masternode_lite) "-litemode" false = true ∧
  (AppInit2 env_ok node_masternode_lite).1 = 0 ∧
  ∃ pre post,
    trace (AppInit2 env_ok node_masternode_lite).2 =
      (pre ++ EvBindListenPort (ServiceAny6 24055) true :: post)%list ∧
    EvInitError "You can not start a masternode in litemode" ∈ post.
Proof.
  split; [vm_compute; reflexivity|]. split; [vm_compute; reflexivity|].
  split; [vm_compute; reflexivity|].
  exists [EvTouchLockFile; EvShrinkDebugFile; EvOpenDatabaseEnv true;
          EvVerifyWallet VERIFY_OK; EvRegisterNodeSignals].
  eexists. split; [vm_compute; reflexivity|].
  rewrite !elem_of_cons. repeat (first [left; reflexivity | right]).
Qed.

(** ** Numeric options *)

Arguments to_int : simpl never.

Lemma DarksendRounds_run env st :
  DarksendRounds env st =
    (Continue tt,
     in_darksend
       (λ d, set_nDarksendRounds
               (Z.max 1 (Z.min 16 (to_int (GetArgInt env (mapArgs st) "-darksendrounds" 2))))
               (set_fEnableDarksend (GetBoolArg env (mapArgs st) "-enabledarksend" false) d))
       st).
Proof.
  unfold DarksendRounds, bind, when, get_arg_int, get_bool_arg, get, ret, modify. simpl.
  destruct (Z.ltb_spec 16 (to_int (GetArgInt env (mapArgs st) "-darksendrounds" 2))); simpl.
  - unfold in_darksend, set_nDarksendRounds; simpl. do 3 f_equal. lia.
  - destruct (Z.ltb_spec (to_int (GetArgInt env (mapArgs st) "-darksendrounds" 2)) 1); simpl;
      unfold in_darksend, set_nDarksendRounds; simpl; do 3 f_equal; lia.
Qed.

Lemma LiquidityProvider_run env st :
  LiquidityProvider env st =
    (Continue tt,
     let lp := to_int (GetArgInt env (mapArgs st) "-liquidityprovider" 0) in
     if lp =? 0 then in_darksend (set_nLiquidityProvider lp) st
     else in_darksend
            (λ d, set_nDarksendRounds 99999
                    (set_fEnableDarksend true (set_nLiquidityProvider lp d)))
            (set_trace (trace st ++ [EvSetMinBlockSpacing (to_int (Z.min lp 100 * 15))]) st)).
Proof.
  unfold LiquidityProvider, bind, when, get_arg_int, get, ret, modify, emit, bind, modify. simpl.
  destruct (to_int (GetArgInt env (mapArgs st) "-liquidityprovider" 0) =? 0); reflexivity.
Qed.

Lemma AnonymizeAmount_run env st :
  AnonymizeAmount env st =
    (Continue tt,
     in_darksend
       (set_nAnonymizeSwippAmount
          (Z.max 2 (Z.min 999999 (to_int (GetArgInt env (mapArgs st) "-anonymizeSwippamount" 0)))))
       st).
Proof.
  unfold AnonymizeAmount, bind, when, get_arg_int, get, ret, modify. simpl.
  destruct (Z.ltb_spec 999999 (to_int (GetArgInt env (mapArgs st) "-anonymizeSwippamount" 0)));
    simpl.
  - unfold in_darksend, set_nAnonymizeSwippAmount; simpl. do 3 f_equal. lia.
  - destruct (Z.ltb_spec (to_int (GetArgInt env (mapArgs st) "-anonymizeSwippamount" 0)) 2);
      simpl; unfold in_darksend, set_nAnonymizeSwippAmount; simpl; do 3 f_equal; lia.
Qed.

Lemma InstantX_run env st :
  InstantX env st =
    (Continue tt,
     let depth := to_int (GetArgInt env (mapArgs st) "-instantxdepth" 5) in
     if GetBoolArg env (mapArgs st) "-enableinstantx" true
     then in_darksend
            (λ d, (if depth <? 0 then set_nAnonymizeSwippAmount 0 d else d))
            (in_darksend (set_nInstantXDepth (Z.min 60 depth)) st)
     else in_darksend (set_nInstantXDepth 0) st).
Proof.
  unfold InstantX, bind, when, get_arg_int, get_bool_arg, get, ret, modify. simpl.
  destruct (GetBoolArg env (mapArgs st) "-enableinstantx" true); [|reflexivity].
  destruct (Z.ltb_spec 60 (to_int (GetArgInt env (mapArgs st) "-instantxdepth" 5))); simpl.
  - destruct (Z.ltb_spec (to_int (GetArgInt env (mapArgs st) "-instantxdepth" 5)) 0); [lia|].
    unfold in_darksend, set_nInstantXDepth; simpl. do 3 f_equal. lia.
  - destruct (Z.ltb_spec (to_int (GetArgInt env (mapArgs st) "-instantxdepth" 5)) 0); simpl;
      unfold in_darksend, set_nInstantXDepth, set_nAnonymizeSwippAmount; simpl;
      do 3 f_equal; lia.
Qed.

(** What the Darksend and InstantX settings come out as. *)
Lemma MixingOptions_run env st :
  ∃ st', MixingOptions env st = (Continue tt, st') ∧
    let m := mapArgs st in
    let lp := to_int (GetArgInt env m "-liquidityprovider" 0) in
    let rounds := to_int (GetArgInt env m "-darksendrounds" 2) in
    let amount := to_int (GetArgInt env m "-anonymizeSwippamount" 0) in
    let ix := GetBoolArg env m "-enableinstantx" true in
    let depth := to_int (GetArgInt env m "-instantxdepth" 5) in
    mapArgs st' = m ∧
    nLiquidityProvider (darksend st') = lp ∧
    fEnableDarksend (darksend st') =
      (if lp =? 0 then GetBoolArg env m "-enabledarksend" false else true) ∧
    nDarksendRounds (darksend st') =
      (if lp =? 0 then Z.max 1 (Z.min 16 rounds) else 99999) ∧
    nInstantXDepth (darksend st') = (if ix then Z.min 60 depth else 0) ∧
    nAnonymizeSwippAmount (darksend st') =
      (if ix && (depth <? 0) then 0 else Z.max 2 (Z.min 999999 amount)) ∧
    trace st' =
      (trace st ++
       (if lp =? 0 then [] else [EvSetMinBlockSpacing (to_int (Z.min lp 100 * 15))]))%list.
Proof.
  eexists. split.
  - unfold MixingOptions.
    erewrite bind_continue by apply DarksendRounds_run. cbv beta.
    erewrite bind_continue by apply LiquidityProvider_run. cbv beta.
    erewrite bind_continue by apply AnonymizeAmount_run. cbv beta.
    apply InstantX_run.
  - simpl.
    destruct (to_int (GetArgInt env (mapArgs st) "-liquidityprovider" 0) =? 0); simpl;
      destruct (GetBoolArg env (mapArgs st) "-enableinstantx" true); simpl;
      destruct (to_int (GetArgInt env (mapArgs st) "-instantxdepth" 5) <? 0); simpl;
      rewrite ?app_nil_r; repeat split; reflexivity.
Qed.

(** Options that decide the Darksend and InstantX settings reach
    [MixingOptions] as the operator gave them. *)
Lemma ToModeCheck_split env st st1 :
  ToModeCheck env st = (Continue tt, st1) →
  ∃ sC, MixingOptions env sC = (Continue tt, st1) ∧
        ∀ k, k ∉ touched_options → mapArgs sC !! k = mapArgs st !! k.
Proof.
  intros H. unfold ToModeCheck in H.
  peel H sA HA. peel H sB HB. peel H sC HC.
  exists sC. split; [exact H|]. intros k Hk. apply not_touched in Hk.
  destruct Hk as (? & ? & ? & ? & ? & ? & ? & ? & ? & ? & ? & ?).
  by_respects HA (keeps (λ s, mapArgs s !! k)) ltac:(respects_with arg_atom).
  by_respects HB (keeps (λ s, mapArgs s !! k)) ltac:(respects_with arg_atom).
  by_respects HC (keeps (λ s, mapArgs s !! k)) ltac:(respects_with arg_atom).
  unfold keeps in *. congruence.
Qed.

Lemma untouched k :
  bool_decide (k ∈ touched_options) = false → k ∉ touched_options.
Proof. intros H. by apply bool_decide_eq_false in H. Qed.

(** The settings [AppInit2] ends with when it runs to its last statement. *)
Lemma AppInit2_mixing env st code st' :
  AppInit2_body env st = (Continue code, st') →
  let m := mapArgs st in
  let lp := to_int (GetArgInt env m "-liquidityprovider" 0) in
  let rounds := to_int (GetArgInt env m "-darksendrounds" 2) in
  let amount := to_int (GetArgInt env m "-anonymizeSwippamount" 0) in
  let ix := GetBoolArg env m "-enableinstantx" true in
  let depth := to_int (GetArgInt env m "-instantxdepth" 5) in
  nLiquidityProvider (darksend st') = lp ∧
  fEnableDarksend (darksend st') =
    (if lp =? 0 then GetBoolArg env m "-enabledarksend" false else true) ∧
  nDarksendRounds (darksend st') =
    (if lp =? 0 then Z.max 1 (Z.min 16 rounds) else 99999) ∧
  nInstantXDepth (darksend st') = (if ix then Z.min 60 depth else 0) ∧
  nAnonymizeSwippAmount (darksend st') =
    (if ix && (depth <? 0) then 0 else Z.max 2 (Z.min 999999 amount)).
Proof.
  intros H. unfold AppInit2_body in H. peel H s1 H1.
  apply ToModeCheck_split in H1 as (sC & HM & Hargs).
  destruct (MixingOptions_run env sC) as (s1' & HM' & Hrun).
  rewrite HM in HM'. injection HM' as <-.
  by_respects H (keeps (λ s, set_fLiteMode false (darksend s))) ltac:(respects_with keeps_atom).
  unfold keeps in H.
  assert (Hd : ∀ (f : DarksendGlobals → Z),
             (∀ d, f (set_fLiteMode false d) = f d) → f (darksend st') = f (darksend s1)).
  { intros f Hf. rewrite <- (Hf (darksend st')), H. apply Hf. }
  assert (Hb : fEnableDarksend (darksend st') = fEnableDarksend (darksend s1)).
  { change (fEnableDarksend (set_fLiteMode false (darksend st')) =
            fEnableDarksend (set_fLiteMode false (darksend s1))). by rewrite H. }
  cbv zeta in Hrun. destruct Hrun as (_ & Hlp & Hen & Hr & Hx & Ha & _).
  cbv zeta.
  rewrite !(GetArgInt_ext env (mapArgs sC) (mapArgs st))
    by (symmetry; apply Hargs, untouched; reflexivity).
  rewrite !(GetBoolArg_ext env (mapArgs sC) (mapArgs st))
    by (symmetry; apply Hargs, untouched; reflexivity).
  rewrite (Hd nLiquidityProvider), (Hd nDarksendRounds), (Hd nInstantXDepth),
    (Hd nAnonymizeSwippAmount), Hb by reflexivity.
  auto.
Qed.

Lemma ConnectTimeout_run env st :
  ConnectTimeout env st =
    (Continue tt,
     match mapArgs st !! "-timeout" with
     | Some s =>
         if (0 <? to_int (atoi64 env s)) && (to_int (atoi64 env s) <? 600000)
         then in_net (set_nConnectTimeout (to_int (atoi64 env s))) st
         else st
     | None => st
     end).
Proof.
  unfold ConnectTimeout, bind, count_arg, get_arg_int, get, ret, when, modify, GetArgInt.
  simpl. destruct (mapArgs st !! "-timeout") as [s|] eqn:E; simpl; rewrite ?E; [|reflexivity].
  destruct ((0 <? to_int (atoi64 env s)) && (to_int (atoi64 env s) <? 600000)); reflexivity.
Qed.

(** C3 (as amended).  No range check on the connection timeout, the mixing
    round count or the anonymization amount stops startup or reports an
    error; each value is the option read as an int.  The timeout
    statement always runs through and records nothing, and a timeout not
    strictly between 0 and 600000 is ignored: the state is left as it
    was.  The clamping statements of the round count always run through,
    record nothing and leave max(1, min(16, v)); those of the
    anonymization amount always run through, record nothing and leave
    max(2, min(999999, v)).  The Darksend and InstantX settings as a whole
    run through without an error message. *)
Theorem out_of_range_values_adjusted env st :
  let rounds := to_int (GetArgInt env (mapArgs st) "-darksendrounds" 2) in
  let amount := to_int (GetArgInt env (mapArgs st) "-anonymizeSwippamount" 0) in
  (∃ st', ConnectTimeout env st = (Continue tt, st') ∧ trace st' = trace st ∧
     ∀ s, mapArgs st !! "-timeout" = Some s →
          ¬ (0 < to_int (atoi64 env s) < 600000) → st' = st) ∧
  (∃ st', DarksendRounds env st = (Continue tt, st') ∧ trace st' = trace st ∧
     nDarksendRounds (darksend st') = Z.max 1 (Z.min 16 rounds)) ∧
  (∃ st', AnonymizeAmount env st = (Continue tt, st') ∧ trace st' = trace st ∧
     nAnonymizeSwippAmount (darksend st') = Z.max 2 (Z.min 999999 amount)) ∧
  (∃ st', MixingOptions env st = (Continue tt, st') ∧
     ∃ evs, trace st' = (trace st ++ evs)%list ∧ Forall (λ e, is_init_error e = false) evs).
Proof.
  cbv zeta. split; [|split; [|split]].
  - eexists. split; [apply ConnectTimeout_run|]. split.
    + destruct (mapArgs st !! "-timeout") as [s|]; [|reflexivity].
      destruct (_ && _); reflexivity.
    + intros s Hs Hr. rewrite Hs.
      destruct (Z.ltb_spec 0 (to_int (atoi64 env s))); simpl; [|reflexivity].
      destruct (Z.ltb_spec (to_int (atoi64 env s)) 600000); simpl; [lia|reflexivity].
  - eexists. split; [apply DarksendRounds_run|]. split; reflexivity.
  - eexists. split; [apply AnonymizeAmount_run|]. split; reflexivity.
  - destruct (MixingOptions_run env st) as (st' & HM & Hrun).
    exists st'. split; [exact HM|]. cbv zeta in Hrun.
    destruct Hrun as (_ & _ & _ & _ & _ & _ & Htrace).
    eexists. split; [exact Htrace|]. destruct (_ =? 0); repeat constructor.
Qed.

Lemma out_of_range_values_adjusted_witness :
  ConnectTimeout env_ok node_out_of_range = (Continue tt, node_out_of_range) ∧
  (∃ st', DarksendRounds env_ok node_out_of_range = (Continue tt, st') ∧
          nDarksendRounds (darksend st') = 16) ∧
  (∃ st', AnonymizeAmount env_ok node_out_of_range = (Continue tt, st') ∧
          nAnonymizeSwippAmount (darksend st') = 2).
Proof.
  destruct (out_of_range_values_adjusted env_ok node_out_of_range)
    as ((s1 & H1 & _ & Hig) & (s2 & H2 & _ & Hr) & (s3 & H3 & _ & Ha) & _).
  split; [|split].
  - rewrite H1. f_equal. apply (Hig "0"); [reflexivity|].
    vm_compute. intros [H _]. discriminate H.
  - exists s2. split; [exact H2|]. rewrite Hr. reflexivity.
  - exists s3. split; [exact H3|]. rewrite Ha. reflexivity.
Defined.

(** C3, as the spec states it, fails: a timeout of 0, 1000 mixing rounds and
    an anonymization amount of -5 are all out of range, yet AppInit2 returns
    1 and reports no error; the timeout stays at 5000 and the other two are
    clamped to 16 and 2. *)
Lemma out_of_range_accepted :
  GetArgInt env_ok (mapArgs node_out_of_range) "-timeout" 5000 = 0 ∧
  GetArgInt env_ok (mapArgs node_out_of_range) "-darksendrounds" 2 = 1000 ∧
  GetArgInt env_ok (mapArgs node_out_of_range) "-anonymizeSwippamount" 0 = -5 ∧
  (AppInit2 env_ok node_out_of_range).1 = 1 ∧
  Forall (λ e, is_init_error e = false) (trace (AppInit2 env_ok node_out_of_range).2) ∧
  nConnectTimeout (net (AppInit2 env_ok node_out_of_range).2) = 5000 ∧
  nDarksendRounds (darksend (AppInit2 env_ok node_out_of_range).2) = 16 ∧
  nAnonymizeSwippAmount (darksend (AppInit2 env_ok node_out_of_range).2) = 2.
Proof.
  repeat split; try (vm_compute; reflexivity).
  vm_compute. repeat constructor.
Qed.

(** ** InstantX depth *)

(** C9.  With InstantX enabled and a negative configured depth, the depth
    adjustment sets the anonymization amount to zero and leaves the negative
    depth as it is: for the InstantX statements themselves, for the Darksend
    and InstantX settings as a whole, and for a run of AppInit2 that reaches
    its end. *)
Theorem negative_depth_zeroes_amount env st :
  GetBoolArg env (mapArgs st) "-enableinstantx" true = true →
  to_int (GetArgInt env (mapArgs st) "-instantxdepth" 5) < 0 →
  (∃ st', InstantX env st = (Continue tt, st') ∧
     nAnonymizeSwippAmount (darksend st') = 0 ∧
     nInstantXDepth (darksend st') = to_int (GetArgInt env (mapArgs st) "-instantxdepth" 5)) ∧
  (∃ st', MixingOptions env st = (Continue tt, st') ∧
     nAnonymizeSwippAmount (darksend st') = 0 ∧
     nInstantXDepth (darksend st') = to_int (GetArgInt env (mapArgs st) "-instantxdepth" 5)) ∧
  (∀ code st', AppInit2_body env st = (Continue code, st') →
     nAnonymizeSwippAmount (darksend st') = 0 ∧
     nInstantXDepth (darksend st') = to_int (GetArgInt env (mapArgs st) "-instantxdepth" 5)).
Proof.
  intros Hix Hneg.
  assert (Hlt : (to_int (GetArgInt env (mapArgs st) "-instantxdepth" 5) <? 0) = true)
    by (apply Z.ltb_lt; exact Hneg).
  split; [|split].
  - eexists. split; [apply InstantX_run|]. simpl. rewrite Hix, Hlt. simpl.
    split; [reflexivity | lia].
  - destruct (MixingOptions_run env st) as (st' & HM & Hrun).
    exists st'. split; [exact HM|]. cbv zeta in Hrun.
    destruct Hrun as (_ & _ & _ & _ & Hdepth & Hamount & _).
    rewrite Hamount, Hdepth, Hix, Hlt. simpl. split; [reflexivity | lia].
  - intros code st' H. apply AppInit2_mixing in H. cbv zeta in H.
    destruct H as (_ & _ & _ & Hdepth & Hamount).
    rewrite Hamount, Hdepth, Hix, Hlt. simpl. split; [reflexivity | lia].
Qed.

Lemma negative_depth_zeroes_amount_witness :
  (∃ st', InstantX env_ok node_negative_depth = (Continue tt, st') ∧
     nAnonymizeSwippAmount (darksend st') = 0 ∧
     nInstantXDepth (darksend st') =
       to_int (GetArgInt env_ok (mapArgs node_negative_depth) "-instantxdepth" 5)) ∧
  (∃ st', MixingOptions env_ok node_negative_depth = (Continue tt, st') ∧
     nAnonymizeSwippAmount (darksend st') = 0 ∧
     nInstantXDepth (darksend st') =
       to_int (GetArgInt env_ok (mapArgs node_negative_depth) "-instantxdepth" 5)) ∧
  (∀ code st', AppInit2_body env_ok node_negative_depth = (Continue code, st') →
     nAnonymizeSwippAmount (darksend st') = 0 ∧
     nInstantXDepth (darksend st') =
       to_int (GetArgInt env_ok (mapArgs node_negative_depth) "-instantxdepth" 5)).
Proof. apply negative_depth_zeroes_amount; vm_compute; reflexivity. Defined.

(** ** Liquidity provider *)

(** C10.  When the liquidity-provider option, read as an int, is not zero,
    Darksend is enabled and the round count is 99999 whatever
    -enabledarksend and -darksendrounds say and despite the clamp to 16:
    after the Darksend and InstantX settings, and at the end of a run of
    AppInit2 that reaches it. *)
Theorem liquidity_provider_forces_mixing env st :
  to_int (GetArgInt env (mapArgs st) "-liquidityprovider" 0) ≠ 0 →
  (∃ st', MixingOptions env st = (Continue tt, st') ∧
     fEnableDarksend (darksend st') = true ∧
     nDarksendRounds (darksend st') = 99999) ∧
  (∀ code st', AppInit2_body env st = (Continue code, st') →
     fEnableDarksend (darksend st') = true ∧
     nDarksendRounds (darksend st') = 99999).
Proof.
  intros Hlp.
  assert (Hne : (to_int (GetArgInt env (mapArgs st) "-liquidityprovider" 0) =? 0) = false)
    by (apply Z.eqb_neq; exact Hlp).
  split.
  - destruct (MixingOptions_run env st) as (st' & HM & Hrun).
    exists st'. split; [exact HM|]. cbv zeta in Hrun.
    destruct Hrun as (_ & _ & Hen & Hrounds & _).
    rewrite Hen, Hrounds, Hne. auto.
  - intros code st' H. apply AppInit2_mixing in H. cbv zeta in H.
    destruct H as (_ & Hen & Hrounds & _).
    rewrite Hen, Hrounds, Hne. auto.
Qed.

Lemma liquidity_provider_forces_mixing_witness :
  (∃ st', MixingOptions env_ok node_liquidity = (Continue tt, st') ∧
     fEnableDarksend (darksend st') = true ∧
     nDarksendRounds (darksend st') = 99999) ∧
  (∀ code st', AppInit2_body env_ok node_liquidity = (Continue code, st') →
     fEnableDarksend (darksend st') = true ∧
     nDarksendRounds (darksend st') = 99999).
Proof. apply liquidity_provider_forces_mixing. vm_compute. discriminate. Defined.

Example liquidity_run :
  (AppInit2 env_ok node_liquidity).1 = 1 ∧
  GetBoolArg env_ok (mapArgs node_liquidity) "-enabledarksend" true = false ∧
  fEnableDarksend (darksend (AppInit2 env_ok node_liquidity).2) = true ∧
  nDarksendRounds (darksend (AppInit2 env_ok node_liquidity).2) = 99999.
Proof. repeat split; vm_compute; reflexivity. Qed.

(** ** Proxy only *)

(** Evaluates option lookups in the goal, using [Hz : atoi env "0" = 0]. *)
Ltac run_args Hz :=
  cbn;
  repeat (progress (rewrite ?lookup_insert_eq, ?lookup_singleton_eq, ?Hz;
                    rewrite ?lookup_insert_ne by discriminate;
                    rewrite ?lookup_singleton_ne by discriminate); cbn).

Lemma ParameterInteraction_proxy_only env st addr :
  atoi env "0" = 0 →
  mapArgs st = {[ "-proxy" := addr ]} →
  ∃ st', ParameterInteraction env st = (Continue tt, st') ∧
    mapArgs st' !! "-listen" = Some "0" ∧
    mapArgs st' !! "-discover" = Some "0".
Proof.
  intros Hz Hargs. destruct st as [m mm ss sso fl nt wl ds fr cs tr]. simpl in Hargs. subst m.
  unfold ParameterInteraction.
  unfold bind, when, count_arg, soft_set_logged, soft_set_bool, get_bool_arg, index_multi,
    get, ret, bind, SoftSetBoolArg, SoftSetArg, GetBoolArg.
  destruct (TestNet env); run_args Hz; (eexists; split; [reflexivity|]); run_args Hz; auto.
Qed.

Lemma lookup_proxy_only (addr k : string) :
  k ≠ "-proxy" → ({[ "-proxy" := addr ]} : gmap string string) !! k = None.
Proof. intros H. by apply lookup_singleton_ne. Qed.

(** The options the network setup reads, after everything before it, when
    only -proxy was given. *)
Lemma BeforeNetwork_proxy_only env st addr st1 :
  atoi env "0" = 0 →
  mapArgs st = {[ "-proxy" := addr ]} →
  BeforeNetwork env st = (Continue tt, st1) →
  mapArgs st1 !! "-listen" = Some "0" ∧
  mapArgs st1 !! "-discover" = Some "0" ∧
  mapArgs st1 !! "-proxy" = Some addr ∧
  mapArgs st1 !! "-tor" = None ∧
  mapArgs st1 !! "-onlynet" = None ∧
  mapArgs st1 !! "-externalip" = None ∧
  mapArgs st1 !! "-dns" = None ∧
  vfLimited (net st1) = vfLimited (net st).
Proof.
  intros Hz Hargs H. unfold BeforeNetwork in H.
  peel H s1 H1. peel H s2 H2. peel H s3 H3.
  assert (Hs2 : mapArgs s2 = {[ "-proxy" := addr ]}).
  { by_respects H1 (keeps mapArgs) ltac:(respects_with keeps_atom).
    by_respects H2 (keeps mapArgs) ltac:(respects_with keeps_atom).
    unfold keeps in *. congruence. }
  assert (Hlim : vfLimited (net st1) = vfLimited (net st)).
  { by_respects H1 (keeps (λ s, vfLimited (net s))) ltac:(respects_with keeps_atom).
    by_respects H2 (keeps (λ s, vfLimited (net s))) ltac:(respects_with keeps_atom).
    by_respects H3 (keeps (λ s, vfLimited (net s))) ltac:(respects_with keeps_atom).
    by_respects H (keeps (λ s, vfLimited (net s))) ltac:(respects_with keeps_atom).
    unfold keeps in *. congruence. }
  destruct (ParameterInteraction_proxy_only env s2 addr Hz Hs2) as (s3' & E & Hl & Hd).
  rewrite H3 in E. injection E as <-.
  assert (Hother : ∀ k, k ≠ "-irc" → k ≠ "-listen" → k ≠ "-dnsseed" → k ≠ "-discover" →
                        k ≠ "-upnp" → k ≠ "-rescan" → mapArgs s3 !! k = mapArgs s2 !! k).
  { intros k ? ? ? ? ? ?. eapply (ParameterInteraction_fills env k); eauto. }
  assert (Hlater : ∀ k, k ≠ "-paytxfee" → k ≠ "-mininput" → mapArgs st1 !! k = mapArgs s3 !! k).
  { intros k ? ?. by_respects H (keeps (λ s, mapArgs s !! k)) ltac:(respects_with arg_atom).
    exact H. }
  repeat split; try exact Hlim;
    rewrite Hlater by discriminate; try assumption;
    rewrite Hother by discriminate; rewrite Hs2.
  - apply lookup_singleton_eq.
  - by apply lookup_proxy_only.
  - by apply lookup_proxy_only.
  - by apply lookup_proxy_only.
  - by apply lookup_proxy_only.
Qed.

Lemma NetworkSetup_proxy_only env st addr :
  atoi env "0" = 0 →
  IsValid env (ServiceOfString addr 9050 false) = true →
  mapArgs st !! "-listen" = Some "0" →
  mapArgs st !! "-discover" = Some "0" →
  mapArgs st !! "-proxy" = Some addr →
  mapArgs st !! "-tor" = None →
  mapArgs st !! "-onlynet" = None →
  mapArgs st !! "-externalip" = None →
  mapArgs st !! "-dns" = None →
  vfLimited (net st) = ∅ →
  ∃ st', NetworkSetup env st = (Continue tt, st') ∧
    fNoListen (net st') = true ∧
    fDiscover (net st') = false ∧
    proxyInfo (net st') !! NET_IPV4 = Some (ServiceOfString addr 9050 false) ∧
    proxyInfo (net st') !! NET_IPV6 = Some (ServiceOfString addr 9050 false) ∧
    trace st' = (trace st ++ [EvRegisterNodeSignals; EvSetReachable NET_TOR])%list.
Proof.
  intros Hz Hv Hl Hd Hp Ht Ho He Hn Hlim.
  unfold NetworkSetup, OnlyNet, ProxySetup, TorSetup, ListenSetup, ListenFlags, ListenSockets,
    ExternalIP.
  unfold SetProxy, SetNameProxy, IsLimited, emit, when, count_arg, index_arg, get_bool_arg,
    return_bool, InitError, bind, get, ret, modify, GetBoolArg, emit, bind, modify.
  cbn.
  repeat (progress (rewrite ?Hl, ?Hd, ?Hp, ?Ht, ?Ho, ?He, ?Hn, ?Hlim, ?Hz, ?Hv;
                    rewrite ?bool_decide_eq_false_2 by apply not_elem_of_empty); cbn).
  eexists. split; [reflexivity|]. cbn.
  repeat split.
  - rewrite lookup_insert_ne by discriminate. rewrite lookup_insert_ne by discriminate.
    apply lookup_insert_eq.
  - rewrite lookup_insert_ne by discriminate. apply lookup_insert_eq.
  - rewrite <- app_assoc. reflexivity.
Qed.

(** C8.  When -proxy is the only option set, everything before the network
    setup leaves -listen and -discover resolved to off, and the network
    setup then runs to its end with listening and address discovery off,
    the proxy registered for IPv4 and for IPv6, and no listen socket
    touched.  Assumed of the surroundings: the option text 0 reads as the
    number 0, no network class is limited when AppInit2 starts, the proxy
    address is a valid one, and the steps before the network setup do not
    stop the run. *)
Theorem proxy_only_disables_listen env st addr st1 :
  atoi env "0" = 0 →
  mapArgs st = {[ "-proxy" := addr ]} →
  vfLimited (net st) = ∅ →
  IsValid env (ServiceOfString addr 9050 false) = true →
  BeforeNetwork env st = (Continue tt, st1) →
  GetBoolArg env (mapArgs st1) "-listen" true = false ∧
  GetBoolArg env (mapArgs st1) "-discover" true = false ∧
  ∃ st2, NetworkSetup env st1 = (Continue tt, st2) ∧
    fNoListen (net st2) = true ∧
    fDiscover (net st2) = false ∧
    proxyInfo (net st2) !! NET_IPV4 = Some (ServiceOfString addr 9050 false) ∧
    proxyInfo (net st2) !! NET_IPV6 = Some (ServiceOfString addr 9050 false) ∧
    trace st2 = (trace st1 ++ [EvRegisterNodeSignals; EvSetReachable NET_TOR])%list.
Proof.
  intros Hz Hargs Hlim Hv H.
  destruct (BeforeNetwork_proxy_only _ _ _ _ Hz Hargs H)
    as (Hl & Hd & Hp & Ht & Ho & He & Hn & Hlim').
  rewrite Hlim in Hlim'.
  split; [|split].
  - unfold GetBoolArg. rewrite Hl. cbn. rewrite Hz. reflexivity.
  - unfold GetBoolArg. rewrite Hd. cbn. rewrite Hz. reflexivity.
  - by apply NetworkSetup_proxy_only.
Qed.

Lemma proxy_only_disables_listen_witness :
  ∃ st1, BeforeNetwork env_ok node_proxy_only = (Continue tt, st1) ∧
    GetBoolArg env_ok (mapArgs st1) "-listen" true = false ∧
    GetBoolArg env_ok (mapArgs st1) "-discover" true = false ∧
    ∃ st2, NetworkSetup env_ok st1 = (Continue tt, st2) ∧
      fNoListen (net st2) = true ∧
      fDiscover (net st2) = false ∧
      proxyInfo (net st2) !! NET_IPV4 = Some (ServiceOfString "127.0.0.1:9050" 9050 false) ∧
      proxyInfo (net st2) !! NET_IPV6 = Some (ServiceOfString "127.0.0.1:9050" 9050 false) ∧
      trace st2 = (trace st1 ++ [EvRegisterNodeSignals; EvSetReachable NET_TOR])%list.
Proof.
  destruct (BeforeNetwork env_ok node_proxy_only) as [[[]|c] st1] eqn:E.
  - exists st1. split; [reflexivity|].
    apply (proxy_only_disables_listen env_ok node_proxy_only "127.0.0.1:9050" st1).
    + reflexivity.
    + reflexivity.
    + reflexivity.
    + reflexivity.
    + exact E.
  - exfalso. vm_compute in E. discriminate E.
Defined.

Example proxy_only_run :
  (AppInit2 env_ok node_proxy_only).1 = 1 ∧
  fNoListen (net (AppInit2 env_ok node_proxy_only).2) = true ∧
  fDiscover (net (AppInit2 env_ok node_proxy_only).2) = false ∧
  Forall (λ e, is_bind e = false) (trace (AppInit2 env_ok node_proxy_only).2).
Proof.
  repeat split; try (vm_compute; reflexivity). vm_compute. repeat constructor.
Qed.

(** ** Wallet rescan *)

Lemma rescan_needed_heights pBest pRescan :
  rescan_needed pBest pRescan = true →
  ∃ b r, pBest = Some b ∧ pRescan = Some r ∧ nHeight r < nHeight b.
Proof.
  unfold rescan_needed. intros H. apply andb_true_iff in H as [_ H].
  destruct pBest as [b|], pRescan as [r|]; try discriminate.
  exists b, r. repeat split. by apply Z.ltb_lt.
Qed.

Lemma rescan_not_needed b r pBest pRescan :
  pBest = Some b → pRescan = Some r → nHeight b ≤ nHeight r →
  rescan_needed pBest pRescan = false.
Proof.
  intros -> -> H. unfold rescan_needed.
  apply andb_false_iff. right. apply Z.ltb_ge. exact H.
Qed.

Lemma RescanStart_run env st :
  RescanStart env st =
    (Continue (if GetBoolArg env (mapArgs st) "-rescan" false then pindexGenesisBlock env
               else match ReadBestBlock env with
                    | Some p => p
                    | None => pindexGenesisBlock env
                    end), st).
Proof.
  unfold RescanStart, get_bool_arg, bind, get, ret. simpl.
  destruct (GetBoolArg env (mapArgs st) "-rescan" false); [reflexivity|].
  destruct (ReadBestBlock env); reflexivity.
Qed.

Lemma Rescan_run env st pStart :
  RescanStart env st = (Continue pStart, st) →
  Rescan env st =
    (Continue tt,
     if rescan_needed (pindexBest env) pStart
     then in_wallet (λ w, set_nWalletDBUpdated (nWalletDBUpdated w + 1) w)
            (set_trace (trace st ++ [EvScanForWalletTransactions pStart;
                                     EvSetBestChain (pindexBest env)]) st)
     else st).
Proof.
  intros H. unfold Rescan. erewrite bind_continue by exact H. cbv beta.
  unfold when. destruct (rescan_needed (pindexBest env) pStart); [|reflexivity].
  unfold bind, emit, modify. simpl. rewrite <- app_assoc. reflexivity.
Qed.

Lemma AppInit2_body_scans env : respects (emits (scan_justified env)) (AppInit2_body env).
Proof. respects_with ltac:(emits_atom ltac:(first [exact I | assumption])). Qed.

(** C6.  The rescan start is the genesis block when -rescan is on, else the
    block the wallet's best-block locator resolves to, else the genesis
    block; finding it changes nothing.  The wallet is scanned from there
    only when both pointers are non-null and the best block is strictly
    higher, and is left alone when the start is at least as high as the
    best block.  In a whole run of AppInit2, too, every scan that is started
    starts strictly below the best block. *)
Theorem rescan_start_and_span env st :
  ∃ pStart st',
    RescanStart env st = (Continue pStart, st) ∧
    pStart = (if GetBoolArg env (mapArgs st) "-rescan" false then pindexGenesisBlock env
              else match ReadBestBlock env with
                   | Some p => p
                   | None => pindexGenesisBlock env
                   end) ∧
    Rescan env st = (Continue tt, st') ∧
    ((∃ b r, pindexBest env = Some b ∧ pStart = Some r ∧ nHeight r < nHeight b ∧
             trace st' = (trace st ++ [EvScanForWalletTransactions pStart;
                                       EvSetBestChain (pindexBest env)])%list)
     ∨ st' = st) ∧
    (∀ b r, pindexBest env = Some b → pStart = Some r → nHeight b ≤ nHeight r → st' = st) ∧
    (∀ evs, trace (AppInit2 env st).2 = (trace st ++ evs)%list →
       ∀ p, EvScanForWalletTransactions p ∈ evs →
         ∃ b r, pindexBest env = Some b ∧ p = Some r ∧ nHeight r < nHeight b).
Proof.
  pose proof (RescanStart_run env st) as Hstart.
  pose proof (Rescan_run env st _ Hstart) as Hrun.
  eexists _, _. split; [exact Hstart|]. split; [reflexivity|]. split; [exact Hrun|].
  split; [|split].
  - destruct (rescan_needed (pindexBest env) _) eqn:E; [left|right; reflexivity].
    apply rescan_needed_heights in E as (b & r & Hb & Hr & Hlt).
    exists b, r. repeat split; assumption.
  - intros b r Hb Hr Hle. by rewrite (rescan_not_needed b r _ _ Hb Hr Hle).
  - intros evs Hevs p Hin. unfold AppInit2 in Hevs.
    destruct (AppInit2_body env st) as [r st'] eqn:E.
    apply AppInit2_body_scans in E as (evs' & Ht & Hall).
    assert (trace st' = (trace st ++ evs)%list) as Ht' by (destruct r; exact Hevs).
    rewrite Ht in Ht'. apply app_inv_head in Ht'. subst evs'.
    rewrite Forall_forall in Hall. apply Hall in Hin.
    by apply rescan_needed_heights in Hin.
Qed.

Example rescan_from_checkpoint :
  Rescan env_ok (node0 []) =
    (Continue tt,
     in_wallet (set_nWalletDBUpdated 1)
       (set_trace [EvScanForWalletTransactions (Some genesis); EvSetBestChain (Some tip)]
          (node0 []))).
Proof. vm_compute. reflexivity. Qed.

(** ** Seen-stake collections *)

Lemma InitializeCollections_run env st :
  InitializeCollections env st =
    (Continue tt,
     set_setStakeSeenOrphan
       (set_deleted_key (COutPoint_null env, UINT_MAX - 1)
          (set_empty_key (COutPoint_null env, UINT_MAX) (setStakeSeenOrphan st)))
       (set_setStakeSeen
          (set_empty_key (COutPoint_null env, UINT_MAX) (setStakeSeen st)) st)).
Proof. reflexivity. Qed.

Lemma dhs_insert_reserved k s : is_reserved s k = true → dhs_insert k s = None.
Proof. intros H. unfold dhs_insert. destruct (empty_key s); [by rewrite H | reflexivity]. Qed.

(** Inserting keeps the reserved keys out of the stored ones. *)
Lemma dhs_insert_clean k s s' :
  dhs_insert k s = Some s' →
  (∀ x, dhs_count x s = true → is_reserved s x = false) →
  empty_key s' = empty_key s ∧ deleted_key s' = deleted_key s ∧
  (∀ x, dhs_count x s' = true → is_reserved s' x = false).
Proof.
  unfold dhs_insert. intros H Hclean.
  destruct s as [ek dk els]. simpl in *.
  destruct ek as [e|]; [|discriminate].
  destruct (is_reserved (MkDenseSet (Some e) dk els) k) eqn:Er; [discriminate|].
  destruct (dhs_count k (MkDenseSet (Some e) dk els)) eqn:Ec; injection H as <-; [auto|].
  simpl. repeat split. intros x Hx.
  unfold dhs_count in Hx. apply bool_decide_eq_true in Hx. simpl in Hx.
  apply elem_of_cons in Hx as [->|Hx].
  - exact Er.
  - apply (Hclean x). unfold dhs_count. by apply bool_decide_eq_true.
Qed.

(** C7 (as amended).  InitializeCollections gives the orphan set both
    reserved keys, the empty one (null outpoint, UINT_MAX) and the deleted
    one (null outpoint, UINT_MAX - 1), which differ; the main-chain set gets
    the same empty key and nothing else: its deleted key is left as it
    was.  A key with another outpoint, or a timestamp below UINT_MAX - 1, is
    none of these; and a set refuses to store a key reserved in it. *)
Theorem stake_set_sentinels env st :
  ∃ st', InitializeCollections env st = (Continue tt, st') ∧
    empty_key (setStakeSeen st') = Some (COutPoint_null env, UINT_MAX) ∧
    deleted_key (setStakeSeen st') = deleted_key (setStakeSeen st) ∧
    empty_key (setStakeSeenOrphan st') = Some (COutPoint_null env, UINT_MAX) ∧
    deleted_key (setStakeSeenOrphan st') = Some (COutPoint_null env, UINT_MAX - 1) ∧
    (COutPoint_null env, UINT_MAX) ≠ (COutPoint_null env, UINT_MAX - 1) ∧
    (∀ k : StakeKey, k.1 ≠ COutPoint_null env ∨ k.2 < UINT_MAX - 1 →
       k ≠ (COutPoint_null env, UINT_MAX) ∧ k ≠ (COutPoint_null env, UINT_MAX - 1) ∧
       is_reserved (setStakeSeenOrphan st') k = false) ∧
    (∀ k, is_reserved (setStakeSeen st') k = true → dhs_insert k (setStakeSeen st') = None) ∧
    (∀ k, is_reserved (setStakeSeenOrphan st') k = true →
          dhs_insert k (setStakeSeenOrphan st') = None).
Proof.
  eexists. split; [apply InitializeCollections_run|]. simpl.
  split; [reflexivity|]. split; [reflexivity|]. split; [reflexivity|].
  split; [reflexivity|].
  assert (Hne : ∀ k : StakeKey, k.1 ≠ COutPoint_null env ∨ k.2 < UINT_MAX - 1 →
            k ≠ (COutPoint_null env, UINT_MAX) ∧ k ≠ (COutPoint_null env, UINT_MAX - 1)).
  { intros [o t] H. simpl in H. unfold UINT_MAX in *.
    split; intros [= -> ->]; destruct H as [H|H]; try congruence; lia. }
  split; [|split; [|split]].
  - intros H. apply (f_equal snd) in H. simpl in H. unfold UINT_MAX in H. lia.
  - intros k H. destruct (Hne k H) as [H1 H2]. split; [exact H1|]. split; [exact H2|].
    unfold is_reserved. simpl. apply orb_false_iff.
    split; apply bool_decide_eq_false; congruence.
  - intros k. apply dhs_insert_reserved.
  - intros k. apply dhs_insert_reserved.
Qed.

(** C7, as the spec states it, fails for the main-chain set: after startup
    it has no deleted key, and the key that is the orphan set's deleted
    sentinel can be stored in it. *)
Lemma main_chain_set_without_deleted_key :
  deleted_key (setStakeSeen node_running) = None ∧
  deleted_key (setStakeSeenOrphan node_running) = Some (COutPoint_null env_ok, UINT_MAX - 1) ∧
  dhs_insert (COutPoint_null env_ok, UINT_MAX - 1) (setStakeSeen node_running) ≠ None.
Proof.
  split; [vm_compute; reflexivity|]. split; [vm_compute; reflexivity|].
  vm_compute. discriminate.
Qed.

(** ** Shutdown *)

Lemma Shutdown_run env tid st :
  cs_Shutdown st = None →
  trace (Shutdown env tid st) =
    (trace st ++ (if pwalletMain (wallet st) then teardown_events_wallet env
                  else teardown_events_no_wallet))%list ∧
  pwalletMain (wallet (Shutdown env tid st)) = false ∧
  cs_Shutdown (Shutdown env tid st) = None.
Proof.
  intros Hfree.
  destruct st as [m mm ss sso fl nt [b f1 f2 f3 f4] ds fr cs tr]. simpl in Hfree. subst cs.
  destruct b; cbv -[app pindexBest]; rewrite <- ?app_assoc; auto.
Qed.

Lemma Shutdown_in_progress env tid st owner :
  cs_Shutdown st = Some owner → Shutdown env tid st = st.
Proof. intros H. unfold Shutdown. by rewrite H. Qed.

Lemma in_orderb_complete ps tr : in_order ps tr → in_orderb ps tr = true.
Proof.
  revert tr. induction ps as [|p ps IH]; intros tr; simpl; [reflexivity|].
  intros (pre & e & post & -> & Hp & Hrest).
  induction pre as [|x pre IHpre]; simpl.
  - rewrite Hp, (IH _ Hrest). reflexivity.
  - rewrite IHpre. apply orb_true_r.
Qed.

(** C5 (as amended).  A call of Shutdown that gets the lock performs, with
    a wallet: stop RPC threads, secure-message shutdown, stop RPC mining,
    flush the wallet database, stop peer networking, write the best-chain
    pointer, flush the wallet database for good, remove the pid file,
    unregister the wallets, delete the wallet; without a wallet the flushes,
    the best-chain write and the delete are left out. *)
Theorem shutdown_order env tid st :
  cs_Shutdown st = None →
  trace (Shutdown env tid st) =
    (trace st ++
     (if pwalletMain (wallet st)
      then [EvAddTransactionsUpdated; EvStopRPCThreads; EvSecureMsgShutdown;
            EvShutdownRPCMining; EvFlush false; EvStopNode;
            EvSetBestChain (pindexBest env); EvFlush true; EvRemovePidFile;
            EvUnregisterAllWallets; EvDeleteWallet]
      else [EvAddTransactionsUpdated; EvStopRPCThreads; EvSecureMsgShutdown;
            EvShutdownRPCMining; EvStopNode; EvRemovePidFile;
            EvUnregisterAllWallets]))%list.
Proof. intros H. by apply Shutdown_run. Qed.

Lemma shutdown_order_witness :
  trace (Shutdown env_ok 0 node_running) =
    (trace node_running ++
     (if pwalletMain (wallet node_running)
      then [EvAddTransactionsUpdated; EvStopRPCThreads; EvSecureMsgShutdown;
            EvShutdownRPCMining; EvFlush false; EvStopNode;
            EvSetBestChain (pindexBest env_ok); EvFlush true; EvRemovePidFile;
            EvUnregisterAllWallets; EvDeleteWallet]
      else [EvAddTransactionsUpdated; EvStopRPCThreads; EvSecureMsgShutdown;
            EvShutdownRPCMining; EvStopNode; EvRemovePidFile;
            EvUnregisterAllWallets]))%list.
Proof. apply shutdown_order. vm_compute. reflexivity. Defined.

(** C5, as the spec states it, fails: the events of a shutdown of the
    running node do not contain, in this order, a stop of the RPC threads,
    a best-chain write, a wallet flush, a stop of peer networking, a file
    removal and a release; peer networking stops before the best-chain
    pointer is written. *)
Lemma shutdown_not_in_claimed_order :
  pwalletMain (wallet node_running) = true ∧
  ¬ in_order [is_stop_rpc; is_set_best_chain; is_flush; is_stop_node; is_remove_file;
              is_release]
      (drop (length (trace node_running)) (trace (Shutdown env_ok 0 node_running))) ∧
  in_order [is_stop_node; is_set_best_chain]
    (drop (length (trace node_running)) (trace (Shutdown env_ok 0 node_running))).
Proof.
  split; [vm_compute; reflexivity|]. split.
  - intros H. apply in_orderb_complete in H. vm_compute in H. discriminate H.
  - exists [EvAddTransactionsUpdated; EvStopRPCThreads; EvSecureMsgShutdown;
            EvShutdownRPCMining; EvFlush false], EvStopNode.
    eexists. split; [vm_compute; reflexivity|]. split; [reflexivity|].
    exists [], (EvSetBestChain (Some tip)). eexists.
    split; [reflexivity|]. split; [reflexivity | exact I].
Qed.

(** *** Repeated and concurrent calls *)

Lemma teardown_keeps_lock env n f st :
  teardown env !! n = Some f → cs_Shutdown (f st) = cs_Shutdown st.
Proof.
  unfold teardown. intros H.
  do 11 (destruct n as [|n]; [injection H as <-; unfold if_wallet, record;
                              try destruct (pwalletMain (wallet st)); reflexivity|]).
  discriminate H.
Qed.

Lemma step_exclusive env c c' : step env c c' → exclusive c → exclusive c'.
Proof.
  intros Hstep Hex. destruct Hstep as [pcs st tid pc Hpc].
  unfold exclusive in *. simpl in *. intros t n Ht.
  destruct (decide (t = tid)) as [->|Hne].
  - rewrite lookup_insert_eq in Ht. injection Ht as Ht.
    destruct pc as [| |k]; simpl in *.
    + discriminate.
    + destruct (cs_Shutdown st); simpl in *; [discriminate|reflexivity].
    + destruct (teardown env !! k) as [f|] eqn:Ef; simpl in *; [|discriminate].
      rewrite (teardown_keeps_lock env k f st Ef). by eapply Hex.
  - rewrite lookup_insert_ne in Ht by congruence.
    pose proof (Hex t n Ht) as Hown.
    destruct pc as [| |k]; simpl in *.
    + exact Hown.
    + rewrite Hown. simpl. exact Hown.
    + pose proof (Hex tid k Hpc) as Hown'. congruence.
Qed.

Lemma steps_keep_exclusive env c c' : steps env c c' → exclusive c → exclusive c'.
Proof.
  intros Hsteps. induction Hsteps as [c|c1 c2 c3 Hstep Hrest IH]; [auto|].
  intros Hex. apply IH. by eapply step_exclusive.
Qed.

Lemma quiescent_exclusive c : quiescent c → exclusive c.
Proof. intros [_ Hout] t n Ht. apply Hout in Ht. discriminate. Qed.

Lemma one_thread_step env tid pc st :
  step env ({[tid := pc]}, st)
    ({[tid := (thread_step env tid pc st).1]}, (thread_step env tid pc st).2).
Proof.
  rewrite <- (insert_singleton_eq tid (thread_step env tid pc st).1 pc).
  apply step_thread. apply lookup_singleton_eq.
Qed.

Lemma one_thread_run env tid pc st c :
  steps env ({[tid := (thread_step env tid pc st).1]}, (thread_step env tid pc st).2) c →
  steps env ({[tid := pc]}, st) c.
Proof. intros H. eapply rtc_l; [apply one_thread_step | exact H]. Qed.

(** From inside the body a thread runs the remaining statements and
    releases the lock. *)
Lemma body_run env tid n st :
  steps env ({[tid := InBody n]}, st)
    ({[tid := Outside]}, set_cs_Shutdown None (run (drop n (teardown env)) st)).
Proof.
  remember (length (teardown env) - n)%nat as k eqn:Hk.
  revert n st Hk. induction k as [|k IH]; intros n st Hk.
  - apply one_thread_run. simpl.
    rewrite (lookup_ge_None_2 (teardown env) n) by lia.
    rewrite drop_ge by lia. simpl. apply rtc_refl.
  - apply one_thread_run. simpl.
    destruct (lookup_lt_is_Some_2 (teardown env) n) as [f Hf]; [lia|].
    rewrite Hf. simpl. rewrite (drop_S _ _ _ Hf). simpl.
    apply IH. lia.
Qed.

(** [Shutdown] is what a thread that finds the lock free does, step by
    step, from the call to the return. *)
Lemma Shutdown_is_a_run env tid st :
  cs_Shutdown st = None →
  steps env ({[tid := Outside]}, st) ({[tid := Outside]}, Shutdown env tid st).
Proof.
  intros Hfree. apply one_thread_run. simpl. apply one_thread_run. simpl.
  rewrite Hfree. simpl. unfold Shutdown. rewrite Hfree. apply (body_run env tid 0).
Qed.

(** C4 (as amended).  A caller that finds a shutdown in progress returns
    with nothing done, and among any number of threads calling Shutdown at
    most one is past the lock test at a time.  The lock is released when
    the call returns: a call made after an earlier one has returned gets
    the lock and runs the teardown again, without the wallet steps, the
    wallet pointer having been cleared. *)
Theorem shutdown_excludes_concurrent_callers env :
  (∀ tid st owner, cs_Shutdown st = Some owner →
     Shutdown env tid st = st ∧ thread_step env tid AtTryLock st = (Outside, st)) ∧
  (∀ c c', quiescent c → steps env c c' →
     ∀ t1 t2 n1 n2,
       c'.1 !! t1 = Some (InBody n1) → c'.1 !! t2 = Some (InBody n2) → t1 = t2) ∧
  (∀ tid tid' st, cs_Shutdown st = None →
     cs_Shutdown (Shutdown env tid st) = None ∧
     trace (Shutdown env tid' (Shutdown env tid st)) =
       (trace (Shutdown env tid st) ++ teardown_events_no_wallet)%list).
Proof.
  split; [|split].
  - intros tid st owner H. split; [by eapply Shutdown_in_progress|].
    simpl. by rewrite H.
  - intros c c' Hq Hsteps t1 t2 n1 n2 H1 H2.
    pose proof (steps_keep_exclusive env c c' Hsteps (quiescent_exclusive c Hq)) as Hex.
    pose proof (Hex t1 n1 H1) as E1. pose proof (Hex t2 n2 H2) as E2. congruence.
  - intros tid tid' st Hfree.
    destruct (Shutdown_run env tid st Hfree) as (_ & Hw & Hl).
    split; [exact Hl|].
    destruct (Shutdown_run env tid' _ Hl) as (Ht & _). rewrite Ht, Hw. reflexivity.
Qed.

Lemma shutdown_excludes_concurrent_callers_witness :
  Shutdown env_ok 1 (set_cs_Shutdown (Some 0%nat) node_running)
    = set_cs_Shutdown (Some 0%nat) node_running ∧
  trace (Shutdown env_ok 1 (Shutdown env_ok 0 node_running)) =
    (trace (Shutdown env_ok 0 node_running) ++ teardown_events_no_wallet)%list.
Proof.
  destruct (shutdown_excludes_concurrent_callers env_ok) as (H1 & _ & H3). split.
  - apply (H1 1%nat (set_cs_Shutdown (Some 0%nat) node_running) 0%nat). reflexivity.
  - apply (H3 0%nat 1%nat node_running). reflexivity.
Defined.

(** C4, as the spec states it, fails: Shutdown called a second time, after
    the first call has returned, stops the RPC threads and peer networking
    a second time. *)
Lemma shutdown_twice_tears_down_twice :
  length (List.filter is_stop_rpc (trace node_running)) = 0%nat ∧
  length (List.filter is_stop_rpc
            (trace (Shutdown env_ok 1 (Shutdown env_ok 0 node_running)))) = 2%nat ∧
  length (List.filter is_stop_node
            (trace (Shutdown env_ok 1 (Shutdown env_ok 0 node_running)))) = 2%nat.
Proof. repeat split; vm_compute; reflexivity. Qed.

(** ** The example run, end to end *)

Lemma rescan_start_and_span_witness :
  ∃ pStart st',
    RescanStart env_ok (node0 []) = (Continue pStart, node0 []) ∧
    pStart = (if GetBoolArg env_ok (mapArgs (node0 [])) "-rescan" false
              then pindexGenesisBlock env_ok
              else match ReadBestBlock env_ok with
                   | Some p => p
                   | None => pindexGenesisBlock env_ok
                   end) ∧
    Rescan env_ok (node0 []) = (Continue tt, st') ∧
    ((∃ b r, pindexBest env_ok = Some b ∧ pStart = Some r ∧ nHeight r < nHeight b ∧
             trace st' = (trace (node0 []) ++ [EvScanForWalletTransactions pStart;
                                               EvSetBestChain (pindexBest env_ok)])%list)
     ∨ st' = node0 []) ∧
    (∀ b r, pindexBest env_ok = Some b → pStart = Some r → nHeight b ≤ nHeight r →
            st' = node0 []) ∧
    (∀ evs, trace (AppInit2 env_ok (node0 [])).2 = (trace (node0 []) ++ evs)%list →
       ∀ p, EvScanForWalletTransactions p ∈ evs →
         ∃ b r, pindexBest env_ok = Some b ∧ p = Some r ∧ nHeight r < nHeight b).
Proof. apply rescan_start_and_span. Defined.

Example startup_then_shutdown :
  (AppInit2 env_ok (node0 [])).1 = 1 ∧
  pwalletMain (wallet node_running) = true ∧
  pwalletMain (wallet (Shutdown env_ok 0 node_running)) = false ∧
  cs_Shutdown (Shutdown env_ok 0 node_running) = None.
Proof. repeat split; vm_compute; reflexivity. Qed.

(** * Further properties of the code *)

(** ** Early returns and their codes *)

Lemma run_bind {A B} (m : Init A) (f : A → Init B) st r st' :
  bind m f st = (r, st') →
  ∃ r1 s1, m st = (r1, s1) ∧
    match r1 with
    | Continue a => f a s1 = (r, st')
    | Exit c => r = Exit c ∧ st' = s1
    end.
Proof.
  unfold bind. destruct (m st) as [[a|c] s1]; intros H.
  - exists (Continue a), s1. auto.
  - exists (Exit c), s1. injection H as <- <-. auto.
Qed.

Section ExitCodes.
Context (C : Z → Prop).

Lemma exits_ret {A} (a : A) : exits_in C (ret a).
Proof. intros st c st' H. discriminate H. Qed.

Lemma exits_get : exits_in C get.
Proof. intros st c st' H. discriminate H. Qed.

Lemma exits_modify f : exits_in C (modify f).
Proof. intros st c st' H. discriminate H. Qed.

Lemma exits_emit e : exits_in C (emit e).
Proof. apply exits_modify. Qed.

Lemma exits_exit {A} c : C c → exits_in C (@exit A c).
Proof. intros Hc st c' st' [= <- <-]. exact Hc. Qed.

Lemma exits_bind {A B} (m : Init A) (f : A → Init B) :
  exits_in C m → (∀ a, exits_in C (f a)) → exits_in C (bind m f).
Proof.
  intros Hm Hf st c st' H. apply bind_inv in H as [(c' & H & [= ->])|(a & s1 & _ & H)].
  - eapply Hm, H.
  - eapply Hf, H.
Qed.

Lemma exits_when b (m : Init unit) : (b = true → exits_in C m) → exits_in C (when b m).
Proof. destruct b; simpl; [auto | intros _; apply exits_ret]. Qed.

Lemma exits_foreach {A} (l : list A) (body : A → Init unit) :
  (∀ x, exits_in C (body x)) → exits_in C (foreach l body).
Proof.
  intros Hb. induction l as [|x l IH]; simpl.
  - apply exits_ret.
  - apply exits_bind; [apply Hb | intros _; exact IH].
Qed.

Lemma exits_index_arg k : exits_in C (index_arg k).
Proof. intros st c st'. unfold index_arg. destruct (mapArgs st !! k); discriminate. Qed.

Lemma exits_index_multi k : exits_in C (index_multi k).
Proof. intros st c st'. unfold index_multi. destruct (mapMultiArgs st !! k); discriminate. Qed.

Lemma exits_soft_set_bool k v : exits_in C (soft_set_bool k v).
Proof. intros st c st'. unfold soft_set_bool. discriminate. Qed.

(** [return InitError(...)] returns 0: InitError answers false. *)
Lemma exits_return_InitError {A} str : C 0 → exits_in C (@return_bool A (InitError str)).
Proof.
  intros H0 st c st'. unfold return_bool, InitError, emit, bind, modify, ret, exit.
  intros [= <- <-]. exact H0.
Qed.

Lemma exits_onlynet_collect env l nets :
  C 0 → exits_in C (onlynet_collect env l nets).
Proof.
  intros H0. revert nets. induction l as [|snet l IH]; intros nets; simpl.
  - apply exits_ret.
  - apply exits_bind; [apply exits_when; intros _; apply exits_modify|intros _].
    apply exits_bind; [|intros _; apply IH].
    apply exits_when; intros _. by apply exits_return_InitError.
Qed.

Lemma exits_RebuildAddressIndex env b : exits_in C (RebuildAddressIndex env b).
Proof.
  revert b. fix IH 1. intros [hash height prev]; simpl.
  apply exits_bind; [apply exits_when; intros _; apply exits_emit|intros _].
  destruct prev as [p|]; [apply IH|apply exits_ret].
Qed.

(** The instance guard is the one place that returns EEXIST. *)
Lemma exits_LockDataDirectory env :
  (lock_try_lock env = false → C EEXIST) → exits_in C (LockDataDirectory env).
Proof.
  intros H st c st'.
  unfold LockDataDirectory, InitError_code, when, emit, bind, modify, ret, exit.
  destruct (lock_try_lock env); simpl; [discriminate|].
  intros [= <- <-]. by apply H.
Qed.

End ExitCodes.

(** Walks through a computation, collecting what its early returns need;
    [side] proves the facts about codes. *)
Ltac exits_with side :=
  repeat first
    [ apply exits_ret | apply exits_get | apply exits_modify | apply exits_emit
    | apply exits_index_arg | apply exits_index_multi | apply exits_soft_set_bool
    | apply exits_return_InitError; side
    | apply exits_exit; side
    | apply exits_LockDataDirectory; side
    | apply exits_onlynet_collect; side
    | apply exits_RebuildAddressIndex
    | apply exits_bind; [| intros ?]
    | apply exits_when; intros ?
    | apply exits_foreach; intros ?
    | progress cbv beta zeta
    | lazymatch goal with
      | |- exits_in _ (if ?b then _ else _) => destruct b eqn:?
      | |- exits_in _ (match ?x with _ => _ end) => destruct x eqn:?
      | |- exits_in _ ?m => let h := head_of m in unfold h
      end ].

Lemma AppInit2_body_exits env :
  exits_in (λ c, c = 0 ∨ c = EEXIST ∧ lock_try_lock env = false) (AppInit2_body env).
Proof. exits_with ltac:(auto). Qed.

Lemma SelectParams_continues env st a st' :
  SelectParams env st = (Continue a, st') → SelectParamsFromCommandLine env = true.
Proof.
  unfold SelectParams. destruct (SelectParamsFromCommandLine env); [reflexivity|].
  simpl. discriminate.
Qed.

Lemma SanityCheck_continues env st a st' :
  SanityCheck env st = (Continue a, st') → ECC_InitSanityCheck env = true.
Proof.
  unfold SanityCheck, InitSanityCheck. destruct (ECC_InitSanityCheck env); [reflexivity|].
  unfold bind, InitError, emit, bind, modify, ret. simpl. discriminate.
Qed.

Lemma LockDataDirectory_continues env st a st' :
  LockDataDirectory env st = (Continue a, st') → lock_try_lock env = true.
Proof.
  unfold LockDataDirectory, InitError_code, when, emit, bind, modify, ret, exit.
  destruct (lock_try_lock env); [reflexivity|]. simpl. discriminate.
Qed.

Lemma ChainIndex_continues env st a st' :
  ChainIndex env st = (Continue a, st') → LoadBlockIndex env = true.
Proof.
  intros H. unfold ChainIndex in H. peel H s1 H1. peel H s2 H2. peel H s3 H3.
  destruct (LoadBlockIndex env); [reflexivity|].
  simpl in H3. discriminate H3.
Qed.

Lemma ImportAndAddresses_continues env st a st' :
  ImportAndAddresses env st = (Continue a, st') → CheckDiskSpace env = true.
Proof.
  intros H. unfold ImportAndAddresses in H.
  peel H s1 H1. peel H s2 H2. peel H s3 H3. peel H s4 H4.
  destruct (CheckDiskSpace env); [reflexivity|].
  simpl in H4. unfold StartShutdown, bind, modify, exit in H4. discriminate.
Qed.

Lemma StartServices_result env st c st' :
  StartServices env st = (Continue c, st') →
  c = Z.b2z (negb (fRequestShutdown (flags st'))) ∧
  ∃ evs, trace st' = (trace st ++ EvStartNode :: EvInitRPCMining :: EvStartRPCThreads :: evs)%list.
Proof.
  intros H. unfold StartServices in H.
  peel H s1 H1. peel H s2 H2. peel H s3 H3. peel H s4 H4. peel H s5 H5. peel H s6 H6.
  unfold ShutdownRequested, bind, get, ret in H. injection H as <- <-.
  split; [reflexivity|].
  unfold emit, modify in H1, H2, H3. injection H1 as <-. injection H2 as <-. injection H3 as <-.
  by_respects H4 (emits (λ _, True)) extends.
  by_respects H5 (emits (λ _, True)) extends.
  by_respects H6 (emits (λ _, True)) extends.
  destruct H4 as (e4 & E4 & _), H5 as (e5 & E5 & _), H6 as (e6 & E6 & _).
  exists (e4 ++ e5 ++ e6)%list. rewrite E6, E5, E4. simpl.
  rewrite <- !app_assoc. reflexivity.
Qed.

(** X1.  AppInit2 returns 0, 1 or EEXIST.  It returns EEXIST only when the
    lock on the data directory could not be taken.  It returns 1 only
    after its last statement, with no shutdown requested, the node, RPC
    mining and RPC threads started, and every mandatory collaborator having
    succeeded: chain parameters, sanity check, directory lock, block index
    and disk space. *)
Theorem AppInit2_return_codes env st :
  ((AppInit2 env st).1 = 0 ∨ (AppInit2 env st).1 = 1 ∨ (AppInit2 env st).1 = EEXIST) ∧
  ((AppInit2 env st).1 = EEXIST → lock_try_lock env = false) ∧
  ((AppInit2 env st).1 = 1 →
     AppInit2_body env st = (Continue 1, (AppInit2 env st).2) ∧
     fRequestShutdown (flags (AppInit2 env st).2) = false ∧
     EvStartNode ∈ trace (AppInit2 env st).2 ∧
     EvStartRPCThreads ∈ trace (AppInit2 env st).2 ∧
     SelectParamsFromCommandLine env = true ∧
     ECC_InitSanityCheck env = true ∧
     lock_try_lock env = true ∧
     LoadBlockIndex env = true ∧
     CheckDiskSpace env = true).
Proof.
  unfold AppInit2. destruct (AppInit2_body env st) as [[c|c] st'] eqn:E; simpl.
  - assert (Hend : c = Z.b2z (negb (fRequestShutdown (flags st'))) ∧
             ∃ s evs, trace st' = (trace s ++ EvStartNode :: EvInitRPCMining ::
                                              EvStartRPCThreads :: evs)%list).
    { pose proof E as H. unfold AppInit2_body in H.
      peel H s1 H1. peel H s2 H2. peel H s3 H3.
      apply StartServices_result in H as [Hc (evs & Ht)]. eauto. }
    destruct Hend as (Hc & s & evs & Ht).
    split; [destruct (fRequestShutdown (flags st')); subst c; simpl; auto|].
    split; [intros ->; destruct (fRequestShutdown (flags st')); discriminate Hc|].
    intros ->. split; [reflexivity|].
    split; [destruct (fRequestShutdown (flags st')); [discriminate Hc | reflexivity]|].
    split; [rewrite Ht, elem_of_app, !elem_of_cons; auto|].
    split; [rewrite Ht, elem_of_app, !elem_of_cons; auto 6|].
    pose proof E as H. unfold AppInit2_body, ToModeCheck in H.
    peel H t1 T1. peel T1 t2 T2. peel T1 t3 T3. peel T1 t4 T4. clear H.
    unfold BeforeNetwork in T2. peel T2 b1 B1. peel T2 b2 B2. peel T2 b3 B3.
    unfold ChecksAndStorage in T2.
    peel T2 c1 C1. peel T2 c2 C2. peel T2 c3 C3. peel T2 c4 C4. peel T2 c5 C5.
    peel T2 c6 C6. peel T2 c7 C7.
    unfold ChainAndWallet in T4.
    peel T4 d1 D1. peel T4 d2 D2. peel T4 d3 D3. peel T4 d4 D4. peel T4 d5 D5.
    split; [by eapply SelectParams_continues|].
    split; [by eapply SanityCheck_continues|].
    split; [by eapply LockDataDirectory_continues|].
    split; [by eapply ChainIndex_continues|].
    by eapply ImportAndAddresses_continues.
  - apply AppInit2_body_exits in E as [->|[-> Hl]].
    + split; [auto|]. split; [discriminate|discriminate].
    + split; [auto|]. split; [auto|discriminate].
Qed.

(** ** The instance guard comes first *)

(** Splits a sequence at its first statement, whichever way that ended. *)
Ltac split_run H r1 s1 H1 :=
  apply run_bind in H as (r1 & s1 & H1 & H); cbv beta in H;
  repeat match goal with x : unit |- _ => destruct x end.

Ltac messages := respects_with ltac:(emits_atom ltac:(reflexivity)).

Lemma LockDataDirectory_run env st :
  LockDataDirectory env st =
    if lock_try_lock env
    then (Continue tt, set_trace (trace st ++ [EvTouchLockFile]) st)
    else (Exit EEXIST,
          set_trace (trace st ++ [EvTouchLockFile;
             EvInitError ("Cannot obtain a lock on data directory " +:+ strDataDir env
                          +:+ ". Swipp is probably already running.")]) st).
Proof.
  unfold LockDataDirectory, InitError_code, when, emit, bind, modify, ret, exit.
  destruct (lock_try_lock env); simpl; [reflexivity|].
  rewrite <- app_assoc. reflexivity.
Qed.

(** A run of the option checks either stops on a message before the lock
    is tried, or reaches the lock having only printed messages. *)
Lemma ChecksAndStorage_to_lock env st r st' :
  ChecksAndStorage env st = (r, st') →
  (emits is_message st st' ∧ ∃ c, r = Exit c) ∨
  ∃ s r2 s2, emits is_message st s ∧ LockDataDirectory env s = (r2, s2) ∧
    match r2 with
    | Exit c => r = Exit c ∧ st' = s2
    | Continue _ => emits (λ _, True) s2 st'
    end.
Proof.
  intros H. unfold ChecksAndStorage in H.
  split_run H r1 s1 H1. by_respects H1 (emits is_message) messages.
  destruct r1 as [a|c]; [|destruct H as [-> ->]; left; eauto].
  split_run H r2 s2 H2. by_respects H2 (emits is_message) messages.
  destruct r2 as [a2|c]; [|destruct H as [-> ->]; left; split; [etrans; eauto|eauto]].
  split_run H r3 s3 H3. by_respects H3 (emits is_message) messages.
  destruct r3 as [a3|c];
    [|destruct H as [-> ->]; left; split; [repeat (etrans; [eassumption|]); reflexivity|eauto]].
  split_run H r4 s4 H4. by_respects H4 (emits is_message) messages.
  destruct r4 as [a4|c];
    [|destruct H as [-> ->]; left; split; [repeat (etrans; [eassumption|]); reflexivity|eauto]].
  split_run H r5 s5 H5. by_respects H5 (emits is_message) messages.
  destruct r5 as [a5|c];
    [|destruct H as [-> ->]; left; split; [repeat (etrans; [eassumption|]); reflexivity|eauto]].
  split_run H r6 s6 H6. by_respects H6 (emits is_message) messages.
  destruct r6 as [a6|c];
    [|destruct H as [-> ->]; left; split; [repeat (etrans; [eassumption|]); reflexivity|eauto]].
  right. split_run H r7 s7 H7. exists s6, r7, s7.
  split; [repeat (etrans; [eassumption|]); reflexivity|]. split; [exact H7|].
  destruct r7 as [a7|c]; [|exact H].
  by_respects H (emits (λ _, True)) extends. exact H.
Qed.

Lemma BeforeNetwork_to_lock env st r st' :
  BeforeNetwork env st = (r, st') →
  (emits is_message st st' ∧ ∃ c, r = Exit c) ∨
  ∃ s r2 s2, emits is_message st s ∧ LockDataDirectory env s = (r2, s2) ∧
    match r2 with
    | Exit c => r = Exit c ∧ st' = s2
    | Continue _ => emits (λ _, True) s2 st'
    end.
Proof.
  intros H. unfold BeforeNetwork in H.
  split_run H r1 s1 H1. by_respects H1 (emits is_message) messages.
  destruct r1 as [a|c]; [|destruct H as [-> ->]; left; eauto].
  split_run H r2 s2 H2. by_respects H2 (emits is_message) messages.
  destruct r2 as [a2|c]; [|destruct H as [-> ->]; left; split; [etrans; eauto|eauto]].
  split_run H r3 s3 H3. by_respects H3 (emits is_message) messages.
  destruct r3 as [a3|c];
    [|destruct H as [-> ->]; left; split; [repeat (etrans; [eassumption|]); reflexivity|eauto]].
  assert (Hpre : emits is_message st s3) by (repeat (etrans; [eassumption|]); reflexivity).
  apply ChecksAndStorage_to_lock in H as [[H Hc]|(s & r4 & s4 & Hs & Hl & Hrest)].
  - left. split; [etrans; eassumption | exact Hc].
  - right. exists s, r4, s4. split; [etrans; eassumption|]. auto.
Qed.

Lemma AppInit2_body_to_lock env st r st' :
  AppInit2_body env st = (r, st') →
  (emits is_message st st' ∧ ∃ c, r = Exit c) ∨
  ∃ s r2 s2, emits is_message st s ∧ LockDataDirectory env s = (r2, s2) ∧
    match r2 with
    | Exit c => r = Exit c ∧ st' = s2
    | Continue _ => emits (λ _, True) s2 st'
    end.
Proof.
  intros H. unfold AppInit2_body in H. split_run H r1 s1 H1.
  unfold ToModeCheck in H1. split_run H1 r0 s0 H0.
  apply BeforeNetwork_to_lock in H0 as [[H0 (c & ->)]|(s & r2 & s2 & Hs & Hl & Hrest)].
  - destruct H1 as [-> ->]. destruct H as [-> ->]. left. eauto.
  - right. exists s, r2, s2. split; [exact Hs|]. split; [exact Hl|].
    destruct r2 as [a2|c].
    + assert (emits (λ _, True) s0 st') as Htail.
      { destruct r0 as [a0|c0].
        - by_respects H1 (emits (λ _, True)) extends.
          destruct r1 as [a1|c1]; [|destruct H as [_ ->]; exact H1].
          by_respects H (emits (λ _, True)) extends. etrans; eassumption.
        - destruct H1 as [-> ->]. destruct H as [_ ->]. reflexivity. }
      etrans; eassumption.
    + destruct Hrest as [-> ->]. destruct H1 as [-> ->]. destruct H as [-> ->]. auto.
Qed.

(** X2.  When the lock on the data directory cannot be taken, AppInit2
    does not return 1, and of the calls recorded in the trace it has made
    only the prints of error and warning messages and the touch of the
    lock file: it has not shrunk the debug file, not opened, moved,
    recovered or verified the wallet database environment, not registered
    node signals, bound a socket or declared an address, not loaded the
    block index or a wallet, not created a thread, not started the node. *)
Theorem directory_in_use_stops_startup env st :
  lock_try_lock env = false →
  (AppInit2 env st).1 ≠ 1 ∧
  ∃ evs, trace (AppInit2 env st).2 = (trace st ++ evs)%list ∧
         Forall (λ e, is_message e ∨ e = EvTouchLockFile) evs.
Proof.
  intros Hlock. unfold AppInit2.
  destruct (AppInit2_body env st) as [r st'] eqn:E.
  assert (Hmsg : ∀ evs, Forall is_message evs →
                        Forall (λ e, is_message e ∨ e = EvTouchLockFile) evs).
  { intros evs Hall. eapply Forall_impl; [exact Hall|]. auto. }
  pose proof E as H. apply AppInit2_body_to_lock in H
    as [[(evs & Ht & Hall) (c & ->)]|(s & r2 & s2 & (evs & Ht & Hall) & Hl & Hrest)].
  - apply AppInit2_body_exits in E. simpl. split.
    + destruct E as [->|[-> _]]; discriminate.
    + exists evs. auto.
  - rewrite LockDataDirectory_run, Hlock in Hl. injection Hl as <- <-.
    destruct Hrest as [-> ->]. simpl. split; [discriminate|].
    eexists. rewrite Ht, <- app_assoc. split; [reflexivity|].
    apply Forall_app. split; [auto|].
    constructor; [right; reflexivity|].
    constructor; [left; reflexivity|constructor].
Qed.

Lemma directory_in_use_stops_startup_witness :
  (AppInit2 (env_with false (λ _, None) (DB_LOAD_OK, false) false) (node0 [])).1 ≠ 1 ∧
  ∃ evs,
    trace (AppInit2 (env_with false (λ _, None) (DB_LOAD_OK, false) false) (node0 [])).2 =
      (trace (node0 []) ++ evs)%list ∧
    Forall (λ e, is_message e ∨ e = EvTouchLockFile) evs.
Proof. apply directory_in_use_stops_startup. reflexivity. Defined.

(** X3.  In every run of AppInit2, whatever the options and however it
    ends, no call recorded in the trace but the prints of error and warning
    messages comes before the touch of the lock file: the debug file is
    shrunk, the wallet database environment opened, a socket bound, the
    block index or a wallet loaded, a thread created, the node started,
    only once the instance guard has been reached. *)
Theorem lock_file_before_other_effects env st :
  ∃ msgs rest,
    trace (AppInit2 env st).2 = (trace st ++ msgs ++ rest)%list ∧
    Forall is_message msgs ∧
    (rest = [] ∨ ∃ rest', rest = EvTouchLockFile :: rest').
Proof.
  unfold AppInit2. destruct (AppInit2_body env st) as [r st'] eqn:E.
  assert (Hgoal : ∃ msgs rest,
    trace st' = (trace st ++ msgs ++ rest)%list ∧ Forall is_message msgs ∧
    (rest = [] ∨ ∃ rest', rest = EvTouchLockFile :: rest')).
  { apply AppInit2_body_to_lock in E
      as [[(evs & Ht & Hall) _]|(s & r2 & s2 & (evs & Ht & Hall) & Hl & Hrest)].
    - exists evs, []. rewrite app_nil_r. auto.
    - rewrite LockDataDirectory_run in Hl.
      destruct (lock_try_lock env); injection Hl as <- <-.
      + destruct Hrest as (tail & Htail & _). simpl in Htail.
        exists evs, (EvTouchLockFile :: tail). split; [|eauto].
        rewrite Htail, Ht, <- !app_assoc. reflexivity.
      + destruct Hrest as [_ ->]. simpl.
        eexists evs, _. split; [|eauto]. rewrite Ht, <- !app_assoc. reflexivity. }
  destruct r; exact Hgoal.
Qed.

(** ** Pre- and postconditions *)

#[global] Instance under_preorder I R `{!PreOrder R} : PreOrder (under I R).
Proof.
  split.
  - intros st HI. split; [exact HI | reflexivity].
  - intros a b c Hab Hbc HI.
    destruct (Hab HI) as [HIb Rab]. destruct (Hbc HIb) as [HIc Rbc].
    split; [exact HIc | etrans; eassumption].
Qed.

Lemma under_keeps {T} (proj : Node → T) v R {A} (m : Init A) :
  respects (keeps proj) m → respects R m → respects (under (λ st, proj st = v) R) m.
Proof.
  intros Hk HR st r st' H HI. split; [|eapply HR, H].
  rewrite <- HI. eapply Hk, H.
Qed.

Lemma under_grow k v R {A} (m : Init A) :
  respects args_grow m → respects R m →
  respects (under (λ st, mapArgs st !! k = Some v) R) m.
Proof.
  intros Hg HR st r st' H HI. split; [|eapply HR, H].
  eapply lookup_weaken; [exact HI | eapply Hg, H].
Qed.

Lemma respects_weaken (R R' : relation Node) {A} (m : Init A) :
  (∀ st st', R st st' → R' st st') → respects R m → respects R' m.
Proof. intros Himp Hm st r st' H. eapply Himp, Hm, H. Qed.

Section Triples.
Context (R : relation Node) `{!PreOrder R}.

Lemma triple_bind {A B} Pre Mid Post (m : Init A) (f : A → Init B) :
  triple Pre R Mid m → (∀ a, triple Mid R Post (f a)) → triple Pre R Post (bind m f).
Proof.
  intros Hm Hf st r st' HP H.
  apply run_bind in H as (r1 & s1 & H1 & H).
  destruct (Hm _ _ _ HP H1) as [HR HM].
  destruct r1 as [a|c].
  - destruct (Hf a _ _ _ HM H) as [HR' HPost]. split; [etrans; eassumption | exact HPost].
  - destruct H as [-> ->]. split; [exact HR | exact I].
Qed.

Lemma triple_under {A} I (m : Init A) : respects (under I R) m → triple I R I m.
Proof.
  intros Hm st r st' HI H. destruct (Hm _ _ _ H HI) as [HI' HR].
  split; [exact HR|]. destruct r; auto.
Qed.

Lemma triple_respects {A} Pre (m : Init A) : respects R m → triple Pre R (λ _, True) m.
Proof. intros Hm st r st' _ H. split; [eapply Hm, H|]. destruct r; exact I. Qed.

Lemma triple_false {A} Post (m : Init A) : triple (λ _, False) R Post m.
Proof. intros st r st' []. Qed.

Lemma triple_weaken {A} (Pre Pre' Post Post' : Node → Prop) (m : Init A) :
  (∀ st, Pre' st → Pre st) → (∀ st, Post st → Post' st) →
  triple Pre R Post m → triple Pre' R Post' m.
Proof.
  intros HPre HPost Hm st r st' HP H. destruct (Hm _ _ _ (HPre _ HP) H) as [HR HQ].
  split; [exact HR|]. destruct r; auto.
Qed.

End Triples.

(** One statement of a sequence, the state after it satisfying [Mid]. *)
Ltac triple_step Mid := refine (triple_bind _ _ Mid _ _ _ _ _); [| intros ?].

(** ** The connection timeout *)

#[global] Instance timeout_in_range_preorder : PreOrder timeout_in_range.
Proof.
  split.
  - intros st. left. reflexivity.
  - intros a b c [Hab|Hab] [Hbc|Hbc]; unfold timeout_in_range; try (right; lia).
    left. congruence.
Qed.

Lemma timeout_same st st' :
  keeps (λ s, nConnectTimeout (net s)) st st' → timeout_in_range st st'.
Proof. intros H. left. exact H. Qed.

Lemma ConnectTimeout_range env : respects timeout_in_range (ConnectTimeout env).
Proof.
  intros st r st' H.
  unfold ConnectTimeout, bind, count_arg, get_arg_int, get, ret, when, modify in H.
  simpl in H. destruct (mapArgs st !! "-timeout") as [s|]; simpl in H.
  - destruct (Z.ltb_spec 0 (to_int (GetArgInt env (mapArgs st) "-timeout" 5000)));
      destruct (Z.ltb_spec (to_int (GetArgInt env (mapArgs st) "-timeout" 5000)) 600000);
      simpl in H; injection H as <- <-; try (left; reflexivity).
    right. simpl. lia.
  - injection H as <- <-. left. reflexivity.
Qed.

Ltac timeout_atom :=
  first [ apply ConnectTimeout_range
        | refine (respects_weaken _ _ _ timeout_same _); keeps_atom ].

Lemma AppInit2_body_timeout env : respects timeout_in_range (AppInit2_body env).
Proof. respects_with timeout_atom. Qed.

(** X4.  Whatever the options and however AppInit2 ends, the connection
    timeout it leaves is the one it found or lies strictly between 0 and
    600000. *)
Theorem connect_timeout_stays_in_range env st :
  nConnectTimeout (net (AppInit2 env st).2) = nConnectTimeout (net st) ∨
  0 < nConnectTimeout (net (AppInit2 env st).2) < 600000.
Proof.
  unfold AppInit2. destruct (AppInit2_body env st) as [r st'] eqn:E.
  apply AppInit2_body_timeout in E. destruct r; exact E.
Qed.

(** ** Early returns start nothing *)

Ltac quiet := respects_with ltac:(emits_atom ltac:(reflexivity)).

Lemma StartServices_exits env : exits_in (λ _, False) (StartServices env).
Proof. exits_with ltac:(fail). Qed.

(** X5.  When AppInit2 leaves through one of its return statements before
    the last, nothing of what its last statements start has been started:
    not the node, not RPC mining, not the RPC threads, not the staking or
    wallet-flush thread. *)
Theorem early_return_starts_nothing env st c st' :
  AppInit2_body env st = (Exit c, st') →
  ∃ evs, trace st' = (trace st ++ evs)%list ∧
         Forall (λ e, is_service_start e = false) evs.
Proof.
  intros H. change (emits (λ e, is_service_start e = false) st st').
  unfold AppInit2_body in H.
  split_run H r1 s1 H1. by_respects H1 (emits (λ e, is_service_start e = false)) quiet.
  destruct r1 as [a|c1]; [|destruct H as [? ->]; exact H1].
  split_run H r2 s2 H2. by_respects H2 (emits (λ e, is_service_start e = false)) quiet.
  destruct r2 as [a|c2]; [|destruct H as [? ->]; etrans; eassumption].
  split_run H r3 s3 H3. by_respects H3 (emits (λ e, is_service_start e = false)) quiet.
  destruct r3 as [a|c3]; [|destruct H as [? ->]; repeat (etrans; [eassumption|]); reflexivity].
  apply StartServices_exits in H. destruct H.
Qed.

Lemma early_return_starts_nothing_witness :
  ∃ evs, trace (AppInit2_body env_ok node_masternode_lite).2 =
           (trace node_masternode_lite ++ evs)%list ∧
         Forall (λ e, is_service_start e = false) evs.
Proof.
  apply (early_return_starts_nothing env_ok node_masternode_lite 0).
  vm_compute. reflexivity.
Defined.

(** ** Listening switched off *)

Lemma ListenSetup_off env st :
  GetBoolArg env (mapArgs st) "-listen" true = false →
  ∃ st', ListenSetup env st = (Continue tt, st') ∧
         mapArgs st' = mapArgs st ∧ trace st' = trace st ∧ fNoListen (net st') = true.
Proof.
  intros Hoff. eexists. split.
  - unfold ListenSetup, ListenFlags, ListenSockets, bind, get_bool_arg, get, ret, modify, when.
    simpl. rewrite Hoff. simpl. reflexivity.
  - simpl. auto.
Qed.

Lemma GetBoolArg_set env m k d :
  GetBoolArg env m k d = negb d → ∃ v, m !! k = Some v.
Proof.
  unfold GetBoolArg. destruct (m !! k) as [v|]; [eauto|].
  destruct d; discriminate.
Qed.

Lemma ListenSetup_quiet env v :
  (∀ m, m !! "-listen" = Some v → GetBoolArg env m "-listen" true = false) →
  respects (under (λ st, mapArgs st !! "-listen" = Some v)
                  (emits (λ e, is_bind e = false))) (ListenSetup env).
Proof.
  intros Hoff st r st' H HI.
  destruct (ListenSetup_off env st (Hoff _ HI)) as (s & Hrun & Hargs & Htrace & _).
  rewrite Hrun in H. injection H as <- <-.
  split; [by rewrite Hargs | by apply emits_same].
Qed.

Ltac listen_off_atom Hoff :=
  first [ apply ListenSetup_quiet; exact Hoff
        | apply under_grow; [grow_atom | emits_atom ltac:(reflexivity)] ].

(** X6.  With -listen given and off, AppInit2 never calls BindListenPort,
    whatever else is configured (-bind included) and however it ends. *)
Theorem listen_off_binds_nothing env st :
  GetBoolArg env (mapArgs st) "-listen" true = false →
  ∃ evs, trace (AppInit2 env st).2 = (trace st ++ evs)%list ∧
         Forall (λ e, is_bind e = false) evs.
Proof.
  intros Hoff. destruct (GetBoolArg_set env _ _ true Hoff) as [v Hv].
  assert (Hall : ∀ m, m !! "-listen" = Some v → GetBoolArg env m "-listen" true = false).
  { intros m Hm. etrans; [|exact Hoff]. apply GetBoolArg_ext. congruence. }
  assert (Hrun : respects (under (λ st, mapArgs st !! "-listen" = Some v)
                                 (emits (λ e, is_bind e = false))) (AppInit2_body env)).
  { respects_with ltac:(listen_off_atom Hall). }
  unfold AppInit2. destruct (AppInit2_body env st) as [r st'] eqn:E.
  destruct (Hrun _ _ _ E Hv) as [_ Hemits]. destruct r; exact Hemits.
Qed.

Lemma listen_off_binds_nothing_witness :
  ∃ evs, trace (AppInit2 env_ok (node0 [("-listen", "0"); ("-bind", "10.0.0.1")])).2 =
           (trace (node0 [("-listen", "0"); ("-bind", "10.0.0.1")]) ++ evs)%list ∧
         Forall (λ e, is_bind e = false) evs.
Proof. apply listen_off_binds_nothing. vm_compute. reflexivity. Defined.

(** ** Runs that cannot reach the end *)

(** The statements a run that reaches its end has gone through, with the
    options left as the operator gave them where no rule or subscript
    writes them. *)
Lemma AppInit2_body_stages env st c st' :
  AppInit2_body env st = (Continue c, st') →
  ∃ sBN sNS s1 s2 s3 s4 s5 s6,
    BeforeNetwork env st = (Continue tt, sBN) ∧
    NetworkSetup env sBN = (Continue tt, sNS) ∧
    ReserveBalance env sNS = (Continue tt, s1) ∧
    SeedNodes s1 = (Continue tt, s2) ∧
    ChainIndex env s2 = (Continue tt, s3) ∧
    LoadWalletStep env s3 = (Continue tt, s4) ∧
    ImportAndAddresses env s4 = (Continue tt, s5) ∧
    MasternodeSetup env s5 = (Continue tt, s6) ∧
    ∀ k, k ∉ touched_options → mapArgs s5 !! k = mapArgs st !! k.
Proof.
  intros H. unfold AppInit2_body in H. peel H t1 T1. clear H.
  unfold ToModeCheck in T1. peel T1 sBN HA. peel T1 sNS HB. peel T1 sCW HC. clear T1.
  unfold ChainAndWallet in HC.
  peel HC s1 H1. peel HC s2 H2. peel HC s3 H3. peel HC s4 H4. peel HC s5 H5.
  exists sBN, sNS, s1, s2, s3, s4, s5, sCW. repeat (split; [assumption|]).
  intros k Hk. apply not_touched in Hk.
  destruct Hk as (? & ? & ? & ? & ? & ? & ? & ? & ? & ? & ? & ?).
  pose proof HA as KA. pose proof HB as KB. pose proof H1 as K1. pose proof H2 as K2.
  pose proof H3 as K3. pose proof H4 as K4. pose proof H5 as K5.
  by_respects KA (keeps (λ s, mapArgs s !! k)) ltac:(respects_with arg_atom).
  by_respects KB (keeps (λ s, mapArgs s !! k)) ltac:(respects_with arg_atom).
  by_respects K1 (keeps (λ s, mapArgs s !! k)) ltac:(respects_with arg_atom).
  by_respects K2 (keeps (λ s, mapArgs s !! k)) ltac:(respects_with arg_atom).
  by_respects K3 (keeps (λ s, mapArgs s !! k)) ltac:(respects_with arg_atom).
  by_respects K4 (keeps (λ s, mapArgs s !! k)) ltac:(respects_with arg_atom).
  by_respects K5 (keeps (λ s, mapArgs s !! k)) ltac:(respects_with arg_atom).
  unfold keeps in *. congruence.
Qed.

Lemma GetArg_ext (m m' : gmap string string) k d :
  m' !! k = m !! k → GetArg m' k d = GetArg m k d.
Proof. unfold GetArg. intros ->. reflexivity. Qed.

Lemma MasternodeSetup_without_key env st :
  GetBoolArg env (mapArgs st) "-masternode" false = true →
  GetArg (mapArgs st) "-masternodeprivkey" "" = "" →
  ∃ st' msg, MasternodeSetup env st = (Exit 0, st') ∧
             trace st' = (trace st ++ [EvInitError msg])%list.
Proof.
  intros Hm Hk.
  unfold MasternodeSetup, get_bool_arg, get_arg, return_bool, InitError, emit, when,
    bind, get, ret, modify, exit.
  simpl. rewrite Hm. simpl.
  destruct (String.eqb (GetArg (mapArgs st) "-masternodeaddr" "") ""); simpl.
  - rewrite Hk. simpl. eexists _, _. split; reflexivity.
  - destruct (IsValid env _); simpl; rewrite ?Hk; simpl; eexists _, _; split; reflexivity.
Qed.

(** X7.  In masternode mode without a masternode private key (absent or
    empty) the masternode setup returns 0 after printing one error, and
    AppInit2 leaves through a return statement before its last ones. *)
Theorem masternode_needs_key env st :
  GetBoolArg env (mapArgs st) "-masternode" false = true →
  GetArg (mapArgs st) "-masternodeprivkey" "" = "" →
  (∃ st' msg, MasternodeSetup env st = (Exit 0, st') ∧
              trace st' = (trace st ++ [EvInitError msg])%list) ∧
  (∃ c st', AppInit2_body env st = (Exit c, st')).
Proof.
  intros Hm Hk. split; [by apply MasternodeSetup_without_key|].
  destruct (AppInit2_body env st) as [[c|c] st'] eqn:E; [exfalso|eauto].
  apply AppInit2_body_stages in E
    as (sBN & sNS & s1 & s2 & s3 & s4 & s5 & s6 & _ & _ & _ & _ & _ & _ & _ & HM & Hargs).
  destruct (MasternodeSetup_without_key env s5) as (s & msg & Hrun & _).
  - etrans; [|exact Hm]. apply GetBoolArg_ext, Hargs, untouched. reflexivity.
  - etrans; [|exact Hk]. apply GetArg_ext, Hargs, untouched. reflexivity.
  - rewrite HM in Hrun. discriminate Hrun.
Qed.

Lemma masternode_needs_key_witness :
  (∃ st' msg, MasternodeSetup env_ok (node0 [("-masternode", "1")]) = (Exit 0, st') ∧
              trace st' = (trace (node0 [("-masternode", "1")]) ++ [EvInitError msg])%list) ∧
  (∃ c st', AppInit2_body env_ok (node0 [("-masternode", "1")]) = (Exit c, st')).
Proof. apply masternode_needs_key; vm_compute; reflexivity. Defined.

(** *** Wallet load errors *)

#[global] Instance errors_stay_preorder : PreOrder errors_stay.
Proof.
  split.
  - intros st H. exact H.
  - intros a b c Hab Hbc H. apply Hbc, Hab, H.
Qed.

Lemma append_nonempty (a b : string) : b ≠ "" → a +:+ b ≠ "".
Proof. intros Hb. destruct a; simpl; [exact Hb | discriminate]. Qed.

Lemma add_error_collects line st :
  strErrors (frame (add_error line st).2) ≠ "".
Proof.
  unfold add_error, modify. simpl. apply append_nonempty, append_nonempty. discriminate.
Qed.

Lemma errors_stay_add_error line : respects errors_stay (add_error line).
Proof.
  intros st r st' H _. pose proof (add_error_collects line st) as Hc.
  rewrite H in Hc. exact Hc.
Qed.

Lemma errors_same st st' :
  keeps (λ s, strErrors (frame s)) st st' → errors_stay st st'.
Proof. unfold keeps, errors_stay. intros ->. auto. Qed.

Ltac errors_atom :=
  first [ apply errors_stay_add_error
        | refine (respects_weaken _ _ _ errors_same _); keeps_atom ].


Lemma ImportAndAddresses_reports env st st' :
  ImportAndAddresses env st = (Continue tt, st') → strErrors (frame st) = "".
Proof.
  intros H. unfold ImportAndAddresses in H.
  peel H s1 H1. peel H s2 H2. peel H s3 H3. peel H s4 H4.
  by_respects H1 (keeps (λ s, strErrors (frame s))) ltac:(respects_with keeps_atom).
  by_respects H2 (keeps (λ s, strErrors (frame s))) ltac:(respects_with keeps_atom).
  by_respects H3 (keeps (λ s, strErrors (frame s))) ltac:(respects_with keeps_atom).
  assert (K4 : strErrors (frame s4) = strErrors (frame s3)).
  { destruct (CheckDiskSpace env); simpl in H4; [by injection H4 as <-|].
    unfold StartShutdown, bind, modify, exit in H4. discriminate H4. }
  unfold keeps in *. rewrite <- H1, <- H2, <- H3, <- K4.
  unfold bind, get, when, return_bool, InitError, emit, bind, modify, ret, exit in H.
  destruct (String.eqb_spec (strErrors (frame s4)) ""); [assumption|].
  simpl in H. discriminate H.
Qed.

Lemma DebugOptions_wallet_flag env st st' :
  DebugOptions env st = (Continue tt, st') →
  fDisableWallet (frame st') = GetBoolArg env (mapArgs st) "-disablewallet" false.
Proof.
  intros H. unfold DebugOptions in H.
  peel H s1 H1. peel H s2 H2. peel H s3 H3. peel H s4 H4. peel H s5 H5.
  unfold bind, get_bool_arg, get, ret, modify in H. injection H as <-. simpl.
  apply GetBoolArg_ext.
  by_respects H1 (keeps (λ s, mapArgs s !! "-disablewallet")) ltac:(respects_with arg_atom).
  by_respects H2 (keeps (λ s, mapArgs s !! "-disablewallet")) ltac:(respects_with arg_atom).
  by_respects H3 (keeps (λ s, mapArgs s !! "-disablewallet")) ltac:(respects_with arg_atom).
  by_respects H4 (keeps (λ s, mapArgs s !! "-disablewallet")) ltac:(respects_with arg_atom).
  by_respects H5 (keeps (λ s, mapArgs s !! "-disablewallet")) ltac:(respects_with arg_atom).
  unfold keeps in *. congruence.
Qed.

(** The wallet switch, as the wallet load finds it, is the -disablewallet
    option as the operator gave it. *)
Lemma wallet_flag_at_load env st sBN sNS s1 s2 s3 :
  BeforeNetwork env st = (Continue tt, sBN) →
  NetworkSetup env sBN = (Continue tt, sNS) →
  ReserveBalance env sNS = (Continue tt, s1) →
  SeedNodes s1 = (Continue tt, s2) →
  ChainIndex env s2 = (Continue tt, s3) →
  fDisableWallet (frame s3) = GetBoolArg env (mapArgs st) "-disablewallet" false.
Proof.
  intros HA HB H1 H2 H3. unfold BeforeNetwork in HA.
  peel HA b1 B1. peel HA b2 B2. peel HA b3 B3. unfold ChecksAndStorage in HA.
  peel HA c1 C1. apply DebugOptions_wallet_flag in C1.
  by_respects HA (keeps (λ s, fDisableWallet (frame s))) ltac:(respects_with keeps_atom).
  by_respects HB (keeps (λ s, fDisableWallet (frame s))) ltac:(respects_with keeps_atom).
  by_respects H1 (keeps (λ s, fDisableWallet (frame s))) ltac:(respects_with keeps_atom).
  by_respects H2 (keeps (λ s, fDisableWallet (frame s))) ltac:(respects_with keeps_atom).
  by_respects H3 (keeps (λ s, fDisableWallet (frame s))) ltac:(respects_with keeps_atom).
  by_respects B1 (keeps (λ s, mapArgs s !! "-disablewallet")) ltac:(respects_with arg_atom).
  by_respects B2 (keeps (λ s, mapArgs s !! "-disablewallet")) ltac:(respects_with arg_atom).
  by_respects B3 (keeps (λ s, mapArgs s !! "-disablewallet")) ltac:(respects_with arg_atom).
  unfold keeps in *. rewrite H3, H2, H1, HB, HA, C1. apply GetBoolArg_ext. congruence.
Qed.



(** *** No listen socket *)

Ltac bind_side := intros ? ?; first [discriminate | simplify_eq; assumption].

Lemma ToModeCheck_binds env : respects (emits (bind_reported env)) (ToModeCheck env).
Proof. respects_with ltac:(emits_atom bind_side). Qed.

Lemma ToModeCheck_listening env st st1 :
  ToModeCheck env st = (Continue tt, st1) →
  ∃ s, args_grow st s ∧
       fNoListen (net st1) = negb (GetBoolArg env (mapArgs s) "-listen" true).
Proof.
  intros H. unfold ToModeCheck in H.
  peel H sA HA. peel H sB HB. peel H sC HC.
  unfold NetworkSetup in HB.
  peel HB s1 H1. peel HB s2 H2. peel HB s3 H3. peel HB s4 H4.
  unfold ListenSetup in H4. peel H4 sF HF. unfold ListenFlags in HF. peel HF sL HL.
  exists s3. split.
  - by_respects HA args_grow ltac:(respects_with grow_atom).
    by_respects H1 args_grow ltac:(respects_with grow_atom).
    by_respects H2 args_grow ltac:(respects_with grow_atom).
    by_respects H3 args_grow ltac:(respects_with grow_atom).
    repeat (etrans; [eassumption|]). reflexivity.
  - unfold bind, get_bool_arg, get, ret, modify in HL. injection HL as <-.
    by_respects HF (keeps (λ s, fNoListen (net s))) keeps_listen.
    by_respects H4 (keeps (λ s, fNoListen (net s))) keeps_listen.
    by_respects HB (keeps (λ s, fNoListen (net s))) keeps_listen.
    by_respects HC (keeps (λ s, fNoListen (net s))) keeps_listen.
    by_respects H (keeps (λ s, fNoListen (net s))) keeps_listen.
    unfold keeps in *. rewrite H, HC, HB, H4, HF. reflexivity.
Qed.

(** X9.  When no listen socket can be bound, AppInit2 reaches its last
    statements only with listening off; with -listen given and on it
    leaves through an earlier return statement. *)
Theorem no_listen_socket_no_startup env st :
  (∀ addr, BindListenPort env addr ≠ None) →
  (∀ c st', AppInit2_body env st = (Continue c, st') → fNoListen (net st') = true) ∧
  (mapArgs st !! "-listen" ≠ None → GetBoolArg env (mapArgs st) "-listen" true = true →
   ∃ c st', AppInit2_body env st = (Exit c, st')).
Proof.
  intros Hfail.
  assert (Hoff : ∀ c st', AppInit2_body env st = (Continue c, st') →
                          ∃ st1, ToModeCheck env st = (Continue tt, st1) ∧
                                 fNoListen (net st1) = true ∧
                                 fNoListen (net st') = fNoListen (net st1)).
  { intros c st' H. unfold AppInit2_body in H. peel H st1 H1.
    exists st1. split; [exact H1|]. split.
    - destruct (fNoListen (net st1)) eqn:El; [reflexivity|exfalso].
      destruct (ToModeCheck_bound _ _ _ H1 El) as (evs & addr & Ht & Hin).
      apply ToModeCheck_binds in H1 as (evs' & Ht' & Hall).
      rewrite Ht in Ht'. apply app_inv_head in Ht'. subst evs'.
      rewrite Forall_forall in Hall. apply (Hfail addr). by apply (Hall _ Hin).
    - by_respects H (keeps (λ s, fNoListen (net s))) keeps_listen. exact H. }
  split.
  - intros c st' H. destruct (Hoff _ _ H) as (st1 & _ & Hl & Hk). congruence.
  - intros Hset Hon.
    destruct (AppInit2_body env st) as [[c|c] st'] eqn:E; [exfalso|eauto].
    destruct (Hoff _ _ eq_refl) as (st1 & H1 & Hl & _).
    apply ToModeCheck_listening in H1 as (s & Hgrow & Hflag).
    rewrite Hl in Hflag. destruct (mapArgs st !! "-listen") as [v|] eqn:Ev; [|by apply Hset].
    rewrite (GetBoolArg_ext env (mapArgs st) (mapArgs s)), Hon in Hflag; [discriminate|].
    rewrite Ev. eapply lookup_weaken; [exact Ev | exact Hgrow].
Qed.

Lemma no_listen_socket_no_startup_witness :
  fNoListen (net (AppInit2_body (env_with true (λ _, Some "in use") (DB_LOAD_OK, false) false)
                                (node0 [("-listen", "0")])).2) = true ∧
  ∃ c st', AppInit2_body (env_with true (λ _, Some "in use") (DB_LOAD_OK, false) false)
                         (node0 [("-listen", "1")]) = (Exit c, st').
Proof.
  split.
  - apply (no_listen_socket_no_startup
             (env_with true (λ _, Some "in use") (DB_LOAD_OK, false) false)
             (node0 [("-listen", "0")])) with (c := 1); [discriminate|].
    vm_compute. reflexivity.
  - apply (no_listen_socket_no_startup
             (env_with true (λ _, Some "in use") (DB_LOAD_OK, false) false)
             (node0 [("-listen", "1")])); [discriminate | discriminate | reflexivity].
Defined.

(** *** A shutdown requested while the block index loads *)

Lemma under_keeps_or (Q : Prop) {T} (proj : Node → T) v R {A} (m : Init A) :
  respects (keeps proj) m → respects R m →
  respects (under (λ st, Q ∨ proj st = v) R) m.
Proof.
  intros Hk HR st r st' H HI. split; [|eapply HR, H].
  destruct HI as [HQ|HI]; [by left|right]. rewrite <- HI. eapply Hk, H.
Qed.

Ltac requested_atom :=
  apply (under_keeps_or _ (λ s, fRequestShutdown (flags s)));
  [keeps_atom | emits_atom ltac:(reflexivity)].

Lemma ChainIndex_stops env st a st' :
  sigterm_before_index_check env = true ∨ fRequestShutdown (flags st) = true →
  ChainIndex env st ≠ (Continue a, st').
Proof.
  intros HI H. unfold ChainIndex in H.
  peel H s1 H1. peel H s0 H0. peel H s2 H2. peel H s3 H3. peel H s4 H4.
  by_respects H1 (keeps (λ s, fRequestShutdown (flags s))) ltac:(respects_with keeps_atom).
  by_respects H0 (keeps (λ s, fRequestShutdown (flags s))) ltac:(respects_with keeps_atom).
  by_respects H2 (keeps (λ s, fRequestShutdown (flags s))) ltac:(respects_with keeps_atom).
  assert (Hreq : fRequestShutdown (flags s3) = true).
  { unfold when, HandleSIGTERM, modify, ret in H3.
    destruct (sigterm_before_index_check env); injection H3 as <-; [reflexivity|].
    destruct HI as [HI|HI]; [discriminate|]. unfold keeps in *. congruence. }
  unfold ShutdownRequested, bind, get, ret, when, exit in H4. rewrite Hreq in H4.
  discriminate H4.
Qed.

(** X10.  When a shutdown has been requested by the time the block index
    is loaded (before AppInit2 began, or by a SIGTERM arriving meanwhile),
    AppInit2 leaves through a return statement without having loaded or
    registered a wallet, scanned the chain for it, created a thread, read
    the peer addresses or started the node. *)
Theorem shutdown_request_stops_before_wallet env st :
  sigterm_before_index_check env = true ∨ fRequestShutdown (flags st) = true →
  (∃ c st', AppInit2_body env st = (Exit c, st')) ∧
  ∃ evs, trace (AppInit2 env st).2 = (trace st ++ evs)%list ∧
         Forall (λ e, is_after_index e = false) evs.
Proof.
  intros HI.
  assert (Hrun : triple (λ s, sigterm_before_index_check env = true ∨
                              fRequestShutdown (flags s) = true)
                        (emits (λ e, is_after_index e = false))
                        (λ _, False) (AppInit2_body env)).
  { unfold AppInit2_body. triple_step (λ _ : Node, False); [|apply triple_false].
    unfold ToModeCheck.
    triple_step (λ s, sigterm_before_index_check env = true ∨
                      fRequestShutdown (flags s) = true).
    { apply triple_under. respects_with requested_atom. }
    triple_step (λ s, sigterm_before_index_check env = true ∨
                      fRequestShutdown (flags s) = true).
    { apply triple_under. respects_with requested_atom. }
    triple_step (λ _ : Node, False); [|apply triple_false].
    unfold ChainAndWallet.
    triple_step (λ s, sigterm_before_index_check env = true ∨
                      fRequestShutdown (flags s) = true).
    { apply triple_under. respects_with requested_atom. }
    triple_step (λ s, sigterm_before_index_check env = true ∨
                      fRequestShutdown (flags s) = true).
    { apply triple_under. respects_with requested_atom. }
    triple_step (λ _ : Node, False); [|apply triple_false].
    intros s r s' Hs H. split.
    - revert H. generalize s r s'. change (respects (emits (λ e, is_after_index e = false))
                                             (ChainIndex env)).
      respects_with ltac:(emits_atom ltac:(reflexivity)).
    - destruct r as [[]|c]; [|exact I]. by eapply ChainIndex_stops. }
  unfold AppInit2. destruct (AppInit2_body env st) as [r st'] eqn:E.
  destruct (Hrun _ _ _ HI E) as [Hemits Hpost].
  destruct r as [c|c]; [destruct Hpost|]. split; [eauto | exact Hemits].
Qed.

Lemma shutdown_request_stops_before_wallet_witness :
  (∃ c st', AppInit2_body (env_with true (λ _, None) (DB_LOAD_OK, false) true) (node0 [])
            = (Exit c, st')) ∧
  ∃ evs, trace (AppInit2 (env_with true (λ _, None) (DB_LOAD_OK, false) true) (node0 [])).2
           = (trace (node0 []) ++ evs)%list ∧
         Forall (λ e, is_after_index e = false) evs.
Proof. apply shutdown_request_stops_before_wallet. left. reflexivity. Defined.

(** ** Salvaging the wallet *)

Lemma under_keeps2 {T U} (p : Node → T) v (q : Node → U) w R {A} (m : Init A) :
  respects (keeps p) m → respects (keeps q) m → respects R m →
  respects (under (λ st, p st = v ∧ q st = w) R) m.
Proof.
  intros Hp Hq HR st r st' H [HI1 HI2]. split; [|eapply HR, H].
  split; [rewrite <- HI1; eapply Hp, H | rewrite <- HI2; eapply Hq, H].
Qed.

Ltac scan_side := intros ? ?; discriminate.

Lemma Rescan_from_genesis env :
  atoi env "1" ≠ 0 →
  respects (under (λ st, mapArgs st !! "-rescan" = Some "1")
                  (emits (scans_from_genesis env))) (Rescan env).
Proof.
  intros Hone st r st' H HI.
  rewrite (Rescan_run env st _ (RescanStart_run env st)) in H.
  assert (Hon : GetBoolArg env (mapArgs st) "-rescan" false = true).
  { unfold GetBoolArg. rewrite HI. simpl. by apply negb_true_iff, Z.eqb_neq. }
  rewrite Hon in H.
  destruct (rescan_needed (pindexBest env) (pindexGenesisBlock env)); injection H as <- <-.
  - split; [exact HI|]. eexists. split; [reflexivity|].
    constructor; [by intros p [= <-]|]. constructor; [intros p; discriminate | constructor].
  - split; [exact HI | by apply emits_same].
Qed.

Ltac rescan_atom Hone :=
  first [ apply Rescan_from_genesis; exact Hone
        | apply under_grow; [grow_atom | emits_atom scan_side] ].

Ltac salvage_atom :=
  apply (under_keeps2 (λ s, mapArgs s !! "-rescan") _ (λ s, mapArgs s !! "-salvagewallet"));
  [arg_atom | arg_atom | emits_atom scan_side].

(** X11.  With -salvagewallet on and -rescan not given, every wallet scan
    AppInit2 starts, starts at the genesis block: the salvage rule turns
    -rescan on.  Assumed of the surroundings: the option text 1 does not
    read as the number 0. *)
Theorem salvage_rescans_from_genesis env st :
  atoi env "1" ≠ 0 →
  GetBoolArg env (mapArgs st) "-salvagewallet" false = true →
  mapArgs st !! "-rescan" = None →
  ∃ evs, trace (AppInit2 env st).2 = (trace st ++ evs)%list ∧
         ∀ p, EvScanForWalletTransactions p ∈ evs → p = pindexGenesisBlock env.
Proof.
  intros Hone Hsalv Hnone. destruct (GetBoolArg_set env _ _ false Hsalv) as [v Hv].
  assert (Hall : ∀ m, m !! "-salvagewallet" = Some v →
                      GetBoolArg env m "-salvagewallet" false = true).
  { intros m Hm. etrans; [|exact Hsalv]. apply GetBoolArg_ext. congruence. }
  pose (J := λ s : Node, mapArgs s !! "-rescan" = None ∧ mapArgs s !! "-salvagewallet" = Some v).
  pose (K := λ s : Node, mapArgs s !! "-rescan" = Some "1").
  assert (Hrun : triple J (emits (scans_from_genesis env)) K (AppInit2_body env)).
  { unfold AppInit2_body. triple_step K; [|apply triple_under; respects_with ltac:(rescan_atom Hone)].
    unfold ToModeCheck.
    triple_step K; [|apply triple_under; respects_with ltac:(rescan_atom Hone)].
    unfold BeforeNetwork.
    triple_step J; [apply triple_under; respects_with salvage_atom|].
    triple_step J; [apply triple_under; respects_with salvage_atom|].
    triple_step K; [|apply triple_under; respects_with ltac:(rescan_atom Hone)].
    unfold ParameterInteraction.
    do 6 (triple_step J; [apply triple_under; respects_with salvage_atom|]).
    intros s r s' [Hr Hs] H.
    unfold bind, get_bool_arg, get, ret, when, soft_set_logged, bind, soft_set_bool, ret,
      SoftSetBoolArg, SoftSetArg in H.
    rewrite (Hall _ Hs), Hr in H. simpl in H. injection H as <- <-.
    split; [by apply emits_same|]. unfold K. simpl. apply lookup_insert_eq. }
  unfold AppInit2. destruct (AppInit2_body env st) as [r st'] eqn:E.
  destruct (Hrun _ _ _ (conj Hnone Hv) E) as [(evs & Ht & Hscan) _].
  exists evs. split; [destruct r; exact Ht|].
  intros p Hin. rewrite Forall_forall in Hscan. by apply (Hscan _ Hin).
Qed.

Lemma salvage_rescans_from_genesis_witness :
  ∃ evs, trace (AppInit2 env_ok (node0 [("-salvagewallet", "1")])).2 =
           (trace (node0 [("-salvagewallet", "1")]) ++ evs)%list ∧
         ∀ p, EvScanForWalletTransactions p ∈ evs → p = pindexGenesisBlock env_ok.
Proof.
  apply salvage_rescans_from_genesis; [vm_compute; discriminate | reflexivity..].
Defined.

(** ** Running without a wallet *)

#[global] Instance quiet_wallet_preorder : PreOrder quiet_wallet.
Proof. unfold quiet_wallet. apply _. Qed.

Lemma VerifyWalletDatabase_skipped env :
  respects (under wallet_disabled quiet_wallet) (VerifyWalletDatabase env).
Proof.
  intros st r st' H Hd. unfold VerifyWalletDatabase in H.
  unfold bind at 1 in H. unfold get at 1 in H. rewrite Hd in H.
  injection H as <- <-. split; [exact Hd | reflexivity].
Qed.

Lemma LoadWalletStep_skipped env :
  respects (under wallet_disabled quiet_wallet) (LoadWalletStep env).
Proof.
  intros st r st' H Hd. unfold LoadWalletStep in H.
  unfold bind at 1 in H. unfold get at 1 in H. rewrite Hd in H.
  injection H as <- <-. split; [exact Hd|].
  intros [Hl Hw]. split; [split; [exact Hl | reflexivity] | by apply emits_same].
Qed.

Lemma StartServices_without_wallet env :
  respects (under wallet_disabled quiet_wallet) (StartServices env).
Proof.
  intros st r st' H Hd. split.
  - by_respects H (keeps (λ s, fDisableWallet (frame s))) ltac:(respects_with keeps_atom).
    unfold wallet_disabled. rewrite H. exact Hd.
  - intros [Hl Hw]. destruct st as [m mm ss sso fl nt [b f1 f2 f3 f4] ds fr cs tr].
    simpl in Hl, Hw. subst cs b.
    unfold StartServices, emit, when, get_bool_arg, HandleSIGTERM, ShutdownRequested,
      bind, get, ret, modify in H.
    cbn in H. rewrite andb_false_r in H.
    destruct (sigterm_before_return env); injection H as <- <-.
    + split; [split; reflexivity|]. eexists [_; _; _].
      split; [cbn; rewrite <- !app_assoc; reflexivity | repeat constructor].
    + split; [split; reflexivity|]. eexists [_; _; _].
      split; [cbn; rewrite <- !app_assoc; reflexivity | repeat constructor].
Qed.

Ltac no_wallet_atom :=
  first [ apply VerifyWalletDatabase_skipped | apply LoadWalletStep_skipped
        | apply StartServices_without_wallet
        | apply (under_keeps (λ s, fDisableWallet (frame s)));
          [ keeps_atom
          | apply (under_keeps2 cs_Shutdown _ (λ s, pwalletMain (wallet s)));
            [keeps_atom | keeps_atom | emits_atom ltac:(reflexivity)] ] ].

Ltac wallet_option_atom :=
  apply (under_keeps (λ s, mapArgs s !! "-disablewallet"));
  [ arg_atom
  | apply (under_keeps2 cs_Shutdown _ (λ s, pwalletMain (wallet s)));
    [keeps_atom | keeps_atom | emits_atom ltac:(reflexivity)] ].

(** X12.  With -disablewallet on, and no wallet and no shutdown under way
    when AppInit2 begins, AppInit2 makes none of the wallet calls recorded
    in the trace, however it ends: the wallet database environment is not
    opened, moved, recovered or verified, no wallet is loaded, upgraded,
    given a key from the pool, a default key, an address book name or a
    best chain, none is registered, scanned or re-fed its transactions, no
    staking or wallet-flush thread is created; the wallet pointer is still
    null afterwards, and a Shutdown that follows performs only the steps
    that need no wallet. *)
Theorem disabled_wallet_untouched env st tid :
  GetBoolArg env (mapArgs st) "-disablewallet" false = true →
  pwalletMain (wallet st) = false →
  cs_Shutdown st = None →
  pwalletMain (wallet (AppInit2 env st).2) = false ∧
  (∃ evs, trace (AppInit2 env st).2 = (trace st ++ evs)%list ∧
          Forall (λ e, is_wallet_event e = false) evs) ∧
  trace (Shutdown env tid (AppInit2 env st).2) =
    (trace (AppInit2 env st).2 ++ teardown_events_no_wallet)%list.
Proof.
  intros Hoff Hw Hl. destruct (GetBoolArg_set env _ _ false Hoff) as [v Hv].
  assert (Hall : ∀ m, m !! "-disablewallet" = Some v →
                      GetBoolArg env m "-disablewallet" false = true).
  { intros m Hm. etrans; [|exact Hoff]. apply GetBoolArg_ext. congruence. }
  pose (J := λ s : Node, mapArgs s !! "-disablewallet" = Some v).
  assert (Hrun : triple J quiet_wallet wallet_disabled (AppInit2_body env)).
  { unfold AppInit2_body. triple_step wallet_disabled; [|apply triple_under; respects_with no_wallet_atom].
    unfold ToModeCheck.
    triple_step wallet_disabled; [|apply triple_under; respects_with no_wallet_atom].
    unfold BeforeNetwork.
    do 3 (triple_step J; [apply triple_under; respects_with wallet_option_atom|]).
    unfold ChecksAndStorage.
    triple_step wallet_disabled; [|apply triple_under; respects_with no_wallet_atom].
    unfold DebugOptions.
    do 5 (triple_step J; [apply triple_under; respects_with wallet_option_atom|]).
    intros s r s' Hs H.
    unfold bind, get_bool_arg, get, ret, modify in H. injection H as <- <-.
    split; [|unfold wallet_disabled; simpl; by apply Hall].
    intros [Hc Hp]. split; [split; assumption | by apply emits_same]. }
  unfold AppInit2. destruct (AppInit2_body env st) as [r st'] eqn:E.
  destruct (Hrun _ _ _ Hv E) as [HR _]. destruct (HR (conj Hl Hw)) as [[Hl' Hw'] Hemits].
  assert (Hgoal : pwalletMain (wallet st') = false ∧
            (∃ evs, trace st' = (trace st ++ evs)%list ∧
                    Forall (λ e, is_wallet_event e = false) evs) ∧
            trace (Shutdown env tid st') = (trace st' ++ teardown_events_no_wallet)%list).
  { split; [exact Hw'|]. split; [exact Hemits|].
    destruct (Shutdown_run env tid st' Hl') as [Ht _]. rewrite Ht, Hw'. reflexivity. }
  destruct r; exact Hgoal.
Qed.

Lemma disabled_wallet_untouched_witness :
  pwalletMain (wallet (AppInit2 env_ok (node0 [("-disablewallet", "1")])).2) = false ∧
  (∃ evs, trace (AppInit2 env_ok (node0 [("-disablewallet", "1")])).2 =
            (trace (node0 [("-disablewallet", "1")]) ++ evs)%list ∧
          Forall (λ e, is_wallet_event e = false) evs) ∧
  trace (Shutdown env_ok 0 (AppInit2 env_ok (node0 [("-disablewallet", "1")])).2) =
    (trace (AppInit2 env_ok (node0 [("-disablewallet", "1")])).2
       ++ teardown_events_no_wallet)%list.
Proof. apply disabled_wallet_untouched; reflexivity. Defined.

(** ** The parameter-interaction rules, option by option *)

Lemma ParameterInteraction_exits env : exits_in (λ _, False) (ParameterInteraction env).
Proof. exits_with ltac:(fail). Qed.

Lemma when_soft_set c k (v : bool) st s :
  when c (soft_set_logged k v) st = (Continue tt, s) →
  mapArgs s = soft_set c k (if v then "1" else "0") (mapArgs st) ∧
  mapMultiArgs s = mapMultiArgs st.
Proof.
  destruct c; simpl; [|by intros [= <-]].
  unfold soft_set_logged, soft_set_bool, bind, ret, SoftSetBoolArg.
  destruct v; intros [= <-]; auto.
Qed.

Lemma when_soft_set2 c k1 (v1 : bool) k2 (v2 : bool) st s :
  when c (soft_set_logged k1 v1 ;; soft_set_logged k2 v2) st = (Continue tt, s) →
  mapArgs s = soft_set c k2 (if v2 then "1" else "0")
                (soft_set c k1 (if v1 then "1" else "0") (mapArgs st)) ∧
  mapMultiArgs s = mapMultiArgs st.
Proof.
  destruct c; simpl; [|by intros [= <-]].
  unfold soft_set_logged, soft_set_bool, bind, ret, SoftSetBoolArg.
  destruct v1, v2; intros [= <-]; auto.
Qed.

(** What the rules make of the option map, rule after rule. *)
Lemma ParameterInteraction_args env st :
  ∃ st', ParameterInteraction env st = (Continue tt, st') ∧
    let m1 := soft_set (TestNet env) "-irc" "1" (mapArgs st) in
    let m2 := soft_set (has_arg m1 "-bind") "-listen" "1" m1 in
    let fConnect :=
      has_arg m2 "-connect" &&
      negb (length (default [] (mapMultiArgs st !! "-connect")) =? 0)%nat in
    let m3 := soft_set fConnect "-listen" "0" (soft_set fConnect "-dnsseed" "0" m2) in
    let m4 := soft_set (has_arg m3 "-proxy") "-discover" "0"
                (soft_set (has_arg m3 "-proxy") "-listen" "0" m3) in
    let fOff := negb (GetBoolArg env m4 "-listen" true) in
    let m5 := soft_set fOff "-discover" "0" (soft_set fOff "-upnp" "0" m4) in
    let m6 := soft_set (has_arg m5 "-externalip") "-discover" "0" m5 in
    mapArgs st' = soft_set (GetBoolArg env m6 "-salvagewallet" false) "-rescan" "1" m6.
Proof.
  destruct (ParameterInteraction env st) as [[[]|c] st'] eqn:E;
    [|by apply ParameterInteraction_exits in E].
  exists st'. split; [reflexivity|]. cbv zeta.
  unfold ParameterInteraction in E.
  peel E s1 H1. peel E s2 H2. peel E s3 H3. peel E s4 H4. peel E s5 H5. peel E s6 H6.
  apply when_soft_set in H1 as [A1 M1].
  apply (when_soft_set (has_arg (mapArgs s1) "-bind")) in H2 as [A2 M2].
  assert (mapArgs s3 =
            soft_set (has_arg (mapArgs s2) "-connect" &&
                      negb (length (default [] (mapMultiArgs s2 !! "-connect")) =? 0)%nat)
              "-listen" "0"
              (soft_set (has_arg (mapArgs s2) "-connect" &&
                         negb (length (default [] (mapMultiArgs s2 !! "-connect")) =? 0)%nat)
                 "-dnsseed" "0" (mapArgs s2))) as A3.
  { apply bind_continue_inv in H3 as (fC & sx & Hc & H3).
    unfold count_arg, bind, get, ret in Hc. injection Hc as <- <-.
    apply bind_continue_inv in H3 as (fAny & sy & Hi & H3).
    apply when_soft_set2 in H3 as [-> _].
    unfold has_arg. destruct (mapArgs s2 !! "-connect") as [c|].
    - unfold index_multi, bind, ret in Hi.
      destruct (mapMultiArgs s2 !! "-connect") as [l|]; injection Hi as <- <-; reflexivity.
    - injection Hi as <- <-. reflexivity. }
  apply (when_soft_set2 (has_arg (mapArgs s3) "-proxy")) in H4 as [A4 _].
  apply (when_soft_set2 (negb (GetBoolArg env (mapArgs s4) "-listen" true))) in H5 as [A5 _].
  apply (when_soft_set (has_arg (mapArgs s5) "-externalip")) in H6 as [A6 _].
  apply (when_soft_set (GetBoolArg env (mapArgs s6) "-salvagewallet" false)) in E as [A7 _].
  rewrite A7, A6, A5, A4, A3, A2, M2, M1, A1. reflexivity.
Qed.

Lemma lookup_soft_set_ne c k v m k' : k' ≠ k → soft_set c k v m !! k' = m !! k'.
Proof.
  intros Hne. unfold soft_set, SoftSetArg. destruct c; simpl; [|reflexivity].
  destruct (m !! k); simpl; [reflexivity | by apply lookup_insert_ne].
Qed.

Lemma lookup_soft_set_eq c k v m :
  soft_set c k v m !! k =
    match m !! k with Some x => Some x | None => if c then Some v else None end.
Proof.
  unfold soft_set, SoftSetArg. destruct c; simpl.
  - destruct (m !! k) eqn:E; simpl; [exact E | apply lookup_insert_eq].
  - destruct (m !! k); reflexivity.
Qed.

Lemma has_arg_soft_set c k v m k' :
  k' ≠ k → has_arg (soft_set c k v m) k' = has_arg m k'.
Proof. intros Hne. unfold has_arg. by rewrite lookup_soft_set_ne. Qed.

Lemma GetBoolArg_soft_set env c k v m k' d :
  k' ≠ k → GetBoolArg env (soft_set c k v m) k' d = GetBoolArg env m k' d.
Proof. intros Hne. apply GetBoolArg_ext. by apply lookup_soft_set_ne. Qed.

(** Looks an option up through the soft-sets applied to the map. *)
Ltac through_rules :=
  repeat first [ rewrite lookup_soft_set_ne by (first [discriminate | assumption])
               | rewrite lookup_soft_set_eq ].

(** X13.  The parameter-interaction rules never stop startup, and leave the
    options they write directly like this.  An option that was given keeps
    its value.  Otherwise: -irc becomes 1 on the test network; -listen
    becomes 1 when -bind is given, and only failing that 0 when -connect
    has values or -proxy is given; -dnsseed becomes 0 when -connect has
    values; -rescan becomes 1 when -salvagewallet is on.  Every option no
    rule names is left alone. *)
Theorem parameter_interaction_direct_rules env st :
  ∃ st', ParameterInteraction env st = (Continue tt, st') ∧
    let m := mapArgs st in
    let fConnect :=
      has_arg m "-connect" &&
      negb (length (default [] (mapMultiArgs st !! "-connect")) =? 0)%nat in
    mapArgs st' !! "-irc" =
      match m !! "-irc" with
      | Some v => Some v
      | None => if TestNet env then Some "1" else None
      end ∧
    mapArgs st' !! "-listen" =
      match m !! "-listen" with
      | Some v => Some v
      | None => if has_arg m "-bind" then Some "1"
                else if fConnect || has_arg m "-proxy" then Some "0" else None
      end ∧
    mapArgs st' !! "-dnsseed" =
      match m !! "-dnsseed" with
      | Some v => Some v
      | None => if fConnect then Some "0" else None
      end ∧
    mapArgs st' !! "-rescan" =
      match m !! "-rescan" with
      | Some v => Some v
      | None => if GetBoolArg env m "-salvagewallet" false then Some "1" else None
      end ∧
    ∀ k, k ≠ "-irc" → k ≠ "-listen" → k ≠ "-dnsseed" → k ≠ "-discover" → k ≠ "-upnp" →
         k ≠ "-rescan" → mapArgs st' !! k = m !! k.
Proof.
  destruct (ParameterInteraction_args env st) as (st' & Hrun & Hargs).
  exists st'. split; [exact Hrun|]. cbv zeta in Hargs |- *. rewrite Hargs. clear Hargs Hrun.
  rewrite !GetBoolArg_soft_set by discriminate.
  rewrite !has_arg_soft_set by discriminate.
  split; [|split; [|split; [|split]]].
  - through_rules. destruct (mapArgs st !! "-irc"), (TestNet env); reflexivity.
  - through_rules.
    destruct (mapArgs st !! "-listen") as [v|]; [reflexivity|].
    destruct (has_arg (mapArgs st) "-connect" && _);
      destruct (has_arg (mapArgs st) "-proxy"), (has_arg (mapArgs st) "-bind"); reflexivity.
  - through_rules.
    destruct (has_arg (mapArgs st) "-connect" && _);
      destruct (mapArgs st !! "-dnsseed"); reflexivity.
  - through_rules.
    destruct (mapArgs st !! "-rescan"), (GetBoolArg env (mapArgs st) "-salvagewallet" false);
      reflexivity.
  - intros k ? ? ? ? ? ?. through_rules. reflexivity.
Qed.

(** Reads a flag through the soft-sets of other options. *)
Ltac peel_rules :=
  repeat match goal with
    | |- context [GetBoolArg ?e (soft_set ?c ?k ?v ?m) ?k' ?d] =>
        rewrite (GetBoolArg_soft_set e c k v m k' d) by discriminate
    | |- context [has_arg (soft_set ?c ?k ?v ?m) ?k'] =>
        rewrite (has_arg_soft_set c k v m k') by discriminate
    end.

(** X14.  After the parameter-interaction rules, -upnp and -discover
    follow the listening option as the rules resolved it.  Unless given,
    -upnp becomes 0 exactly when listening came out off; unless given,
    -discover becomes 0 exactly when listening came out off, or -proxy or
    -externalip is given. *)
Theorem parameter_interaction_discovery env st :
  ∃ st', ParameterInteraction env st = (Continue tt, st') ∧
    let m := mapArgs st in
    let fOff := negb (GetBoolArg env (mapArgs st') "-listen" true) in
    mapArgs st' !! "-upnp" =
      match m !! "-upnp" with
      | Some v => Some v
      | None => if fOff then Some "0" else None
      end ∧
    mapArgs st' !! "-discover" =
      match m !! "-discover" with
      | Some v => Some v
      | None => if has_arg m "-proxy" || fOff || has_arg m "-externalip"
                then Some "0" else None
      end.
Proof.
  destruct (ParameterInteraction_args env st) as (st' & Hrun & Hargs).
  exists st'. split; [exact Hrun|]. cbv zeta in Hargs |- *. rewrite Hargs. clear Hargs Hrun.
  peel_rules.
  split.
  - through_rules.
    destruct (GetBoolArg env _ "-listen" true), (mapArgs st !! "-upnp"); reflexivity.
  - through_rules.
    destruct (GetBoolArg env _ "-listen" true), (mapArgs st !! "-discover");
      destruct (has_arg (mapArgs st) "-proxy"), (has_arg (mapArgs st) "-externalip");
      reflexivity.
Qed.

(** ** Listen sockets when no -bind is given *)

(** X15.  With listening on, no -bind, and neither wildcard address
    limited, the wildcard IPv6 address is bound first and the IPv4 one
    second.  A failure on IPv6 is never reported; a failure on IPv4 is
    reported only when IPv6 failed too, and only then does AppInit2
    return, after the message that no port could be listened on. *)
Theorem default_listen_sockets env st r st' :
  fNoListen (net st) = false →
  mapArgs st !! "-bind" = None →
  fBound (frame st) = false →
  NET_IPV6 ∉ vfLimited (net st) → NET_IPV4 ∉ vfLimited (net st) →
  GetNetwork env (ServiceAny6 (GetListenPort env)) ∉ vfLimited (net st) →
  GetNetwork env (ServiceAny4 (GetListenPort env)) ∉ vfLimited (net st) →
  ListenSockets env st = (r, st') →
  match BindListenPort env (ServiceAny6 (GetListenPort env)),
        BindListenPort env (ServiceAny4 (GetListenPort env)) with
  | None, None =>
      r = Continue tt ∧
      trace st' = (trace st ++ [EvBindListenPort (ServiceAny6 (GetListenPort env)) true;
                                EvBindListenPort (ServiceAny4 (GetListenPort env)) true])%list
  | None, Some _ =>
      r = Continue tt ∧
      trace st' = (trace st ++ [EvBindListenPort (ServiceAny6 (GetListenPort env)) true;
                                EvBindListenPort (ServiceAny4 (GetListenPort env)) false])%list
  | Some _, None =>
      r = Continue tt ∧
      trace st' = (trace st ++ [EvBindListenPort (ServiceAny6 (GetListenPort env)) false;
                                EvBindListenPort (ServiceAny4 (GetListenPort env)) true])%list
  | Some _, Some strError =>
      r = Exit 0 ∧
      trace st' =
        (trace st ++
         [EvBindListenPort (ServiceAny6 (GetListenPort env)) false;
          EvBindListenPort (ServiceAny4 (GetListenPort env)) false;
          EvInitError strError;
          EvInitError "Failed to listen on any port. Use -listen=0 if you want this."])%list
  end.
Proof.
  intros Hl Hb Hf H6 H4 G6 G4 H.
  destruct st as [m mm ss sso fl [t1 t2 lim t4 t5 nl t7 t8] wl ds [f1 f2 f3 f4 f5 bd] cs tr].
  simpl in Hl, Hb, Hf, H6, H4, G6, G4. subst nl bd.
  unfold ListenSockets, Bind, IsLimited, or_fBound, InitError, return_bool, emit, when,
    count_arg, bind, get, ret, modify, exit in H.
  cbn in H. rewrite Hb in H.
  destruct (BindListenPort env (ServiceAny6 (GetListenPort env))) as [e6|];
    destruct (BindListenPort env (ServiceAny4 (GetListenPort env))) as [e4|];
    repeat (progress (cbn in H;
                      rewrite ?(bool_decide_eq_false_2 _ H6), ?(bool_decide_eq_false_2 _ H4),
                        ?(bool_decide_eq_false_2 _ G6), ?(bool_decide_eq_false_2 _ G4) in H));
    injection H as <- <-; cbn; rewrite <- ?app_assoc; auto.
Qed.

Lemma default_listen_sockets_witness :
  (Exit 0 : outcome unit) = Exit 0 ∧
  trace (ListenSockets (env_with true (λ _, Some "in use") (DB_LOAD_OK, false) false)
           (node0 [])).2 =
    (trace (node0 []) ++
     [EvBindListenPort (ServiceAny6 24055) false; EvBindListenPort (ServiceAny4 24055) false;
      EvInitError "in use";
      EvInitError "Failed to listen on any port. Use -listen=0 if you want this."])%list.
Proof.
  apply (default_listen_sockets
           (env_with true (λ _, Some "in use") (DB_LOAD_OK, false) false) (node0 [])
           (Exit 0)
           (ListenSockets (env_with true (λ _, Some "in use") (DB_LOAD_OK, false) false)
              (node0 [])).2);
    try reflexivity; try apply not_elem_of_empty.
Defined.

(** ** The onion proxy *)

(** X16.  The Tor setup does nothing when -tor is 0, whether or not a
    proxy is set, and nothing when neither a proxy nor -tor is given; with
    a proxy set and no -tor, the proxy address serves the onion network
    without the proxy option being read again. *)
Theorem tor_setup_cases env st :
  (mapArgs st !! "-tor" = Some "0" → TorSetup env st = (Continue tt, st)) ∧
  (mapArgs st !! "-tor" = None → fProxy (frame st) = false →
   TorSetup env st = (Continue tt, st)) ∧
  (mapArgs st !! "-tor" = None → fProxy (frame st) = true →
   IsValid env (addrProxy (frame st)) = true →
   TorSetup env st =
     (Continue tt,
      set_trace (trace st ++ [EvSetReachable NET_TOR])
        (in_net (λ g, set_proxyInfo (<[NET_TOR := addrProxy (frame st)]> (proxyInfo g)) g) st))).
Proof.
  split; [|split].
  - intros Ht. unfold TorSetup, count_arg, index_arg, bind, get, ret. simpl.
    repeat (progress (rewrite ?Ht; simpl)).
    destruct (fProxy (frame st)); simpl; rewrite ?Ht; reflexivity.
  - intros Ht Hp. unfold TorSetup, count_arg, index_arg, bind, get, ret. simpl.
    repeat (progress (rewrite ?Ht, ?Hp; simpl)). reflexivity.
  - intros Ht Hp Hv.
    unfold TorSetup, count_arg, index_arg, SetProxy, emit, when, bind, get, ret, modify.
    simpl. repeat (progress (rewrite ?Ht, ?Hp, ?Hv; simpl)). reflexivity.
Qed.

Lemma tor_setup_cases_witness :
  TorSetup env_ok (node0 [("-tor", "0")]) = (Continue tt, node0 [("-tor", "0")]) ∧
  TorSetup env_ok (node0 []) = (Continue tt, node0 []) ∧
  TorSetup env_ok (in_frame (set_fProxy true) (node0 [])) =
    (Continue tt,
     set_trace (trace (in_frame (set_fProxy true) (node0 [])) ++ [EvSetReachable NET_TOR])
       (in_net (λ g, set_proxyInfo
                       (<[NET_TOR := addrProxy (frame (in_frame (set_fProxy true) (node0 [])))]>
                          (proxyInfo g)) g)
          (in_frame (set_fProxy true) (node0 [])))).
Proof.
  split; [|split].
  - destruct (tor_setup_cases env_ok (node0 [("-tor", "0")])) as (H & _). by apply H.
  - destruct (tor_setup_cases env_ok (node0 [])) as (_ & H & _). by apply H.
  - destruct (tor_setup_cases env_ok (in_frame (set_fProxy true) (node0 []))) as (_ & _ & H).
    by apply H.
Defined.

(** ** Every call of Shutdown returns *)

Lemma step_owner_in_body env c c' :
  step env c c' → exclusive c → owner_in_body c → owner_in_body c'.
Proof.
  intros Hstep Hex Hown. destruct Hstep as [pcs st tid pc Hpc].
  unfold owner_in_body, exclusive in *. simpl in *. intros t Ht.
  destruct pc as [| |k]; simpl in *.
  - destruct (Hown t Ht) as [n Hn]. exists n.
    rewrite lookup_insert_ne; [exact Hn | congruence].
  - destruct (cs_Shutdown st) as [o|] eqn:El; simpl in *.
    + rewrite El in Ht. destruct (Hown t Ht) as [n Hn]. exists n.
      rewrite lookup_insert_ne; [exact Hn | congruence].
    + injection Ht as <-. exists 0%nat. apply lookup_insert_eq.
  - destruct (teardown env !! k) as [f|] eqn:Ef; simpl in *.
    + rewrite (teardown_keeps_lock env k f st Ef) in Ht.
      pose proof (Hex tid k Hpc) as Hl. rewrite Hl in Ht. injection Ht as <-.
      exists (S k). apply lookup_insert_eq.
    + discriminate Ht.
Qed.

Lemma steps_keep_owner env c c' :
  steps env c c' → exclusive c → owner_in_body c → exclusive c' ∧ owner_in_body c'.
Proof.
  intros Hsteps. induction Hsteps as [c|c1 c2 c3 Hstep Hrest IH]; [auto|].
  intros Hex Hown. apply IH; [by eapply step_exclusive | by eapply step_owner_in_body].
Qed.

(** A thread inside the body runs the remaining statements and releases
    the lock, whatever the other threads are at. *)
Lemma body_runs_out env pcs tid n st :
  pcs !! tid = Some (InBody n) →
  steps env (pcs, st)
    (<[tid := Outside]> pcs, set_cs_Shutdown None (run (drop n (teardown env)) st)).
Proof.
  remember (length (teardown env) - n)%nat as k eqn:Hk.
  revert n st pcs Hk. induction k as [|k IH]; intros n st pcs Hk Hpc.
  - eapply rtc_l; [apply (step_thread env pcs st tid _ Hpc)|]. simpl.
    rewrite (lookup_ge_None_2 (teardown env) n) by lia.
    rewrite drop_ge by lia. simpl. apply rtc_refl.
  - eapply rtc_l; [apply (step_thread env pcs st tid _ Hpc)|]. simpl.
    destruct (lookup_lt_is_Some_2 (teardown env) n) as [f Hf]; [lia|].
    rewrite Hf. simpl. rewrite (drop_S _ _ _ Hf). simpl.
    rewrite <- (insert_insert_eq pcs tid Outside (InBody (S n))).
    apply (IH (S n) (f st) (<[tid := InBody (S n)]> pcs)); [lia | apply lookup_insert_eq].
Qed.

Lemma cs_Shutdown_released st : cs_Shutdown (set_cs_Shutdown None st) = None.
Proof. reflexivity. Qed.

(** A thread at the lock test, the lock being free, takes it, runs the
    body and returns. *)
Lemma caller_runs_out env pcs tid st :
  pcs !! tid = Some AtTryLock → cs_Shutdown st = None →
  ∃ st', steps env (pcs, st) (<[tid := Outside]> pcs, st') ∧ cs_Shutdown st' = None.
Proof.
  intros Hpc Hfree. eexists. split.
  - eapply rtc_l; [apply (step_thread env pcs st tid _ Hpc)|]. simpl. rewrite Hfree. simpl.
    rewrite <- (insert_insert_eq pcs tid Outside (InBody 0)).
    apply (body_runs_out env (<[tid := InBody 0]> pcs) tid 0). apply lookup_insert_eq.
  - apply cs_Shutdown_released.
Qed.

(** With the lock free and nobody inside, the waiting callers go through
    one after the other. *)
Lemma callers_drain env (l : list nat) :
  ∀ pcs st,
    cs_Shutdown st = None →
    (∀ t n, pcs !! t ≠ Some (InBody n)) →
    (∀ t, pcs !! t = Some AtTryLock → t ∈ l) →
    ∃ c, steps env (pcs, st) c ∧ quiescent c.
Proof.
  induction l as [|t l IH]; intros pcs st Hfree Hnone Hin.
  - exists (pcs, st). split; [apply rtc_refl|]. split; [exact Hfree|].
    intros tid pc Hpc. destruct pc as [| |n]; [reflexivity| |].
    + apply Hin in Hpc. by apply elem_of_nil in Hpc.
    + by apply Hnone in Hpc.
  - destruct (pcs !! t) as [[| |n]|] eqn:Et.
    + apply IH; [exact Hfree | exact Hnone|].
      intros t' Ht'. apply Hin in Ht' as Hel. apply elem_of_cons in Hel as [->|Hel];
        [congruence | exact Hel].
    + destruct (caller_runs_out env pcs t st Et Hfree) as (st1 & Hrun & Hfree1).
      destruct (IH (<[t := Outside]> pcs) st1 Hfree1) as (c & Hc & Hq).
      * intros t' n. destruct (decide (t' = t)) as [->|Hne].
        -- rewrite lookup_insert_eq. discriminate.
        -- rewrite lookup_insert_ne by congruence. apply Hnone.
      * intros t' Ht'. destruct (decide (t' = t)) as [->|Hne].
        -- rewrite lookup_insert_eq in Ht'. discriminate.
        -- rewrite lookup_insert_ne in Ht' by congruence.
           apply Hin in Ht'. apply elem_of_cons in Ht' as [->|Hel]; [congruence | exact Hel].
      * exists c. split; [|exact Hq]. etrans; eassumption.
    + by apply Hnone in Et.
    + apply IH; [exact Hfree | exact Hnone|].
      intros t' Ht'. apply Hin in Ht' as Hel. apply elem_of_cons in Hel as [->|Hel];
        [congruence | exact Hel].
Qed.

(** X17.  However the calls of Shutdown by any number of threads have
    interleaved so far, they can all run to their return from there, the
    lock free again: the lock test never waits, and the one thread past it
    gets to the end of the body and releases the lock. *)
Theorem shutdown_callers_all_return env c c' :
  quiescent c → steps env c c' → ∃ c'', steps env c' c'' ∧ quiescent c''.
Proof.
  intros Hq Hsteps.
  destruct (steps_keep_owner env c c' Hsteps (quiescent_exclusive c Hq)) as [Hex Hown].
  { intros t Ht. destruct Hq as [Hfree _]. congruence. }
  destruct c' as [pcs st]. unfold exclusive, owner_in_body in Hex, Hown. simpl in *.
  assert (Hdrain : ∀ pcs' st', cs_Shutdown st' = None → (∀ t n, pcs' !! t ≠ Some (InBody n)) →
                     ∃ c'', steps env (pcs', st') c'' ∧ quiescent c'').
  { intros pcs' st' Hfree Hnone.
    apply (callers_drain env (elements (dom pcs')) pcs' st' Hfree Hnone).
    intros t Ht. apply elem_of_elements, elem_of_dom. eauto. }
  destruct (cs_Shutdown st) as [o|] eqn:El.
  - destruct (Hown o eq_refl) as [n Hn].
    destruct (Hdrain (<[o := Outside]> pcs)
                (set_cs_Shutdown None (run (drop n (teardown env)) st))) as (c'' & Hc & Hq'').
    + reflexivity.
    + intros t k. destruct (decide (t = o)) as [->|Hne].
      * rewrite lookup_insert_eq. discriminate.
      * rewrite lookup_insert_ne by congruence. intros Ht. apply Hex in Ht. congruence.
    + exists c''. split; [|exact Hq'']. etrans; [|exact Hc].
      by apply body_runs_out.
  - apply Hdrain; [exact El|]. intros t k Ht. apply Hex in Ht. discriminate.
Qed.

Lemma shutdown_callers_all_return_witness :
  ∃ c'', steps env_ok ({[0%nat := AtTryLock]}, node0 []) c'' ∧ quiescent c''.
Proof.
  apply (shutdown_callers_all_return env_ok ({[0%nat := Outside]}, node0 [])).
  - split; [reflexivity|]. intros tid pc H. simpl in H.
    apply lookup_singleton_Some in H as [_ <-]. reflexivity.
  - apply rtc_once. apply (one_thread_step env_ok 0 Outside (node0 [])).
Defined.

(** ** No early return goes unexplained *)

Section ExitStates.
Context (Q : Node → Prop).




















End ExitStates.







(** ** A refused wallet downgrade *)

Lemma UpgradeWallet_downgrade env fFirstRun st s :
  mapArgs st !! "-upgradewallet" = Some s →
  GetBoolArg env (mapArgs st) "-upgradewallet" false = true →
  to_int (atoi64 env s) ≠ 0 →
  to_int (atoi64 env s) < wallet_GetVersion env →
  ∃ st', UpgradeWallet env fFirstRun st = (Continue tt, st') ∧
         trace st' = (trace st ++ [EvSetMaxVersion (to_int (atoi64 env s))])%list ∧
         strErrors (frame st') ≠ "".
Proof.
  intros Hs Hon Hnz Hlt.
  assert (Hany : GetBoolArg env (mapArgs st) "-upgradewallet" fFirstRun = true).
  { unfold GetBoolArg in *. rewrite Hs in *. exact Hon. }
  unfold UpgradeWallet, get_bool_arg, get_arg_int, add_error, emit, when, bind, get, ret, modify.
  rewrite Hany. unfold GetArgInt. rewrite Hs.
  destruct (Z.eqb_spec (to_int (atoi64 env s)) 0) as [|_]; [contradiction|].
  destruct (Z.ltb_spec (to_int (atoi64 env s)) (wallet_GetVersion env)) as [_|]; [|lia].
  eexists. split; [reflexivity|]. split; [reflexivity|].
  simpl. apply append_nonempty, append_nonempty. discriminate.
Qed.

(** X19.  Asking, with the wallet enabled, for a wallet version below the
    wallet's own is refused, but only after the fact: the upgrade step
    still sets the maximum version asked for, notes the error, and lets
    the wallet load go on; AppInit2 then returns before its last
    statements. *)
Theorem wallet_downgrade_refused env st s :
  GetBoolArg env (mapArgs st) "-disablewallet" false = false →
  mapArgs st !! "-upgradewallet" = Some s →
  GetBoolArg env (mapArgs st) "-upgradewallet" false = true →
  to_int (atoi64 env s) ≠ 0 →
  to_int (atoi64 env s) < wallet_GetVersion env →
  (∀ fFirstRun, ∃ st', UpgradeWallet env fFirstRun st = (Continue tt, st') ∧
      trace st' = (trace st ++ [EvSetMaxVersion (to_int (atoi64 env s))])%list ∧
      strErrors (frame st') ≠ "") ∧
  (∃ c st', AppInit2_body env st = (Exit c, st')).
Proof.
  intros Hd Hs Hon Hnz Hlt. split; [intros b; by apply UpgradeWallet_downgrade|].
  destruct (AppInit2_body env st) as [[c|c] st'] eqn:E; [exfalso|eauto].
  apply AppInit2_body_stages in E
    as (sBN & sNS & s1 & s2 & s3 & s4 & s5 & s6 & HA & HB & H1 & H2 & H3 & H4 & H5 & _ & Hargs).
  pose proof (wallet_flag_at_load _ _ _ _ _ _ _ HA HB H1 H2 H3) as Hflag.
  rewrite Hd in Hflag.
  assert (Hk3 : mapArgs s3 !! "-upgradewallet" = Some s).
  { rewrite <- Hs, <- (Hargs "-upgradewallet") by (apply untouched; reflexivity).
    pose proof H4 as K4. pose proof H5 as K5.
    by_respects K4 (keeps (λ s, mapArgs s !! "-upgradewallet")) ltac:(respects_with arg_atom).
    by_respects K5 (keeps (λ s, mapArgs s !! "-upgradewallet")) ltac:(respects_with arg_atom).
    unfold keeps in *. congruence. }
  apply ImportAndAddresses_reports in H5. revert H5.
  unfold LoadWalletStep in H4.
  unfold bind at 1 in H4. unfold get at 1 in H4. rewrite Hflag in H4.
  peel H4 w0 W0. peel H4 w1 W1. peel H4 w2 W2. peel H4 w3 W3.
  by_respects H4 errors_stay ltac:(respects_with errors_atom). apply H4. clear H4.
  by_respects W0 (keeps (λ s, mapArgs s !! "-upgradewallet")) ltac:(respects_with arg_atom).
  by_respects W1 (keeps (λ s, mapArgs s !! "-upgradewallet")) ltac:(respects_with arg_atom).
  by_respects W2 (keeps (λ s, mapArgs s !! "-upgradewallet")) ltac:(respects_with arg_atom).
  unfold keeps in *.
  destruct (UpgradeWallet_downgrade env (LoadWallet env).2 w2 s) as (w & Hrun & _ & Herr);
    try assumption.
  - congruence.
  - etrans; [|exact Hon]. apply GetBoolArg_ext. congruence.
  - rewrite W3 in Hrun. injection Hrun as <-. exact Herr.
Qed.

Lemma wallet_downgrade_refused_witness :
  (∀ fFirstRun, ∃ st',
      UpgradeWallet env_ok fFirstRun (node0 [("-upgradewallet", "100")]) = (Continue tt, st') ∧
      trace st' = (trace (node0 [("-upgradewallet", "100")])
                     ++ [EvSetMaxVersion (to_int (atoi64 env_ok "100"))])%list ∧
      strErrors (frame st') ≠ "") ∧
  (∃ c st', AppInit2_body env_ok (node0 [("-upgradewallet", "100")]) = (Exit c, st')).
Proof.
  apply wallet_downgrade_refused; try reflexivity.
  vm_compute. discriminate.
Defined.

(** ** Amounts that do not parse *)

Ltac amount_atom :=
  apply under_grow; [grow_atom | emits_atom ltac:(reflexivity)].

Lemma PayTxFee_bad env v :
  ParseMoney env v = None →
  triple (λ s, mapArgs s !! "-paytxfee" = Some v) (emits is_message) (λ _, False)
         (PayTxFee env).
Proof.
  intros Hbad st r st' Hs H.
  unfold PayTxFee, count_arg, index_arg, return_bool, InitError, emit, when, bind, get, ret,
    modify, exit in H.
  rewrite Hs in H. simpl in H. rewrite Hs in H. simpl in H. rewrite Hbad in H.
  rewrite Hs in H. simpl in H. injection H as <- <-.
  split; [|exact I]. eexists [_]. split; [reflexivity|]. by repeat constructor.
Qed.

Lemma MinInput_bad env v :
  ParseMoney env v = None →
  triple (λ s, mapArgs s !! "-mininput" = Some v) (emits is_message) (λ _, False)
         (MinInput env).
Proof.
  intros Hbad st r st' Hs H.
  unfold MinInput, count_arg, index_arg, return_bool, InitError, emit, when, bind, get, ret,
    modify, exit in H.
  rewrite Hs in H. simpl in H. rewrite Hs in H. simpl in H. rewrite Hbad in H.
  rewrite Hs in H. simpl in H. injection H as <- <-.
  split; [|exact I]. eexists [_]. split; [reflexivity|]. by repeat constructor.
Qed.

(** X20.  A -paytxfee or -mininput amount that ParseMoney rejects makes
    AppInit2 return before the lock file of the data directory is touched:
    of the calls recorded in the trace it has made only prints of error
    and warning messages, so that no lock file is touched, no wallet
    database environment opened, no socket bound, no block index or wallet
    loaded and no thread created. *)
Theorem bad_amount_stops_before_lock env st k v :
  k = "-paytxfee" ∨ k = "-mininput" →
  mapArgs st !! k = Some v →
  ParseMoney env v = None →
  (∃ c st', AppInit2_body env st = (Exit c, st')) ∧
  ∃ evs, trace (AppInit2 env st).2 = (trace st ++ evs)%list ∧ Forall is_message evs.
Proof.
  intros Hk Hv Hbad.
  assert (Hrun : triple (λ s, mapArgs s !! k = Some v) (emits is_message) (λ _, False)
                        (AppInit2_body env)).
  { unfold AppInit2_body. triple_step (λ _ : Node, False); [|apply triple_false].
    unfold ToModeCheck. triple_step (λ _ : Node, False); [|apply triple_false].
    unfold BeforeNetwork.
    do 3 (triple_step (λ s, mapArgs s !! k = Some v);
          [apply triple_under; respects_with amount_atom|]).
    unfold ChecksAndStorage.
    do 2 (triple_step (λ s, mapArgs s !! k = Some v);
          [apply triple_under; respects_with amount_atom|]).
    destruct Hk as [->| ->].
    - triple_step (λ _ : Node, False); [by apply PayTxFee_bad | apply triple_false].
    - triple_step (λ s, mapArgs s !! "-mininput" = Some v);
        [apply triple_under; respects_with amount_atom|].
      triple_step (λ _ : Node, False); [by apply MinInput_bad | apply triple_false]. }
  unfold AppInit2. destruct (AppInit2_body env st) as [r st'] eqn:E.
  destruct (Hrun _ _ _ Hv E) as [Hemits Hpost].
  destruct r as [c|c]; [destruct Hpost|]. split; [eauto | exact Hemits].
Qed.

Lemma bad_amount_stops_before_lock_witness :
  (∃ c st', AppInit2_body (env_of true (λ _, None) (DB_LOAD_OK, false) false (λ _, None) (λ _, true))
                          (node0 [("-mininput", "x")]) = (Exit c, st')) ∧
  ∃ evs, trace (AppInit2 (env_of true (λ _, None) (DB_LOAD_OK, false) false (λ _, None) (λ _, true))
                         (node0 [("-mininput", "x")])).2
           = (trace (node0 [("-mininput", "x")]) ++ evs)%list ∧
         Forall is_message evs.
Proof.
  apply (bad_amount_stops_before_lock _ _ "-mininput" "x"); [by right | reflexivity..].
Defined.

(** ** Rebuilding the address index *)

Lemma set_trace_same st : set_trace (trace st ++ []) st = st.
Proof. destruct st. unfold set_trace. simpl. rewrite app_nil_r. reflexivity. Qed.

Lemma RebuildAddressIndex_run env b st :
  RebuildAddressIndex env b st =
    (Continue tt,
     set_trace (trace st ++ ((λ p, EvRebuildAddressIndex (nHeight p)) <$>
                             List.filter (ReadFromDisk env) (chain_of b))) st).
Proof.
  revert b st. fix IH 1. intros [hash height prev] st. simpl.
  unfold bind, when, emit, modify, ret.
  destruct (ReadFromDisk env (BlockIndex hash height prev)); simpl.
  - destruct prev as [p|].
    + rewrite IH. simpl. rewrite <- app_assoc. reflexivity.
    + reflexivity.
  - destruct prev as [p|].
    + apply IH.
    + simpl. by rewrite set_trace_same.
Qed.

(** X21.  The Darksend pool step never stops startup.  With -reindexaddr
    on it goes from the best block back along the pprev links to the
    block without predecessor and rebuilds the address index of each block
    that ReadFromDisk could read, best block first, skipping the others;
    this after the denominations, the collateral address and the pool
    thread are set up.  With -reindexaddr off, or no best block, it
    rebuilds none. *)
Theorem reindex_walks_the_best_chain env st :
  DarksendPool env st =
    (Continue tt,
     set_trace
       (trace st ++
        [EvPushDenominations; EvInitCollateralAddress;
         EvCreateThread ThreadCheckDarkSendPool; EvRandAddSeedPerfmon] ++
        (if GetBoolArg env (mapArgs st) "-reindexaddr" false
         then match pindexBest env with
              | Some b => (λ p, EvRebuildAddressIndex (nHeight p)) <$>
                          List.filter (ReadFromDisk env) (chain_of b)
              | None => []
              end
         else []))%list st).
Proof.
  unfold DarksendPool, get_bool_arg, emit, when, bind, get, ret, modify. simpl.
  destruct (GetBoolArg env (mapArgs st) "-reindexaddr" false); simpl.
  - destruct (pindexBest env) as [b|].
    + rewrite RebuildAddressIndex_run. simpl. rewrite <- !app_assoc. reflexivity.
    + simpl. rewrite <- !app_assoc. reflexivity.
  - rewrite <- !app_assoc. reflexivity.
Qed.

(** With the genesis block missing on disk, only the tip is rebuilt. *)
Example reindex_skips_unreadable_block :
  trace (DarksendPool
           (env_of true (λ _, None) (DB_LOAD_OK, false) false (λ s, Some (decimal s))
                   (λ b, negb (nHeight b =? 0)))
           (node0 [("-reindexaddr", "1")])).2 =
    [EvPushDenominations; EvInitCollateralAddress; EvCreateThread ThreadCheckDarkSendPool;
     EvRandAddSeedPerfmon; EvRebuildAddressIndex 1].
Proof. vm_compute. reflexivity. Qed.

(** ** Hashing the keys of the collections *)

(** X22.  The hash of a seen-stake key does not look at the output index
    of the outpoint: two keys on outputs of the same transaction, with the
    same timestamp, hash alike whatever boost's hash_range and
    hash_combine compute. *)
Theorem stake_key_hash_ignores_output_index
    (hash_range256 : Z → Z) (hash_combine : Z → Z → Z) (k1 k2 : StakeKey) :
  op_hash k1.1 = op_hash k2.1 → k1.2 = k2.2 →
  hash_stake_key hash_range256 hash_combine k1 = hash_stake_key hash_range256 hash_combine k2.
Proof.
  intros Hh Ht. unfold hash_stake_key. cbv zeta. rewrite Hh, Ht. reflexivity.
Qed.

Lemma stake_key_hash_ignores_output_index_witness :
  (MkOutPoint 7 0, 1500000000) ≠ (MkOutPoint 7 1, 1500000000) ∧
  hash_stake_key (λ v, v mod 2 ^ 64) (λ seed v, Z.lxor seed (v + 2654435769))
    (MkOutPoint 7 0, 1500000000) =
  hash_stake_key (λ v, v mod 2 ^ 64) (λ seed v, Z.lxor seed (v + 2654435769))
    (MkOutPoint 7 1, 1500000000).
Proof.
  split; [discriminate|].
  apply (stake_key_hash_ignores_output_index (λ v, v mod 2 ^ 64)
           (λ seed v, Z.lxor seed (v + 2654435769))
           (MkOutPoint 7 0, 1500000000) (MkOutPoint 7 1, 1500000000)); reflexivity.
Defined.
